(** * ONU monitoring: call gate, result cache and aggregation service

  A shallow embedding of the server side of the ONU monitoring
  application:

  - [RateLimiter]   : [src/utils/rateLimiter.js]
  - [CacheService]  : the cache wrapper (second document of
                      [src/services/apiService.js])
  - [ApiService]    : [src/services/apiService.js], and the second
                      revision of the same class in [ApiServiceB]
  - [OnuService]    : [src/services/onuService.js], and the revision of
                      the same class that reads everything from the
                      details endpoint in [OnuServiceB]
  - [Dict], [OdbGroups], [Tally], [Statistics] :
                      the plain objects that [getOnusByOdb] and
                      [getStatistics] use as dictionaries
  - [PlainObject]   : the plain objects that the listings of the
                      first revision use as maps from identities
  - [Routes]        : the filter construction of the route handlers

  JavaScript values are embedded as the inductive type [JS.jsval];
  numbers are IEEE-754 binary64 values ([spec_float] with precision 53
  and maximal exponent 1024); a string is the sequence of its UTF-16
  code units, one [ascii] per code unit, so the strings of the
  embedding are those whose code units are below 256 (ASCII and the
  Latin-1 supplement).  Time is the integer number of milliseconds
  returned by [Date.now()], passed explicitly to every operation that
  reads the clock. *)

From Stdlib Require Import ZArith List Ascii String Lia Bool Sorted.
From Stdlib Require Import Floats.SpecFloat.
From stdpp Require Import base option list gmap strings pretty.

Set Default Proof Using "Type".

(* ================================================================== *)
(** * JavaScript values and the built-ins used by the services *)
(* ================================================================== *)

Module JS.

(** Values that can travel through JSON, plus [undefined]. *)
#[warnings="-register-all"]
Inductive jsval : Type :=
| JUndefined
| JNull
| JBool (b : bool)
| JNum (x : spec_float)
| JStr (s : string)
| JArr (xs : list jsval)
| JObj (fields : list (string * jsval)).

(** Completion of a call: a value is returned, or a value is thrown
    (a rejected promise, once awaited, is a throw). *)
Inductive outcome (A : Type) : Type :=
| Return (a : A)
| Throw (e : jsval).
Arguments Return {A} a.
Arguments Throw {A} e.

Definition bind {A B} (x : outcome A) (k : A -> outcome B) : outcome B :=
  match x with
  | Return a => k a
  | Throw e => Throw e
  end.

Definition succeeded {A} (x : outcome A) : bool :=
  match x with Return _ => true | Throw _ => false end.

(** [new Error(msg)] *)
Definition Error (msg : string) : jsval := JObj [("message", JStr msg)].

(** ** Numbers *)

Definition prec : Z := 53.
Definition emax : Z := 1024.

Definition is_nan (x : spec_float) : bool :=
  match x with S754_nan => true | _ => false end.

Definition is_zero (x : spec_float) : bool :=
  match x with S754_zero _ => true | _ => false end.

(** [x === y] on numbers: NaN differs from everything, the two zeros
    are equal. *)
Definition num_eq (x y : spec_float) : bool := SFeqb x y.

(** ** ToBoolean *)
Definition truthy (v : jsval) : bool :=
  match v with
  | JUndefined | JNull => false
  | JBool b => b
  | JNum x => negb (is_nan x || is_zero x)
  | JStr s => match s with EmptyString => false | _ => true end
  | JArr _ | JObj _ => true
  end.

(** [a || b] *)
Definition or_else (a b : jsval) : jsval := if truthy a then a else b.

(** ** Strict equality.  Object identity is not represented: the
    values compared with [===] by the services are primitives at every
    call site, and two distinct objects are never strictly equal. *)
Definition strict_eq (a b : jsval) : bool :=
  match a, b with
  | JUndefined, JUndefined => true
  | JNull, JNull => true
  | JBool x, JBool y => Bool.eqb x y
  | JNum x, JNum y => num_eq x y
  | JStr x, JStr y => String.eqb x y
  | _, _ => false
  end.

(** ** Objects: insertion-ordered association lists *)

Fixpoint lookup_field (k : string) (fs : list (string * jsval)) : option jsval :=
  match fs with
  | [] => None
  | (k', v) :: rest => if String.eqb k k' then Some v else lookup_field k rest
  end.

(** [o[k] = v]: overwrite in place when the key exists, append
    otherwise. *)
Fixpoint set_field (k : string) (v : jsval) (fs : list (string * jsval))
  : list (string * jsval) :=
  match fs with
  | [] => [(k, v)]
  | (k', v') :: rest =>
      if String.eqb k k' then (k, v) :: rest else (k', v') :: set_field k v rest
  end.

Definition set_fields (upd fs : list (string * jsval)) : list (string * jsval) :=
  fold_left (fun acc kv => set_field (fst kv) (snd kv) acc) upd fs.

(** [v.k] for the property names the services read (none of them is a
    built-in property of strings, arrays or [Object.prototype]): a
    [TypeError] on [undefined] and [null], [undefined] when the
    property does not exist. *)
Definition get_prop (v : jsval) (k : string) : outcome jsval :=
  match v with
  | JUndefined | JNull =>
      Throw (Error "TypeError: Cannot read properties of undefined or null")
  | JObj fs => Return (default JUndefined (lookup_field k fs))
  | _ => Return JUndefined
  end.

(** [v?.k] *)
Definition get_prop_opt (v : jsval) (k : string) : jsval :=
  match v with
  | JObj fs => default JUndefined (lookup_field k fs)
  | _ => JUndefined
  end.

(** [{ ...v }]: spreading a non-object copies nothing (strings and
    arrays would contribute index keys; the services only spread
    records and [undefined]). *)
Definition spread (v : jsval) : list (string * jsval) :=
  match v with
  | JObj fs => fs
  | _ => []
  end.

(** ** Strings.  An [ascii] is one code unit, of code 0 to 255. *)

(** The upper-case letters among these code units are A to Z and,
    in the Latin-1 supplement, U+00C0 to U+00DE without the
    multiplication sign U+00D7; each has its lower-case letter 32
    places further. *)
Definition lower_char (c : ascii) : ascii :=
  let n := nat_of_ascii c in
  if ((65 <=? n)%nat && (n <=? 90)%nat) ||
     ((192 <=? n)%nat && (n <=? 222)%nat && negb (n =? 215)%nat)
  then ascii_of_nat (n + 32) else c.

Fixpoint toLowerCase (s : string) : string :=
  match s with
  | EmptyString => EmptyString
  | String c r => String (lower_char c) (toLowerCase r)
  end.

(** The white space and line terminators among these code units:
    TAB, LF, VT, FF, CR, SPACE and the no-break space U+00A0. *)
Definition is_whitespace (c : ascii) : bool :=
  let n := nat_of_ascii c in
  ((9 <=? n)%nat && (n <=? 13)%nat) || (n =? 32)%nat || (n =? 160)%nat.

Fixpoint trimStart (s : string) : string :=
  match s with
  | EmptyString => EmptyString
  | String c r => if is_whitespace c then trimStart r else s
  end.

Fixpoint trimEnd (s : string) : string :=
  match s with
  | EmptyString => EmptyString
  | String c r =>
      match trimEnd r with
      | EmptyString => if is_whitespace c then EmptyString else String c EmptyString
      | r' => String c r'
      end
  end.

Definition trim (s : string) : string := trimEnd (trimStart s).

(** [s.includes(sub)] *)
Fixpoint includes (s sub : string) : bool :=
  String.prefix sub s ||
  match s with
  | EmptyString => false
  | String _ r => includes r sub
  end.

(** ** Decimal text to number and back *)

Section Decimal.
Local Open Scope Z_scope.

(** Number of decimal digits of a positive integer (0 for 0). *)
Fixpoint dec_digits_fuel (fuel : nat) (n : Z) : Z :=
  match fuel with
  | O => 0
  | S f => if n <=? 0 then 0 else 1 + dec_digits_fuel f (n / 10)
  end.

Definition dec_digits (n : Z) : Z :=
  dec_digits_fuel (Z.to_nat (Z.log2 n) + 2) n.

(** The binary64 value nearest to [m * 10^e], ties to even, with
    sign [neg].  Magnitudes of [10^310] and more are infinite, those
    below [10^-330] are zero; the two tests only keep the powers of
    ten small. *)
Definition round_decimal (neg : bool) (m e : Z) : spec_float :=
  if m <=? 0 then S754_zero neg
  else if 310 <? dec_digits m + e then S754_infinity neg
  else if dec_digits m + e <? -330 then S754_zero neg
  else if 0 <=? e then
    binary_normalize prec emax (if neg then - (m * 10 ^ e) else m * 10 ^ e) 0 neg
  else
    let '(q, e', l) := SFdiv_core_binary prec emax m 0 (10 ^ (- e)) 0 in
    binary_round_aux prec emax neg q e' l.

Definition is_digit (c : ascii) : bool :=
  let n := nat_of_ascii c in (48 <=? n)%nat && (n <=? 57)%nat.

(** Longest run of decimal digits at the head of [s]: the integer
    they extend [acc] to, how many they are, and the rest. *)
Fixpoint take_digits (s : string) (acc cnt : Z) : Z * Z * string :=
  match s with
  | String c r =>
      if is_digit c
      then take_digits r (10 * acc + (Z.of_nat (nat_of_ascii c) - 48)) (cnt + 1)
      else (acc, cnt, s)
  | EmptyString => (acc, cnt, s)
  end.

Definition take_sign (s : string) : bool * string :=
  match s with
  | String "+"%char r => (false, r)
  | String "-"%char r => (true, r)
  | _ => (false, s)
  end.

(** The value of the longest prefix of [s] that is a
    StrDecimalLiteral, NaN when there is none. *)
Definition decimal_prefix (s : string) : spec_float :=
  let '(neg, s1) := take_sign s in
  if String.prefix "Infinity" s1 then S754_infinity neg
  else
    let '(i, ni, s2) := take_digits s1 0 0 in
    let '(f, nf, s3) :=
      match s2 with
      | String "."%char r => take_digits r i 0
      | _ => (i, 0, s2)
      end in
    if (ni =? 0) && (nf =? 0) then S754_nan
    else
      let ex :=
        match s3 with
        | String c r =>
            if Ascii.eqb c "e" || Ascii.eqb c "E" then
              let '(eneg, r1) := take_sign r in
              let '(ev, ne, _) := take_digits r1 0 0 in
              if ne =? 0 then 0 else if eneg then - ev else ev
            else 0
        | EmptyString => 0
        end in
      round_decimal neg f (ex - nf).

(** [x * 10^p] for the positive rational [x = num / den]. *)
Definition scale10 (num den p : Z) : Z * Z :=
  if 0 <=? p then (num * 10 ^ p, den) else (num, den * 10 ^ (- p)).

Fixpoint neg_position (fuel : nat) (num den t : Z) : Z :=
  match fuel with
  | O => 1 - t
  | S f => if den <=? num * 10 ^ t then 1 - t else neg_position f num den (t + 1)
  end.

(** The [n] with [10^(n-1) <= num / den < 10^n]. *)
Definition position (num den : Z) : Z :=
  if den <=? num then dec_digits (num / den) else neg_position 400 num den 1.

(** The [k]-digit decimals next to [x = num / den] that read back
    as [x]: the nearer one, the even one on a tie. *)
Definition candidate (x : spec_float) (num den n k : Z) : option (Z * Z) :=
  let '(a, b) := scale10 num den (k - n) in
  let lo := a / b in
  let hi := if a mod b =? 0 then lo else lo + 1 in
  let reads_back s n' := SFeqb (round_decimal false s (n' - k)) x in
  let hi_n := if hi =? 10 ^ k then (10 ^ (k - 1), n + 1) else (hi, n) in
  match reads_back lo n, reads_back (fst hi_n) (snd hi_n) with
  | true, false => Some (lo, n)
  | false, true => Some hi_n
  | false, false => None
  | true, true =>
      match (a - lo * b) ?= (hi * b - a) with
      | Lt => Some (lo, n)
      | Gt => Some hi_n
      | Eq => if Z.even lo then Some (lo, n) else Some hi_n
      end
  end.

(** Shortest digit string [s] (with [k] digits, at position [n])
    that reads back as [x]; 17 digits always suffice. *)
Fixpoint shortest (fuel : nat) (x : spec_float) (num den n k : Z) : Z * Z * Z :=
  match fuel with
  | O => (fst (scale10 num den (k - n)) / snd (scale10 num den (k - n)), n, k)
  | S f =>
      match candidate x num den n k with
      | Some (s, n') => (s, n', k)
      | None => shortest f x num den n (k + 1)
      end
  end.

Definition zeros (n : Z) : string :=
  String.concat EmptyString (repeat "0"%string (Z.to_nat n)).

Definition exp_suffix (n : Z) : string :=
  "e" +:+ (if 0 <=? n - 1 then "+" else "-") +:+ pretty (Z.abs (n - 1)).

(** Number::toString of the positive finite number [m * 2^e]. *)
Definition positive_to_string (m : positive) (e : Z) : string :=
  let '(num, den) :=
    if 0 <=? e then (Zpos m * 2 ^ e, 1) else (Zpos m, 2 ^ (- e)) in
  let '(s, n, k) :=
    shortest 17 (S754_finite false m e) num den (position num den) 1 in
  let ds := pretty s in
  if (k <=? n) && (n <=? 21) then ds +:+ zeros (n - k)
  else if (0 <? n) && (n <=? 21) then
    String.substring 0 (Z.to_nat n) ds +:+ "." +:+
    String.substring (Z.to_nat n) (Z.to_nat (k - n)) ds
  else if (-6 <? n) && (n <=? 0) then "0." +:+ zeros (- n) +:+ ds
  else if k =? 1 then ds +:+ exp_suffix n
  else String.substring 0 1 ds +:+ "." +:+
       String.substring 1 (Z.to_nat (k - 1)) ds +:+ exp_suffix n.

Definition number_to_string (x : spec_float) : string :=
  match x with
  | S754_nan => "NaN"
  | S754_zero _ => "0"
  | S754_infinity s => if s then "-Infinity" else "Infinity"
  | S754_finite s m e =>
      (if s then "-" else EmptyString) +:+ positive_to_string m e
  end.
End Decimal.

(** ** ToString, as applied by template literals and [parseFloat] *)
Fixpoint to_string (v : jsval) : string :=
  match v with
  | JUndefined => "undefined"
  | JNull => "null"
  | JBool b => if b then "true" else "false"
  | JNum x => number_to_string x
  | JStr s => s
  | JArr xs =>
      String.concat ","
        (List.map (fun x => match x with
                            | JUndefined | JNull => EmptyString
                            | _ => to_string x
                            end) xs)
  | JObj _ => "[object Object]"
  end.

Definition parseFloat (v : jsval) : spec_float :=
  decimal_prefix (trimStart (to_string v)).

(** ** JSON.stringify *)

(** The one-character string holding a double quote. *)
Definition dquote : string := String (ascii_of_nat 34) EmptyString.

Definition hex_digit (n : nat) : ascii :=
  ascii_of_nat (if (n <? 10)%nat then 48 + n else 87 + n).

Definition escape_char (c : ascii) : string :=
  let n := nat_of_ascii c in
  if (n =? 34)%nat then "\" +:+ dquote
  else if (n =? 92)%nat then "\\"
  else if (n =? 8)%nat then "\b"
  else if (n =? 9)%nat then "\t"
  else if (n =? 10)%nat then "\n"
  else if (n =? 12)%nat then "\f"
  else if (n =? 13)%nat then "\r"
  else if (n <? 32)%nat then
    "\u00" +:+ String (hex_digit (n / 16)) (String (hex_digit (n mod 16)) EmptyString)
  else String c EmptyString.

Fixpoint escape (s : string) : string :=
  match s with
  | EmptyString => EmptyString
  | String c r => escape_char c +:+ escape r
  end.

Definition quote (s : string) : string := dquote +:+ escape s +:+ dquote.

(** [None] is the result [undefined].  The fields of an object are
    listed in their enumeration order. *)
Fixpoint JSON_stringify (v : jsval) : option string :=
  match v with
  | JUndefined => None
  | JNull => Some "null"
  | JBool b => Some (if b then "true" else "false")
  | JNum x =>
      Some match x with
           | S754_nan | S754_infinity _ => "null"
           | _ => number_to_string x
           end
  | JStr s => Some (quote s)
  | JArr xs =>
      Some ("[" +:+
            String.concat ","
              (List.map (fun x => default "null" (JSON_stringify x)) xs)
            +:+ "]")
  | JObj fs =>
      Some ("{" +:+
            String.concat ","
              (List.concat
                 (List.map (fun kv =>
                    match JSON_stringify (snd kv) with
                    | Some t => [quote (fst kv) +:+ ":" +:+ t]
                    | None => []
                    end) fs))
            +:+ "}")
  end.

End JS.

(** [x ← a; k] runs [a] and, unless it throws, continues with [k]. *)
#[global] Instance outcome_ret : MRet JS.outcome := @JS.Return.
#[global] Instance outcome_bind : MBind JS.outcome :=
fun A B (k : A -> JS.outcome B) (x : JS.outcome A) => JS.bind x k.

(* ================================================================== *)
(** * The call gate: [src/utils/rateLimiter.js] *)
(* ================================================================== *)

Module RateLimiter.
Import JS.
Local Open Scope Z_scope.

Record config := {
  cfg_apiDelay : Z;
  cfg_gpsLimit : Z;
  cfg_detailsLimit : Z
}.

Record callCounts_t := { gps : list Z; details : list Z }.

Record t := {
  apiDelay : Z;
  gpsLimit : Z;
  detailsLimit : Z;
  lastCallTime : Z;
  callCounts : callCounts_t
}.

(** [constructor(config)] *)
Definition new (c : config) : t :=
  {| apiDelay := cfg_apiDelay c;
     gpsLimit := cfg_gpsLimit c;
     detailsLimit := cfg_detailsLimit c;
     lastCallTime := 0;
     callCounts := {| gps := []; details := [] |} |}.

(** [['gps', 'details'].includes(endpointType)] *)
Definition restricted (endpointType : string) : bool :=
  String.eqb endpointType "gps" || String.eqb endpointType "details".

(** [this.callCounts[endpointType]] for a restricted class. *)
Definition counts (rl : t) (endpointType : string) : list Z :=
  if String.eqb endpointType "gps" then gps (callCounts rl)
  else details (callCounts rl).

Definition set_counts (rl : t) (endpointType : string) (l : list Z) : t :=
  {| apiDelay := apiDelay rl;
     gpsLimit := gpsLimit rl;
     detailsLimit := detailsLimit rl;
     lastCallTime := lastCallTime rl;
     callCounts :=
       if String.eqb endpointType "gps"
       then {| gps := l; details := details (callCounts rl) |}
       else {| gps := gps (callCounts rl); details := l |} |}.

Definition set_lastCallTime (rl : t) (now : Z) : t :=
  {| apiDelay := apiDelay rl;
     gpsLimit := gpsLimit rl;
     detailsLimit := detailsLimit rl;
     lastCallTime := now;
     callCounts := callCounts rl |}.

Definition limit_of (rl : t) (endpointType : string) : Z :=
  if String.eqb endpointType "gps" then gpsLimit rl else detailsLimit rl.

Definition hour : Z := 60 * 60 * 1000.

(** [Math.ceil(x / d)] for integers [x] and [d > 0]; timestamps are
    integers far below [2^53], so the quotient is computed exactly. *)
Definition ceil_div (x d : Z) : Z := - ((- x) / d).

(** The timestamps of a class that are still inside the window. *)
Definition prune (now : Z) (l : list Z) : list Z :=
  List.filter (fun timestamp => now - hour <? timestamp) l.

(** Result of [canCallEndpoint].  [waitMinutes] and [resetTime] are
    [None] when the arithmetic on a missing oldest call yields NaN. *)
Inductive limitCheck :=
| Allowed
| Rejected (waitMinutes : option Z) (resetTime : option Z).

Definition allowed (r : limitCheck) : bool :=
  match r with Allowed => true | Rejected _ _ => false end.

Definition canCallEndpoint (rl : t) (endpointType : string) (now : Z)
  : limitCheck * t :=
  if negb (restricted endpointType) then (Allowed, rl)
  else
    let kept := prune now (counts rl endpointType) in
    let rl' := set_counts rl endpointType kept in
    let limit := limit_of rl endpointType in
    let currentCount := Z.of_nat (length kept) in
    if limit <=? currentCount then
      match kept with
      | oldestCall :: _ =>
          let resetTime := oldestCall + hour in
          let waitMinutes := ceil_div (resetTime - now) (60 * 1000) in
          (Rejected (Some waitMinutes) (Some resetTime), rl')
      | [] => (Rejected None None, rl')
      end
    else (Allowed, rl').

Definition recordCall (rl : t) (endpointType : string) (now : Z) : t :=
  if restricted endpointType
  then set_counts rl endpointType (counts rl endpointType ++ [now])
  else rl.

(** [None] is the [null] returned for unrestricted classes. *)
Definition getRemainingCalls (rl : t) (endpointType : string) (now : Z)
  : option Z * t :=
  if negb (restricted endpointType) then (None, rl)
  else
    let kept := prune now (counts rl endpointType) in
    (Some (limit_of rl endpointType - Z.of_nat (length kept)),
     set_counts rl endpointType kept).

(** ** [waitForNextCall]

    The method runs in two uninterrupted pieces: from entry to the
    [await] (or to the end, when there is nothing to wait for), and
    from the wake-up to the end. *)

(** The time to sleep decided on entry at [now], if any. *)
Definition waitTime (rl : t) (now : Z) : option Z :=
  let timeSinceLastCall := now - lastCallTime rl in
  if timeSinceLastCall <? apiDelay rl
  then Some (apiDelay rl - timeSinceLastCall)
  else None.

(** One invocation that nothing else interleaves with: entered at
    [now], it completes at the returned instant.  [late] is the time
    by which the timer (or, without a wait, the second clock reading)
    lags. *)
Definition waitForNextCall (rl : t) (now late : Z) : t * Z :=
  let done :=
    match waitTime rl now with
    | Some w => now + w + late
    | None => now + late
    end in
  (set_lastCallTime rl done, done).

(** Invocations that overlap, as when several requests are started
    before any is awaited: each event is one uninterrupted piece of
    one invocation, stamped with the clock reading. *)
Inductive event :=
| Enter (id : nat)
| Wake (id : nat).

Record run_state := {
  limiter : t;
  clock : Z;
  sleeping : list (nat * Z);    (* invocation, earliest wake-up *)
  completions : list (nat * Z)  (* invocation, completion instant *)
}.

Definition start (rl : t) (now : Z) : run_state :=
  {| limiter := rl; clock := now; sleeping := []; completions := [] |}.

Fixpoint due (id : nat) (l : list (nat * Z)) : option Z :=
  match l with
  | [] => None
  | (i, d) :: rest => if Nat.eqb i id then Some d else due id rest
  end.

Definition complete (s : run_state) (id : nat) (now : Z) : run_state :=
  {| limiter := set_lastCallTime (limiter s) now;
     clock := now;
     sleeping := List.filter (fun p => negb (Nat.eqb (fst p) id)) (sleeping s);
     completions := completions s ++ [(id, now)] |}.

(** [None]: the event cannot happen (the clock would run backwards,
    or a timer would fire early or for nobody). *)
Definition step (s : run_state) (ev : Z * event) : option run_state :=
  let now := fst ev in
  if now <? clock s then None
  else
    match snd ev with
    | Enter id =>
        match waitTime (limiter s) now with
        | None => Some (complete s id now)
        | Some w =>
            Some {| limiter := limiter s;
                    clock := now;
                    sleeping := (id, now + w) :: sleeping s;
                    completions := completions s |}
        end
    | Wake id =>
        match due id (sleeping s) with
        | Some d => if d <=? now then Some (complete s id now) else None
        | None => None
        end
    end.

Fixpoint run (s : run_state) (evs : list (Z * event)) : option run_state :=
  match evs with
  | [] => Some s
  | ev :: rest =>
      match step s ev with
      | Some s' => run s' rest
      | None => None
      end
  end.

(** Every two consecutive instants are at least [d] apart. *)
Fixpoint spaced (d : Z) (l : list Z) : bool :=
  match l with
  | a :: ((b :: _) as rest) => (d <=? b - a) && spaced d rest
  | _ => true
  end.

End RateLimiter.

(* ================================================================== *)
(** * The result cache: [CacheService] over a [node-cache] store *)
(* ================================================================== *)

Module NodeCache.
Import JS.
Local Open Scope Z_scope.

(** Modelled from the spec: the [node-cache] package that
    [CacheService] wraps is a dependency; its source is not in the
    repository.  A cache entry is a value with an expiry instant
    ([t], in milliseconds; 0 when the entry never expires). *)
Record entry := { v : jsval; t : Z }.

(** Modelled from the spec: the store of [node-cache], a map from
    keys to entries, created with [stdTTL] seconds as default
    time-to-live. *)
Record store := { stdTTL : Z; data : gmap string entry }.

Definition new (stdTTL : Z) : store := {| stdTTL := stdTTL; data := ∅ |}.

Definition with_data (c : store) (d : gmap string entry) : store :=
  {| stdTTL := stdTTL c; data := d |}.

(** Modelled from the spec: whether an entry is unexpired at [now]
    (missing dependency [node-cache]): it is expired once the clock
    has passed its expiry instant. *)
Definition live (e : entry) (now : Z) : bool :=
  (t e =? 0) || (now <=? t e).

(** Modelled from the spec: [get] of the missing dependency
    [node-cache]: the stored value if present and unexpired, else
    [undefined]; an expired entry is dropped when it is looked at. *)
Definition get (c : store) (key : string) (now : Z) : jsval * store :=
  match data c !! key with
  | Some e =>
      if live e now then (v e, c)
      else (JUndefined, with_data c (delete key (data c)))
  | None => (JUndefined, c)
  end.

(** Modelled from the spec: [set] of the missing dependency
    [node-cache]: stores the value with the expiry [now + ttl]
    ([ttl] in seconds; no expiry for 0; the default when [ttl] is
    absent) and overwrites any prior entry of the key. *)
Definition set (c : store) (key : string) (value : jsval) (ttl : option Z) (now : Z)
  : store :=
  let seconds := default (stdTTL c) ttl in
  let livetime := if seconds =? 0 then 0 else now + seconds * 1000 in
  with_data c (<[key := {| v := value; t := livetime |}]> (data c)).

(** Modelled from the spec: explicit removal ([del], [flushAll]) and
    the periodic removal of expired entries of the missing dependency
    [node-cache]. *)
Definition del (c : store) (key : string) : store :=
  with_data c (delete key (data c)).

Definition flushAll (c : store) : store := with_data c ∅.

Definition checkData (c : store) (now : Z) : store :=
  with_data c (filter (fun kv => live (snd kv) now = true) (data c)).

End NodeCache.

Module CacheService.
Import JS.
Local Open Scope Z_scope.

(** [config.cache] of [src/config/api.config.js]: the three
    time-to-live values, in seconds. *)
Record ttl_config := { onuDetails : Z; onuStatus : Z; gps : Z }.

Record t := { cache : NodeCache.store; config : ttl_config }.

(** [constructor(config)] *)
Definition new (c : ttl_config) : t :=
  {| cache := NodeCache.new (onuStatus c); config := c |}.

Definition with_cache (cs : t) (c : NodeCache.store) : t :=
  {| cache := c; config := config cs |}.

(** [get(key)]: [null] unless the store returns a truthy value.  The
    store does not throw on string keys, so the [catch] branch, which
    returns [null] as well, is never taken. *)
Definition get (cs : t) (key : string) (now : Z) : jsval * t :=
  let '(value, c) := NodeCache.get (cache cs) key now in
  if truthy value then (value, with_cache cs c) else (JNull, with_cache cs c).

(** [set(key, value, ttl = null)]; [ttl || this.config.ttl.onuStatus]
    replaces an absent or zero [ttl] by the status time-to-live. *)
Definition set (cs : t) (key : string) (value : jsval) (ttl : option Z) (now : Z)
  : bool * t :=
  let actualTtl :=
    match ttl with
    | Some n => if n =? 0 then onuStatus (config cs) else n
    | None => onuStatus (config cs)
    end in
  (true, with_cache cs (NodeCache.set (cache cs) key value (Some actualTtl) now)).

Definition del (cs : t) (key : string) : bool * t :=
  (true, with_cache cs (NodeCache.del (cache cs) key)).

Definition flush (cs : t) : bool * t :=
  (true, with_cache cs (NodeCache.flushAll (cache cs))).

(** The cache as the rest of the process may touch it between two
    operations of interest: reads, writes and removals by key, and the
    periodic sweep of the store. *)
Inductive op :=
| OGet (key : string)
| OSet (key : string) (value : jsval) (ttl : option Z)
| ODel (key : string)
| OSweep.

Definition touches (o : op) (k : string) : bool :=
  match o with
  | OGet key | OSet key _ _ | ODel key => String.eqb key k
  | OSweep => false
  end.

Definition apply (cs : t) (o : Z * op) : t :=
  match snd o with
  | OGet key => snd (get cs key (fst o))
  | OSet key value ttl => snd (set cs key value ttl (fst o))
  | ODel key => snd (del cs key)
  | OSweep => with_cache cs (NodeCache.checkData (cache cs) (fst o))
  end.

Definition apply_all (cs : t) (ops : list (Z * op)) : t :=
  fold_left apply ops cs.

End CacheService.

(* ================================================================== *)
(** * The upstream client: [src/services/apiService.js] *)
(* ================================================================== *)

(** What both revisions of [ApiService] share: the instants of one
  request and the HTTP client. *)
Module Request.
Import JS.

(** One request enters at [entered]; its timer lags by [timer_late];
    the HTTP exchange takes [latency]. *)
Record timing := { entered : Z; timer_late : Z; latency : Z }.

(** [this.client.get(endpoint, { params })], awaited: the axios
    response object, or the thrown error (whose [response.status] is
    the HTTP status when the server answered). *)
Definition client := string -> jsval -> outcome jsval.

Definition number (z : Z) : jsval := JNum (binary_normalize prec emax z 0 false).

Definition minutes (w : option Z) : string :=
  match w with Some m => pretty m | None => "NaN" end.

Definition newline : string := String (ascii_of_nat 10) EmptyString.

(** [s.substring(0, n)] *)
Definition substring0 (n : nat) (s : string) : string := String.substring 0 n s.
End Request.

Module ApiService.
Import JS Request.
Local Open Scope Z_scope.

Record t := {
  baseUrl : string;
  apiKey : option string;        (* [process.env.API_KEY] *)
  client_get : client;
  rateLimiter : RateLimiter.t
}.

Definition with_rateLimiter (api : t) (rl : RateLimiter.t) : t :=
  {| baseUrl := baseUrl api; apiKey := apiKey api;
     client_get := client_get api; rateLimiter := rl |}.

(** [!this.apiKey || this.apiKey === 'your_api_key_here'] *)
Definition key_missing (api : t) : bool :=
  match apiKey api with
  | None => true
  | Some k => negb (truthy (JStr k)) || String.eqb k "your_api_key_here"
  end.

(** The checks on the response that follow the recording of the
    call. *)
Definition validate (response : jsval) : outcome jsval :=
  data ← get_prop response "data";
  if negb (truthy data) then Throw (Error "Empty response from API")
  else
    status ← get_prop data "status";
    if strict_eq status (JBool false) then
      error ← get_prop data "error";
      match or_else error (JStr "API returned error status") with
      | JStr errorMsg =>
          if includes (toLowerCase errorMsg) "invalid api key"
          then Throw (Error
                 "Invalid API Key. Please check your API_KEY configuration in .env file")
          else Throw (Error errorMsg)
      | _ => Throw (Error "TypeError: errorMsg.toLowerCase is not a function")
      end
    else Return data.

(** The [try] block. *)
Definition attempt (api : t) (endpoint : string) (params : jsval)
    (endpointType : string) (tm : timing) : outcome jsval * RateLimiter.t :=
  let rl := rateLimiter api in
  if key_missing api then
    (Throw (Error "Invalid API Key. Please configure API_KEY in .env file"), rl)
  else
    let '(limitCheck, rl1) :=
      if negb (String.eqb endpointType "normal")
      then RateLimiter.canCallEndpoint rl endpointType (entered tm)
      else (RateLimiter.Allowed, rl) in
    match limitCheck with
    | RateLimiter.Rejected waitMinutes _ =>
        (Throw (Error ("Rate limit exceeded for " +:+ endpointType +:+
                       ". Please wait " +:+ minutes waitMinutes +:+ " minutes.")),
         rl1)
    | RateLimiter.Allowed =>
        let '(rl2, sent) :=
          RateLimiter.waitForNextCall rl1 (entered tm) (timer_late tm) in
        match client_get api endpoint params with
        | Throw e => (Throw e, rl2)
        | Return response =>
            let rl3 :=
              if negb (String.eqb endpointType "normal")
              then RateLimiter.recordCall rl2 endpointType (sent + latency tm)
              else rl2 in
            (validate response, rl3)
        end
    end.

(** The [catch] block, as the value it throws: two HTTP statuses get
    a message of their own, everything else is thrown again.  The
    block starts by reading [error.response], which is itself a
    TypeError when the caught value is [null] or [undefined]; only the
    read of [.status] is guarded by [?.]. *)
Definition rethrow (api : t) (endpoint : string) (error : jsval) : jsval :=
  match get_prop error "response" with
  | Throw typeError => typeError
  | Return response =>
      let status := get_prop_opt response "status" in
      if strict_eq status (number 403) then
        Error ("403 Forbidden: Access denied. Please verify:" +:+ newline +:+
               "1. API Key is correct in .env file" +:+ newline +:+
               "2. API Key has proper permissions" +:+ newline +:+
               "3. Endpoint URL is correct: " +:+ baseUrl api +:+ endpoint +:+ newline +:+
               "4. Your IP is allowed (if IP whitelisting is enabled)")
      else if strict_eq status (number 401) then
        Error ("401 Unauthorized: Invalid API Key. Current key starts with: " +:+
               match apiKey api with
               | Some k => substring0 10 k
               | None => "undefined"
               end +:+ "...")
      else error
  end.

Definition makeRequest (api : t) (endpoint : string) (params : jsval)
    (endpointType : string) (tm : timing) : outcome jsval * t :=
  let '(result, rl) := attempt api endpoint params endpointType tm in
  (match result with
   | Return data => Return data
   | Throw error => Throw (rethrow api endpoint error)
   end,
   with_rateLimiter api rl).

Definition getOnuStatuses (api : t) (params : jsval) :=
  makeRequest api "/onu/get_onus_statuses" params "normal".

Definition getAllOnusDetails (api : t) (params : jsval) :=
  makeRequest api "/onu/get_all_onus_details" params "details".

Definition getAllOnusGpsCoordinates (api : t) (params : jsval) :=
  makeRequest api "/onu/get_all_onus_gps_coordinates" params "gps".

Definition getOnuStatus (api : t) (onuExternalId : jsval) :=
  makeRequest api ("/onu/get_onu_status/" +:+ to_string onuExternalId) (JObj []) "normal".

Definition getOnuDetails (api : t) (onuExternalId : jsval) :=
  makeRequest api ("/onu/get_onu_details/" +:+ to_string onuExternalId) (JObj []) "normal".

Definition getOnuSignal (api : t) (onuExternalId : jsval) :=
  makeRequest api ("/onu/get_onu_signal/" +:+ to_string onuExternalId) (JObj []) "normal".

(** [params = {}] when the second argument is left out. *)
Definition getOdbs (api : t) (params : jsval) :=
  makeRequest api "/system/get_odbs" params "normal".

Definition getOdbById (api : t) (odbId : jsval) :=
  makeRequest api ("/system/get_odb/" +:+ to_string odbId) (JObj []) "normal".

Definition getOltsList (api : t) :=
  makeRequest api "/system/get_olts" (JObj []) "normal".

Definition getOltPonPortsDetails (api : t) (oltId : jsval) :=
  makeRequest api ("/system/get_olt_pon_ports_details/" +:+ to_string oltId)
    (JObj []) "normal".

Definition getOnuAdministrativeStatus (api : t) (onuExternalId : jsval) :=
  makeRequest api
    ("/onu/get_onu_administrative_status/" +:+ to_string onuExternalId)
    (JObj []) "normal".

Definition getOnusDetailsBySn (api : t) (sn : jsval) :=
  makeRequest api ("/onu/get_onus_details_by_sn/" +:+ to_string sn) (JObj []) "normal".

(** [testConnection()]: the outcome of [getOltsList] as a report. *)
Definition testConnection (api : t) (tm : timing) : outcome jsval * t :=
  let '(result, api') := getOltsList api tm in
  (match result with
   | Return _ =>
       Return (JObj [("success", JBool true);
                     ("message", JStr "Connected successfully")])
   | Throw error =>
       message ← get_prop error "message";
       Return (JObj [("success", JBool false); ("message", message)])
   end,
   api').

End ApiService.

(** The second revision of the same class in the repository: no key
  check, no special messages. *)
Module ApiServiceB.
Import JS Request.
Local Open Scope Z_scope.

Record t := {
  baseUrl : string;
  apiKey : option string;
  client_get : client;
  rateLimiter : RateLimiter.t
}.

Definition with_rateLimiter (api : t) (rl : RateLimiter.t) : t :=
  {| baseUrl := baseUrl api; apiKey := apiKey api;
     client_get := client_get api; rateLimiter := rl |}.

Definition validate (response : jsval) : outcome jsval :=
  data ← get_prop response "data";
  if negb (truthy data) then Throw (Error "Empty response from API")
  else
    status ← get_prop data "status";
    if strict_eq status (JBool false) then
      error ← get_prop data "error";
      Throw (Error (to_string (or_else error (JStr "API returned error status"))))
    else Return data.

(** The [try] block. *)
Definition attempt (api : t) (endpoint : string) (params : jsval)
    (endpointType : string) (tm : timing) : outcome jsval * RateLimiter.t :=
  let rl := rateLimiter api in
  let '(limitCheck, rl1) :=
    if negb (String.eqb endpointType "normal")
    then RateLimiter.canCallEndpoint rl endpointType (entered tm)
    else (RateLimiter.Allowed, rl) in
  match limitCheck with
  | RateLimiter.Rejected waitMinutes _ =>
      (Throw (Error ("Rate limit exceeded for " +:+ endpointType +:+
                     ". Please wait " +:+ minutes waitMinutes +:+ " minutes.")),
       rl1)
  | RateLimiter.Allowed =>
      let '(rl2, sent) :=
        RateLimiter.waitForNextCall rl1 (entered tm) (timer_late tm) in
      match client_get api endpoint params with
      | Throw e => (Throw e, rl2)
      | Return response =>
          let rl3 :=
            if negb (String.eqb endpointType "normal")
            then RateLimiter.recordCall rl2 endpointType (sent + latency tm)
            else rl2 in
          (validate response, rl3)
      end
  end.

(** The [catch] block, as the value it throws: it logs
    [error.message] and throws the error again.  The read of
    [error.message] is itself a TypeError when the caught value is
    [null] or [undefined]. *)
Definition rethrow (error : jsval) : jsval :=
  match get_prop error "message" with
  | Throw typeError => typeError
  | Return _ => error
  end.

Definition makeRequest (api : t) (endpoint : string) (params : jsval)
    (endpointType : string) (tm : timing) : outcome jsval * t :=
  let '(result, rl) := attempt api endpoint params endpointType tm in
  (match result with
   | Return data => Return data
   | Throw error => Throw (rethrow error)
   end,
   with_rateLimiter api rl).

Definition getAllOnusDetails (api : t) (params : jsval) :=
  makeRequest api "/onu/get_all_onus_details" params "details".

Definition getAllOnusGpsCoordinates (api : t) (params : jsval) :=
  makeRequest api "/onu/get_all_onus_gps_coordinates" params "gps".

End ApiServiceB.

(* ================================================================== *)
(** * The aggregation service: [src/services/onuService.js] *)
(* ================================================================== *)

(** Plain objects ([{}]) used as dictionaries by the grouping and the
  statistics: own entries in enumeration order, and the members every
  plain object inherits. *)
Module Dict.
Import JS.
Local Open Scope Z_scope.

(** The property names of [Object.prototype]. *)
Definition proto_names : list string :=
  ["constructor"; "__defineGetter__"; "__defineSetter__"; "hasOwnProperty";
   "__lookupGetter__"; "__lookupSetter__"; "isPrototypeOf";
   "propertyIsEnumerable"; "toString"; "valueOf"; "__proto__"; "toLocaleString"].

(** [o[k]] finds an inherited member (a function or an object, hence
    truthy) when [o] has no own entry [k]. *)
Definition inherited (k : string) : bool := existsb (String.eqb k) proto_names.

(** The number a key stands for when it is an array index: a decimal
    numeral without leading zero, below [2^32 - 1]. *)
Definition index_of (k : string) : option Z :=
  match k with
  | EmptyString => None
  | String c r =>
      let '(n, count, rest) := take_digits k 0 0 in
      match rest with
      | EmptyString =>
          if (Ascii.eqb c "0" && negb (count =? 1)) then None
          else if n <? 2 ^ 32 - 1 then Some n else None
      | _ => None
      end
  end.

(** Whether the new key [k] is enumerated before the own key [k']:
    array indices come first, in ascending order; the other keys
    follow in the order of their creation. *)
Definition precedes (k k' : string) : bool :=
  match index_of k, index_of k' with
  | Some n, Some n' => n <? n'
  | Some _, None => true
  | None, _ => false
  end.

Section Entries.
Context {A : Type}.

Fixpoint lookup (k : string) (d : list (string * A)) : option A :=
  match d with
  | [] => None
  | (k', v) :: rest => if String.eqb k k' then Some v else lookup k rest
  end.

(** Assignment to an existing own entry keeps its place. *)
Fixpoint replace (k : string) (v : A) (d : list (string * A)) : list (string * A) :=
  match d with
  | [] => []
  | (k', v') :: rest =>
      if String.eqb k k' then (k, v) :: rest else (k', v') :: replace k v rest
  end.

(** Creation of an own entry. *)
Fixpoint create (k : string) (v : A) (d : list (string * A)) : list (string * A) :=
  match d with
  | [] => [(k, v)]
  | (k', v') :: rest =>
      if precedes k k' then (k, v) :: d else (k', v') :: create k v rest
  end.

(** [Object.values(d)] *)
Definition values (d : list (string * A)) : list A := List.map snd d.
End Entries.

End Dict.

(** A plain object ([{}]) used as a map from identities to values, with
  what it inherits: [statusMap] and [detailsMap] of the first
  revision.  They are read by key only, never enumerated. *)
Module PlainObject.
Import JS.
Local Open Scope Z_scope.

(** What [o[k]] finds: a value of the embedding, or a built-in member
    (a function of a prototype, or [Object.prototype] itself), which
    is truthy, is not a string and has no enumerable property. *)
Inductive member :=
| Value (v : jsval)
| Builtin.

(** The prototype of the object: [Object.prototype] for an object
    literal; none after [o.__proto__ = null]; the value [v], a record
    or an array, after [o.__proto__ = v]. *)
Inductive prototype :=
| ObjectPrototype
| NoPrototype
| Parent (v : jsval).

Record t := { own : list (string * jsval); proto : prototype }.

(** [{}] *)
Definition empty : t := {| own := []; proto := ObjectPrototype |}.

(** Whether the name [__proto__] reaches the accessor of
    [Object.prototype]: the object has no own entry of that name, its
    prototype chain ends in [Object.prototype], and no record on the
    way has an own field of that name (a parsed JSON text can give it
    one). *)
Definition reaches_accessor (o : t) : bool :=
  match lookup_field "__proto__" (own o), proto o with
  | Some _, _ => false
  | None, NoPrototype => false
  | None, Parent (JObj fs) =>
      match lookup_field "__proto__" fs with Some _ => false | None => true end
  | None, _ => true
  end.

(** [o[key] = value].  Through the accessor, an object or [null]
    becomes the prototype and any other value is ignored; everything
    else creates or updates an own entry. *)
Definition put (o : t) (key value : jsval) : t :=
  let k := to_string key in
  if String.eqb k "__proto__" && reaches_accessor o then
    match value with
    | JObj _ | JArr _ => {| own := own o; proto := Parent value |}
    | JNull => {| own := own o; proto := NoPrototype |}
    | _ => o
    end
  else {| own := set_field k value (own o); proto := proto o |}.

(** The property names of [Array.prototype] (ECMAScript 2023) that
    are not names of [Object.prototype] as well. *)
Definition array_names : list string :=
  ["at"; "concat"; "copyWithin"; "entries"; "every"; "fill"; "filter"; "find";
   "findIndex"; "findLast"; "findLastIndex"; "flat"; "flatMap"; "forEach";
   "includes"; "indexOf"; "join"; "keys"; "lastIndexOf"; "map"; "pop"; "push";
   "reduce"; "reduceRight"; "reverse"; "shift"; "slice"; "some"; "sort"; "splice";
   "toReversed"; "toSorted"; "toSpliced"; "unshift"; "values"; "with"].

(** What [Object.prototype] holds under [k] for the object [o]: its
    accessor [__proto__] gives the prototype of [o]. *)
Definition from_object_prototype (o : t) (k : string) : member :=
  if String.eqb k "__proto__" then
    match proto o with
    | Parent v => Value v
    | _ => Builtin
    end
  else if Dict.inherited k then Builtin
  else Value JUndefined.

(** [o[key]]: the own entry, or else what the prototype chain
    holds. *)
Definition get (o : t) (key : jsval) : member :=
  let k := to_string key in
  match lookup_field k (own o) with
  | Some v => Value v
  | None =>
      match proto o with
      | NoPrototype => Value JUndefined
      | Parent (JObj fs) =>
          match lookup_field k fs with
          | Some v => Value v
          | None => from_object_prototype o k
          end
      | Parent (JArr xs) =>
          match Dict.index_of k with
          | Some i =>
              if i <? Z.of_nat (length xs)
              then Value (nth (Z.to_nat i) xs JUndefined)
              else Value JUndefined
          | None =>
              if String.eqb k "length"
              then Value (JNum (binary_normalize prec emax (Z.of_nat (length xs)) 0 false))
              else if existsb (String.eqb k) array_names then Builtin
              else from_object_prototype o k
          end
      | _ => from_object_prototype o k
      end
  end.

End PlainObject.

(** What the two revisions of [OnuService] share. *)
Module Onu.
Import JS.

(** The injected API collaborator: what each call, once awaited,
    completes with. *)
Record api_t := {
  getAllOnusDetails : jsval -> outcome jsval;
  getOnuStatuses : jsval -> outcome jsval;
  getAllOnusGpsCoordinates : jsval -> outcome jsval;
  getOnuDetails : jsval -> outcome jsval;
  getOnuStatus : jsval -> outcome jsval;
  getOnuSignal : jsval -> outcome jsval
}.

Record history := { recentLos : list jsval; recentPowerFail : list jsval }.

Record t := {
  cache : CacheService.t;
  config : CacheService.ttl_config;   (* [config.cache.ttl] *)
  statusHistory : history
}.

(** [constructor(apiService, cacheService, config)] *)
Definition new (cacheService : CacheService.t) (ttl : CacheService.ttl_config) : t :=
  {| cache := cacheService; config := ttl;
     statusHistory := {| recentLos := []; recentPowerFail := [] |} |}.

Definition with_cache (s : t) (c : CacheService.t) : t :=
  {| cache := c; config := config s; statusHistory := statusHistory s |}.

Definition with_history (s : t) (h : history) : t :=
  {| cache := cache s; config := config s; statusHistory := h |}.

(** The instants of one query: the cache check, the return of the
    fetches, and the text of [new Date().toISOString()] then. *)
Record moments := { checked : Z; fetched : Z; iso : string }.

(** [xs.map(f)], [xs.forEach(f)] and [xs.filter(f)] on a value: a
    [TypeError] unless it is an array. *)
Definition as_array (v : jsval) : outcome (list jsval) :=
  match v with
  | JArr xs => Return xs
  | _ => Throw (Error "TypeError: not a function")
  end.

(** [xs.map(f)] for a callback with effects on a state; the first
    throw ends the iteration, its effects so far remain. *)
Fixpoint map_state {S A B : Type} (f : A -> S -> outcome B * S) (l : list A) (s : S)
  : outcome (list B) * S :=
  match l with
  | [] => (Return [], s)
  | a :: rest =>
      match f a s with
      | (Throw e, s') => (Throw e, s')
      | (Return b, s') =>
          match map_state f rest s' with
          | (Return bs, s'') => (Return (b :: bs), s'')
          | (Throw e, s'') => (Throw e, s'')
          end
      end
  end.

(** [xs.map(f)] for a callback without effects that may throw. *)
Fixpoint map_outcome {A B : Type} (f : A -> outcome B) (l : list A)
  : outcome (list B) :=
  match l with
  | [] => Return []
  | a :: rest =>
      b ← f a;
      bs ← map_outcome f rest;
      Return (b :: bs)
  end.

(** [xs.filter(f)] for a callback that may throw. *)
Fixpoint filter_outcome {A : Type} (f : A -> outcome bool) (l : list A)
  : outcome (list A) :=
  match l with
  | [] => Return []
  | a :: rest =>
      keep ← f a;
      kept ← filter_outcome f rest;
      Return (if (keep : bool) then a :: kept else kept)
  end.

(** The template literal [`prefix${JSON.stringify(filters)}`]. *)
Definition fingerprint (prefix : string) (filters : jsval) : string :=
  prefix +:+ default "undefined" (JSON_stringify filters).

(** [getStatusColor(status)] *)
Definition getStatusColor (status : string) : string :=
  if String.eqb status "Online" then "#28a745"
  else if String.eqb status "LOS" then "#dc3545"
  else if String.eqb status "Power Fail" then "#ffc107"
  else "#6c757d".

(** [log.unshift(event); if (log.length > 50) log.pop()] *)
Definition push_event (event : jsval) (log : list jsval) : list jsval :=
  let log' := event :: log in
  if (50 <? length log')%nat then removelast log' else log'.

(** [trackStatusChange(onu, newStatus, oldStatus)], at the instant
    whose ISO text is [timestamp]. *)
Definition trackStatusChange (h : history) (onu newStatus oldStatus : jsval)
    (timestamp : string) : outcome history :=
  if strict_eq newStatus oldStatus then Return h
  else
    id ← get_prop onu "unique_external_id";
    name ← get_prop onu "name";
    odb_name ← get_prop onu "odb_name";
    board ← get_prop onu "board";
    port ← get_prop onu "port";
    onu_no ← get_prop onu "onu";
    let event :=
      JObj [("unique_external_id", id);
            ("name", or_else name (JStr "Unknown"));
            ("odb_name", or_else odb_name (JStr "Unknown"));
            ("board", board);
            ("port", port);
            ("onu", onu_no);
            ("old_status", oldStatus);
            ("new_status", newStatus);
            ("timestamp", JStr timestamp)] in
    let h1 :=
      if strict_eq newStatus (JStr "LOS")
      then {| recentLos := push_event event (recentLos h);
              recentPowerFail := recentPowerFail h |}
      else h in
    let h2 :=
      if strict_eq newStatus (JStr "Power Fail")
      then {| recentLos := recentLos h1;
              recentPowerFail := push_event event (recentPowerFail h1) |}
      else h1 in
    Return h2.

(** The lines every per-device callback shares: compare with the
    cached status of the device, track a change, cache the new status. *)
Definition remember_status (onu : jsval) (status : string) (m : moments) (s : t)
  : outcome unit * t :=
  match get_prop onu "unique_external_id" with
  | Throw e => (Throw e, s)
  | Return id =>
      let oldStatusKey := "status_" +:+ to_string id in
      let '(oldStatus, c1) := CacheService.get (cache s) oldStatusKey (fetched m) in
      let s1 := with_cache s c1 in
      let tracked :=
        if truthy oldStatus && negb (strict_eq oldStatus (JStr status))
        then trackStatusChange (statusHistory s1) onu (JStr status) oldStatus (iso m)
        else Return (statusHistory s1) in
      match tracked with
      | Throw e => (Throw e, s1)
      | Return h =>
          let c2 := snd (CacheService.set c1 oldStatusKey (JStr status)
                           (Some (CacheService.onuStatus (config s))) (fetched m)) in
          (Return tt, with_history (with_cache s c2) h)
      end
  end.

(** [getStatusHistory()] *)
Definition getStatusHistory (s : t) : jsval :=
  JObj [("recent_los", JArr (firstn 20 (recentLos (statusHistory s))));
        ("recent_power_fail", JArr (firstn 20 (recentPowerFail (statusHistory s))))].

End Onu.

(** The grouping of [getOnusByOdb], which the two revisions share up to
  the name given to the devices without an ODB. *)
Module OdbGroups.
Import JS Onu.

(** A group under construction: the name it was created with and its
    members in the order they were pushed. *)
Record group := { odb_name : jsval; onus : list jsval }.

(** The callback of [onus.forEach].  [fallback] is the name of the
    devices without an [odb_name].  A name that [odbGroups] inherits
    is found although no group was created for it, and what is found
    has no [onus] to push to. *)
Definition add_onu (fallback : string) (odbGroups : list (string * group)) (onu : jsval)
  : outcome (list (string * group)) :=
  name ← get_prop onu "odb_name";
  let odbName := or_else name (JStr fallback) in
  let key := to_string odbName in
  match Dict.lookup key odbGroups with
  | Some g =>
      Return (Dict.replace key
                {| odb_name := odb_name g; onus := onus g ++ [onu] |} odbGroups)
  | None =>
      if Dict.inherited key
      then Throw (Error "TypeError: Cannot read properties of undefined (reading 'push')")
      else Return (Dict.create key {| odb_name := odbName; onus := [onu] |} odbGroups)
  end.

(** [onus.forEach(...)] from the empty [odbGroups]; the first throw
    ends the iteration. *)
Definition group_onus (fallback : string) (items : list jsval)
  : outcome (list (string * group)) :=
  fold_left (fun acc onu => odbGroups ← acc; add_onu fallback odbGroups onu)
    items (Return []).

End OdbGroups.

(** [src/services/onuService.js]: statuses come from the status
  endpoint, coordinates from the GPS endpoint. *)
Module OnuService.
Import JS Onu.

(** [determineOnuStatus(statusString, lastDownCause = null)] *)
Definition determineOnuStatus (statusString lastDownCause : jsval) : outcome string :=
  if negb (truthy statusString) then Return "Offline"
  else
    match statusString with
    | JStr s =>
        let status := toLowerCase s in
        if String.eqb status "online" then Return "Online"
        else if String.eqb status "los" || includes status "los" then Return "LOS"
        else if String.eqb status "power fail" || includes status "power"
        then Return "Power Fail"
        else if String.eqb status "offline" then Return "Offline"
        else if truthy lastDownCause then
          match lastDownCause with
          | JStr c =>
              let cause := toLowerCase c in
              if includes cause "los" || includes cause "signal" then Return "LOS"
              else if includes cause "power" || includes cause "dying-gasp"
              then Return "Power Fail"
              else Return "Offline"
          | _ => Throw (Error "TypeError: lastDownCause.toLowerCase is not a function")
          end
        else Return "Offline"
    | _ => Throw (Error "TypeError: statusString.toLowerCase is not a function")
    end.

(** The status map built from the response of the status endpoint. *)
Definition status_map (statusResponse : jsval) : outcome PlainObject.t :=
  ok ← get_prop statusResponse "status";
  response ← get_prop statusResponse "response";
  if truthy ok && truthy response then
    items ← as_array response;
    fold_left
      (fun acc item =>
         statusMap ← acc;
         id ← get_prop item "unique_external_id";
         onu_status ← get_prop item "onu_status";
         Return (PlainObject.put statusMap id onu_status))
      items (Return PlainObject.empty)
  else Return PlainObject.empty.

(** [rawStatus = statusMap[id]] and
    [status = this.determineOnuStatus(rawStatus)], which nothing
    separates in either listing.  A built-in member found under [id]
    is truthy and has no [toLowerCase]. *)
Definition status_of (statusMap : PlainObject.t) (id : jsval)
  : outcome (jsval * string) :=
  match PlainObject.get statusMap id with
  | PlainObject.Value rawStatus =>
      status ← determineOnuStatus rawStatus JNull;
      Return (rawStatus, status)
  | PlainObject.Builtin =>
      Throw (Error "TypeError: statusString.toLowerCase is not a function")
  end.

(** The callback of [onus.map] in [getAllOnusWithDetails]. *)
Definition process_onu (statusMap : PlainObject.t) (m : moments)
    (onu : jsval) (s : t) : outcome jsval * t :=
  match
    (id ← get_prop onu "unique_external_id";
     status_of statusMap id)
  with
  | Throw e => (Throw e, s)
  | Return (rawStatus, status) =>
      let color := getStatusColor status in
      match remember_status onu status m s with
      | (Throw e, s') => (Throw e, s')
      | (Return _, s') =>
          (Return (JObj (set_fields [("status", JStr status);
                                     ("status_color", JStr color);
                                     ("raw_status", rawStatus)] (spread onu))),
           s')
      end
  end.

Definition getAllOnusWithDetails (api : api_t) (s : t) (filters : jsval) (m : moments)
  : outcome jsval * t :=
  let cacheKey := fingerprint "all_onus_" filters in
  let '(cached, c) := CacheService.get (cache s) cacheKey (checked m) in
  let s := with_cache s c in
  if truthy cached then (Return cached, s)
  else
    match
      (detailsResponse ← getAllOnusDetails api filters;
       ok ← get_prop detailsResponse "status";
       response ← get_prop detailsResponse "response";
       if negb (truthy ok) || negb (truthy response)
       then Throw (Error "Invalid response from get_all_onus_details")
       else
         statusResponse ← getOnuStatuses api filters;
         statusMap ← status_map statusResponse;
         onus ← as_array response;
         Return (statusMap, onus))
    with
    | Throw e => (Throw e, s)
    | Return (statusMap, onus) =>
        match map_state (process_onu statusMap m) onus s with
        | (Throw e, s') => (Throw e, s')
        | (Return processedOnus, s') =>
            let c' := snd (CacheService.set (cache s') cacheKey (JArr processedOnus)
                             (Some (CacheService.onuDetails (config s'))) (fetched m)) in
            (Return (JArr processedOnus), with_cache s' c')
        end
    end.

(** The map from device identity to detail record. *)
Definition details_map (detailsResponse : jsval) : outcome PlainObject.t :=
  ok ← get_prop detailsResponse "status";
  response ← get_prop detailsResponse "response";
  if truthy ok && truthy response then
    items ← as_array response;
    fold_left
      (fun acc onu =>
         detailsMap ← acc;
         id ← get_prop onu "unique_external_id";
         Return (PlainObject.put detailsMap id onu))
      items (Return PlainObject.empty)
  else Return PlainObject.empty.

(** [detailsMap[id] || {}], as far as the spreading of it goes: a
    built-in member is kept, being truthy, and spreads to nothing. *)
Definition details_of (detailsMap : PlainObject.t) (id : jsval) : jsval :=
  match PlainObject.get detailsMap id with
  | PlainObject.Value v => or_else v (JObj [])
  | PlainObject.Builtin => JObj []
  end.

(** The callback of [gpsOnus.map] in [getOnusWithGps]. *)
Definition combine (detailsMap statusMap : PlainObject.t) (gpsOnu : jsval)
  : outcome jsval :=
  id ← get_prop gpsOnu "unique_external_id";
  let details := details_of detailsMap id in
  '(rawStatus, status) ← status_of statusMap id;
  let color := getStatusColor status in
  latitude ← get_prop gpsOnu "latitude";
  longitude ← get_prop gpsOnu "longitude";
  Return (JObj (set_fields (spread details)
                  [("unique_external_id", id);
                   ("latitude", JNum (parseFloat latitude));
                   ("longitude", JNum (parseFloat longitude));
                   ("status", JStr status);
                   ("status_color", JStr color);
                   ("raw_status", rawStatus)])).

Definition getOnusWithGps (api : api_t) (s : t) (filters : jsval) (m : moments)
  : outcome jsval * t :=
  let cacheKey := fingerprint "onus_gps_" filters in
  let '(cached, c) := CacheService.get (cache s) cacheKey (checked m) in
  let s := with_cache s c in
  if truthy cached then (Return cached, s)
  else
    match
      (gpsResponse ← getAllOnusGpsCoordinates api filters;
       ok ← get_prop gpsResponse "status";
       gpsOnus ← get_prop gpsResponse "onus";
       if negb (truthy ok) || negb (truthy gpsOnus)
       then Throw (Error "Invalid response from get_all_onus_gps_coordinates")
       else
         detailsResponse ← getAllOnusDetails api filters;
         detailsMap ← details_map detailsResponse;
         statusResponse ← getOnuStatuses api filters;
         statusMap ← status_map statusResponse;
         onus ← as_array gpsOnus;
         map_outcome (combine detailsMap statusMap) onus)
    with
    | Throw e => (Throw e, s)
    | Return result =>
        let c' := snd (CacheService.set (cache s) cacheKey (JArr result)
                         (Some (CacheService.gps (config s))) (fetched m)) in
        (Return (JArr result), with_cache s c')
    end.

(** [Promise.all] of three started calls: fulfilled with the three
    results, rejected as soon as one of them is (here: the first
    rejected one in the order of the array). *)
Definition all3 (a b c : outcome jsval) : outcome (jsval * jsval * jsval) :=
  x ← a; y ← b; z ← c; Return (x, y, z).

Definition getOnuById (api : api_t) (s : t) (externalId : jsval) (m : moments)
  : outcome jsval * t :=
  let cacheKey := "onu_detail_" +:+ to_string externalId in
  let '(cached, c) := CacheService.get (cache s) cacheKey (checked m) in
  let s := with_cache s c in
  if truthy cached then (Return cached, s)
  else
    match
      ('(detailsResponse, statusResponse, signalResponse) ←
         all3 (getOnuDetails api externalId)
              (getOnuStatus api externalId)
              (getOnuSignal api externalId);
       ok ← get_prop detailsResponse "status";
       if negb (truthy ok) then Throw (Error "Failed to get ONU details")
       else
         status_ok ← get_prop statusResponse "status";
         rawStatus ← (if truthy status_ok
                      then get_prop statusResponse "onu_status"
                      else Return JNull);
         status ← determineOnuStatus rawStatus JNull;
         let color := getStatusColor status in
         onu_details ← get_prop detailsResponse "onu_details";
         signal_ok ← get_prop signalResponse "status";
         Return (JObj (set_fields
                         [("status", JStr status);
                          ("status_color", JStr color);
                          ("raw_status", rawStatus);
                          ("signal", if truthy signal_ok then signalResponse else JNull)]
                         (spread onu_details))))
    with
    | Throw e => (Throw e, s)
    | Return result =>
        let c' := snd (CacheService.set (cache s) cacheKey result
                         (Some (CacheService.onuStatus (config s))) (fetched m)) in
        (Return result, with_cache s c')
    end.

(** [{ odb_name: odbName, onus: [...], odb_coordinates: null }] *)
Definition group_object (g : OdbGroups.group) : jsval :=
  JObj [("odb_name", OdbGroups.odb_name g);
        ("onus", JArr (OdbGroups.onus g));
        ("odb_coordinates", JNull)].

Definition getOnusByOdb (api : api_t) (s : t) (filters : jsval) (m : moments)
  : outcome jsval * t :=
  match getOnusWithGps api s filters m with
  | (Throw e, s') => (Throw e, s')
  | (Return onus, s') =>
      (items ← as_array onus;
       odbGroups ← OdbGroups.group_onus "Unknown" items;
       Return (JArr (List.map group_object (Dict.values odbGroups))),
       s')
  end.

End OnuService.

(** The counters of [getStatistics]. *)
Module Tally.
(** [{ total, online, offline }], one per OLT, zone and ODB. *)
Record t := { total : Z; online : Z; offline : Z }.
End Tally.

Module Statistics.
Record t := {
  total : Z;
  online : Z;
  los : Z;
  power_fail : Z;
  offline : Z;
  with_gps : Z;
  without_gps : Z;
  by_olt : list (string * Tally.t);
  by_zone : list (string * Tally.t);
  by_odb : list (string * Tally.t)
}.
End Statistics.

(** The revision of the same class that takes statuses and coordinates
  from the details endpoint and filters by location itself. *)
Module OnuServiceB.
Import JS Onu.

(** [determineOnuStatus(statusString)] *)
Definition determineOnuStatus (statusString : jsval) : outcome string :=
  if negb (truthy statusString) then Return "Offline"
  else
    match statusString with
    | JStr s =>
        let status := trim (toLowerCase s) in
        if String.eqb status "online" then Return "Online"
        else if String.eqb status "los" || includes status "los" then Return "LOS"
        else if String.eqb status "power fail" || includes status "power"
        then Return "Power Fail"
        else if String.eqb status "offline" then Return "Offline"
        else Return "Offline"
    | _ => Throw (Error "TypeError: statusString.toLowerCase is not a function")
    end.

(** [v ? parseFloat(v) : null]; [None] is [null]. *)
Definition coordinate (v : jsval) : option spec_float :=
  if truthy v then Some (parseFloat v) else None.

Definition coordinate_value (v : jsval) : jsval :=
  match coordinate v with Some x => JNum x | None => JNull end.

(** The callback of [onus.map] in [getAllOnusWithDetails]. *)
Definition process_onu (m : moments) (onu : jsval) (s : t) : outcome jsval * t :=
  match
    (rawStatus ← get_prop onu "status";
     status ← determineOnuStatus rawStatus;
     Return (rawStatus, status))
  with
  | Throw e => (Throw e, s)
  | Return (rawStatus, status) =>
      let color := getStatusColor status in
      match remember_status onu status m s with
      | (Throw e, s') => (Throw e, s')
      | (Return _, s') =>
          (Return (JObj (set_fields
                           [("status", JStr status);
                            ("status_color", JStr color);
                            ("raw_status", rawStatus);
                            ("latitude",
                             coordinate_value (get_prop_opt onu "latitude"));
                            ("longitude",
                             coordinate_value (get_prop_opt onu "longitude"))]
                           (spread onu))),
           s')
      end
  end.

Definition getAllOnusWithDetails (api : api_t) (s : t) (filters : jsval) (m : moments)
  : outcome jsval * t :=
  let cacheKey := fingerprint "all_onus_" filters in
  let '(cached, c) := CacheService.get (cache s) cacheKey (checked m) in
  let s := with_cache s c in
  if truthy cached then (Return cached, s)
  else
    match
      (detailsResponse ← getAllOnusDetails api filters;
       ok ← get_prop detailsResponse "status";
       onus ← get_prop detailsResponse "onus";
       if negb (truthy ok) || negb (truthy onus)
       then Throw (Error "Invalid response from get_all_onus_details")
       else as_array onus)
    with
    | Throw e => (Throw e, s)
    | Return onus =>
        match map_state (process_onu m) onus s with
        | (Throw e, s') => (Throw e, s')
        | (Return processedOnus, s') =>
            let c' := snd (CacheService.set (cache s') cacheKey (JArr processedOnus)
                             (Some (CacheService.onuDetails (config s'))) (fetched m)) in
            (Return (JArr processedOnus), with_cache s' c')
        end
    end.

(** The callback of [onus.filter] in [getOnusWithGps]:
    [lat && lng && !isNaN(lat) && !isNaN(lng) && lat !== 0 && lng !== 0],
    where [lat] and [lng] are numbers or [null]. *)
Definition has_gps (onu : jsval) : outcome bool :=
  latitude ← get_prop onu "latitude";
  longitude ← get_prop onu "longitude";
  Return
    match coordinate latitude, coordinate longitude with
    | Some lat, Some lng =>
        truthy (JNum lat) && truthy (JNum lng) &&
        negb (is_nan lat) && negb (is_nan lng) &&
        negb (num_eq lat (S754_zero false)) && negb (num_eq lng (S754_zero false))
    | _, _ => false
    end.

(** The callback of [.map] in [getOnusWithGps]. *)
Definition locate_onu (m : moments) (onu : jsval) (s : t) : outcome jsval * t :=
  match
    (rawStatus ← get_prop onu "status";
     status ← determineOnuStatus rawStatus;
     Return (rawStatus, status))
  with
  | Throw e => (Throw e, s)
  | Return (rawStatus, status) =>
      let color := getStatusColor status in
      match remember_status onu status m s with
      | (Throw e, s') => (Throw e, s')
      | (Return _, s') =>
          (Return (JObj (set_fields
                           [("status", JStr status);
                            ("status_color", JStr color);
                            ("raw_status", rawStatus);
                            ("latitude",
                             JNum (parseFloat (get_prop_opt onu "latitude")));
                            ("longitude",
                             JNum (parseFloat (get_prop_opt onu "longitude")))]
                           (spread onu))),
           s')
      end
  end.

Definition getOnusWithGps (api : api_t) (s : t) (filters : jsval) (m : moments)
  : outcome jsval * t :=
  let cacheKey := fingerprint "onus_gps_" filters in
  let '(cached, c) := CacheService.get (cache s) cacheKey (checked m) in
  let s := with_cache s c in
  if truthy cached then (Return cached, s)
  else
    match
      (detailsResponse ← getAllOnusDetails api filters;
       ok ← get_prop detailsResponse "status";
       onus ← get_prop detailsResponse "onus";
       if negb (truthy ok) || negb (truthy onus)
       then Throw (Error "Invalid response from get_all_onus_details")
       else
         all ← as_array onus;
         filter_outcome has_gps all)
    with
    | Throw e => (Throw e, s)
    | Return located =>
        match map_state (locate_onu m) located s with
        | (Throw e, s') => (Throw e, s')
        | (Return onusWithGps, s') =>
            let c' := snd (CacheService.set (cache s') cacheKey (JArr onusWithGps)
                             (Some (CacheService.gps (config s'))) (fetched m)) in
            (Return (JArr onusWithGps), with_cache s' c')
        end
    end.

(** [p.catch(() => ({ status: false }))] *)
Definition catch_status_false (p : outcome jsval) : outcome jsval :=
  match p with
  | Return r => Return r
  | Throw _ => Return (JObj [("status", JBool false)])
  end.

(** [Promise.all] of two started calls. *)
Definition all2 (a b : outcome jsval) : outcome (jsval * jsval) :=
  x ← a; y ← b; Return (x, y).

Definition getOnuById (api : api_t) (s : t) (externalId : jsval) (m : moments)
  : outcome jsval * t :=
  let cacheKey := "onu_detail_" +:+ to_string externalId in
  let '(cached, c) := CacheService.get (cache s) cacheKey (checked m) in
  let s := with_cache s c in
  if truthy cached then (Return cached, s)
  else
    match
      ('(detailsResponse, signalResponse) ←
         all2 (getOnuDetails api externalId)
              (catch_status_false (getOnuSignal api externalId));
       ok ← get_prop detailsResponse "status";
       if negb (truthy ok) then Throw (Error "Failed to get ONU details")
       else
         onu ← get_prop detailsResponse "onu_details";
         rawStatus ← get_prop onu "status";
         status ← determineOnuStatus rawStatus;
         let color := getStatusColor status in
         signal_ok ← get_prop signalResponse "status";
         Return (JObj (set_fields
                         [("status", JStr status);
                          ("status_color", JStr color);
                          ("raw_status", rawStatus);
                          ("signal", if truthy signal_ok then signalResponse else JNull)]
                         (spread onu))))
    with
    | Throw e => (Throw e, s)
    | Return result =>
        let c' := snd (CacheService.set (cache s) cacheKey result
                         (Some (CacheService.onuStatus (config s))) (fetched m)) in
        (Return result, with_cache s c')
    end.

(** [{ odb_name: odbName, onus: [...] }] *)
Definition group_object (g : OdbGroups.group) : jsval :=
  JObj [("odb_name", OdbGroups.odb_name g); ("onus", JArr (OdbGroups.onus g))].

Definition getOnusByOdb (api : api_t) (s : t) (filters : jsval) (m : moments)
  : outcome jsval * t :=
  match getOnusWithGps api s filters m with
  | (Throw e, s') => (Throw e, s')
  | (Return onus, s') =>
      (items ← as_array onus;
       odbGroups ← OdbGroups.group_onus "Unknown ODB" items;
       Return (JArr (List.map group_object (Dict.values odbGroups))),
       s')
  end.

(** ** [getStatistics] *)

Local Open Scope Z_scope.









End OnuServiceB.

(* ================================================================== *)
(** * The route handlers: how filter objects are built *)
(* ================================================================== *)

Module Routes.
Import JS.

(** [{ k1: req.query.k1, ... }] followed by the removal of the keys
    whose value is [undefined]. *)
Definition filters_of (keys : list string) (query : jsval) : jsval :=
  JObj (List.filter
          (fun kv => negb (strict_eq (snd kv) JUndefined))
          (List.map (fun k => (k, get_prop_opt query k)) keys)).

(** [GET /onus] *)
Definition onus_filters : jsval -> jsval :=
  filters_of ["olt_id"; "board"; "port"; "zone"; "odb"].

(** [GET /onus/gps], [/onus/by-odb] and [/statistics] *)
Definition gps_filters : jsval -> jsval :=
  filters_of ["olt_id"; "board"; "port"; "zone"].

End Routes.

(* ================================================================== *)
(** * Vocabulary of the statements *)
(* ================================================================== *)

Module Scenario.
Import JS.
Local Open Scope Z_scope.

(** [recordCall] invoked once at each instant of [ts], in order. *)
Definition recordCalls (rl : RateLimiter.t) (endpointType : string) (ts : list Z)
  : RateLimiter.t :=
  fold_left (fun rl now => RateLimiter.recordCall rl endpointType now) ts rl.

(** A raw status as the status classification receives it: a string,
    [null], or nothing at all. *)
Inductive raw_status :=
| RawString (s : string)
| RawNull
| RawAbsent.

Definition raw (r : raw_status) : jsval :=
  match r with
  | RawString s => JStr s
  | RawNull => JNull
  | RawAbsent => JUndefined
  end.

(** The four values of the status enumeration. *)
Definition statuses : list string := ["Online"; "LOS"; "Power Fail"; "Offline"].

(** What one request may do to the timestamp list of its class:
    [before] and [after] are the list before and after the request,
    [kept] what the quota check leaves of [before].  When the request
    is refused ([refused]) or the HTTP call throws, nothing is added;
    when the HTTP call returns in a request that was let through,
    exactly one instant is added after the kept ones. *)
Definition records_answered_calls (before kept after : list Z)
    (refused : bool) (http : outcome jsval) : Prop :=
  (refused = true -> sublist after before) /\
  (forall e, http = Throw e -> sublist after before) /\
  (forall response, http = Return response -> refused = false ->
     exists done, after = kept ++ [done]).

(** The histories the service can be in: the empty one of a new
    service, and whatever [trackStatusChange] makes of a reachable
    one. *)
Inductive reachable : Onu.history -> Prop :=
| reachable_new :
    reachable {| Onu.recentLos := []; Onu.recentPowerFail := [] |}
| reachable_track h onu newStatus oldStatus timestamp h' :
    reachable h ->
    Onu.trackStatusChange h onu newStatus oldStatus timestamp = Return h' ->
    reachable h'.

(** ** The cache *)

Definition content (cs : CacheService.t) : gmap string NodeCache.entry :=
  NodeCache.data (CacheService.cache cs).

(** The entry [set] stores for a non-zero [ttl] at [now]. *)
Definition stored (value : jsval) (ttl now : Z) : NodeCache.entry :=
  {| NodeCache.v := value; NodeCache.t := now + ttl * 1000 |}.

(** None of the operations is a read, write or removal of [k]. *)
Definition untouched (k : string) (ops : list (Z * CacheService.op)) : Prop :=
  Forall (fun o => CacheService.touches (snd o) k = false) ops.

(** Two caches that differ at most by the entry [e] of [k], which the
    second one does not have. *)
Definition alike (k : string) (e : NodeCache.entry) (a b : CacheService.t) : Prop :=
  CacheService.config a = CacheService.config b /\
  NodeCache.stdTTL (CacheService.cache a) = NodeCache.stdTTL (CacheService.cache b) /\
  content b !! k = None /\
  (content a = content b \/ content a = <[k := e]> (content b)).

(** A new cache with the default time-to-live values. *)
Definition demo_cache : CacheService.t :=
  CacheService.new {| CacheService.onuDetails := 3600;
                      CacheService.onuStatus := 60;
                      CacheService.gps := 3600 |}.

(** ** Status transitions *)

Definition bounded (h : Onu.history) : Prop :=
  (length (Onu.recentLos h) <= 50)%nat /\ (length (Onu.recentPowerFail h) <= 50)%nat.

(** The event [trackStatusChange] builds for a device record. *)
Definition event_of (fields : list (string * jsval)) (newStatus oldStatus : jsval)
    (timestamp : string) : jsval :=
  let field k := default JUndefined (lookup_field k fields) in
  JObj [("unique_external_id", field "unique_external_id");
        ("name", or_else (field "name") (JStr "Unknown"));
        ("odb_name", or_else (field "odb_name") (JStr "Unknown"));
        ("board", field "board");
        ("port", field "port");
        ("onu", field "onu");
        ("old_status", oldStatus);
        ("new_status", newStatus);
        ("timestamp", JStr timestamp)].

(** [n] changes to LOS of one device in a row, numbered from [n]
    down to 1 in their time stamp. *)
Fixpoint los_changes (n : nat) (h : Onu.history) : Onu.history :=
  match n with
  | O => h
  | S n' =>
      let h' := los_changes n' h in
      match Onu.trackStatusChange h'
              (JObj [("unique_external_id", JStr "test1"); ("name", JStr "Test ONU")])
              (JStr "LOS") (JStr "Online") (pretty (Z.of_nat n)) with
      | Return h'' => h''
      | Throw _ => h'
      end
  end.

(** ** Filters *)

(** The two objects hold the same value under every key. *)
Definition same_pairs (f g : jsval) : Prop :=
  forall k, get_prop_opt f k = get_prop_opt g k.

Definition query_a : jsval := JObj [("olt_id", JStr "1"); ("zone", JStr "A")].
Definition query_b : jsval := JObj [("zone", JStr "A"); ("olt_id", JStr "1")].

(** ** Devices and upstream answers *)

Definition demo_service : Onu.t :=
  Onu.new demo_cache (CacheService.config demo_cache).

Definition demo_moments : Onu.moments :=
  {| Onu.checked := 1000; Onu.fetched := 9000;
     Onu.iso := "1970-01-01T00:00:09.000Z" |}.

Definition demo_timing : Request.timing :=
  {| Request.entered := 1000; Request.timer_late := 0; Request.latency := 200 |}.

Definition demo_limits : RateLimiter.config :=
  {| RateLimiter.cfg_apiDelay := 8000;
     RateLimiter.cfg_gpsLimit := 3;
     RateLimiter.cfg_detailsLimit := 3 |}.

(** [{ status: true, <field>: value }] *)
Definition ok_response (field : string) (value : jsval) : jsval :=
  JObj [("status", JBool true); (field, value)].

Definition device (id : string) (latitude longitude : jsval) : jsval :=
  JObj [("unique_external_id", JStr id);
        ("latitude", latitude);
        ("longitude", longitude);
        ("status", JStr "Online")].

(** A method of the collaborator that the scenario does not call. *)
Definition unreachable : outcome jsval := Throw (Error "not called").

(** The collaborator of the first revision: the GPS endpoint lists
    [devices]; the details and the status endpoint list nothing. *)
Definition gps_api (devices : list jsval) : Onu.api_t :=
  {| Onu.getAllOnusDetails := fun _ => Return (ok_response "response" (JArr []));
     Onu.getOnuStatuses := fun _ => Return (ok_response "response" (JArr []));
     Onu.getAllOnusGpsCoordinates := fun _ => Return (ok_response "onus" (JArr devices));
     Onu.getOnuDetails := fun _ => unreachable;
     Onu.getOnuStatus := fun _ => unreachable;
     Onu.getOnuSignal := fun _ => unreachable |}.

(** The collaborator of the second revision: the details endpoint
    lists [devices]. *)
Definition details_api (devices : list jsval) : Onu.api_t :=
  {| Onu.getAllOnusDetails := fun _ => Return (ok_response "onus" (JArr devices));
     Onu.getOnuStatuses := fun _ => unreachable;
     Onu.getAllOnusGpsCoordinates := fun _ => unreachable;
     Onu.getOnuDetails := fun _ => unreachable;
     Onu.getOnuStatus := fun _ => unreachable;
     Onu.getOnuSignal := fun _ => unreachable |}.

Definition four_devices : list jsval :=
  [device "onu1" (JStr "0") (JStr "0");
   device "onu2" (JStr "abc") (JStr "12");
   device "onu3" (JStr "-7.1") JUndefined;
   device "onu4" (JStr "-7.1") (JStr "110.8")].

(** The identities of the records of a listing. *)
Definition ids_of (listing : outcome jsval) : list jsval :=
  match listing with
  | Return (JArr records) =>
      List.map (fun r => get_prop_opt r "unique_external_id") records
  | _ => []
  end.

(** A coordinate that is present, numeric and not zero. *)
Definition usable (v : jsval) : bool :=
  truthy v && negb (is_nan (parseFloat v)) && negb (is_zero (parseFloat v)).

Definition located (onu : jsval) : bool :=
  usable (get_prop_opt onu "latitude") && usable (get_prop_opt onu "longitude").

(** A device record whose status, if any, is a string. *)
Definition well_formed_device (onu : jsval) : Prop :=
  exists fields r, onu = JObj fields /\ get_prop_opt onu "status" = raw r.

(** An upstream that knows the device [onu1] and its status, and
    answers the signal request with a failure envelope. *)
Definition signal_down_client : Request.client :=
  fun endpoint _ =>
    if String.eqb endpoint "/onu/get_onu_details/onu1" then
      Return (JObj [("data", ok_response "onu_details"
                               (JObj [("unique_external_id", JStr "onu1");
                                      ("name", JStr "Test");
                                      ("status", JStr "Online")]))])
    else if String.eqb endpoint "/onu/get_onu_status/onu1" then
      Return (JObj [("data", ok_response "onu_status" (JStr "Online"))])
    else
      Return (JObj [("data", JObj [("status", JBool false);
                                   ("error", JStr "ONU signal not available")])]).

Definition signal_down_service : ApiService.t :=
  {| ApiService.baseUrl := "https://example.smartolt.com/api";
     ApiService.apiKey := Some "test-key";
     ApiService.client_get := signal_down_client;
     ApiService.rateLimiter := RateLimiter.new demo_limits |}.

(** The three single-device methods of an [ApiService] as the
    collaborator of the aggregation service; none of them is of a
    restricted class, so their outcome does not depend on the state of
    the call gate. *)
Definition device_api (svc : ApiService.t) (tm : Request.timing) : Onu.api_t :=
  {| Onu.getAllOnusDetails := fun _ => unreachable;
     Onu.getOnuStatuses := fun _ => unreachable;
     Onu.getAllOnusGpsCoordinates := fun _ => unreachable;
     Onu.getOnuDetails := fun id => fst (ApiService.getOnuDetails svc id tm);
     Onu.getOnuStatus := fun id => fst (ApiService.getOnuStatus svc id tm);
     Onu.getOnuSignal := fun id => fst (ApiService.getOnuSignal svc id tm) |}.

(** An upstream whose HTTP call always fails, and one that always
    answers with a failure envelope. *)
Definition failing_client : Request.client :=
  fun _ _ => Throw (Error "timeout of 30000ms exceeded").

Definition refusing_client : Request.client :=
  fun _ _ => Return (JObj [("data", JObj [("status", JBool false);
                                          ("error", JStr "Test error")])]).

Definition service_over (client : Request.client) : ApiService.t :=
  {| ApiService.baseUrl := "https://example.smartolt.com/api";
     ApiService.apiKey := Some "test-key";
     ApiService.client_get := client;
     ApiService.rateLimiter := RateLimiter.new demo_limits |}.

(** The same for the second revision, and a client whose promise is
    rejected with [null]. *)
Definition service_b_over (client : Request.client) : ApiServiceB.t :=
  {| ApiServiceB.baseUrl := "https://example.smartolt.com/api";
     ApiServiceB.apiKey := Some "test-key";
     ApiServiceB.client_get := client;
     ApiServiceB.rateLimiter := RateLimiter.new demo_limits |}.

Definition null_client : Request.client := fun _ _ => Throw JNull.

(** ** Requests one after the other *)

(** One request to an [ApiService]: what is asked, when, and what
    the HTTP exchange completes with if the request gets that far. *)
Record request := {
  endpoint : string;
  params : jsval;
  endpointType : string;
  answer : outcome jsval;
  at_time : Request.timing
}.

(** The service in front of an upstream that completes the next HTTP
    exchange with [response]. *)
Definition answering (api : ApiService.t) (response : outcome jsval) : ApiService.t :=
  {| ApiService.baseUrl := ApiService.baseUrl api;
     ApiService.apiKey := ApiService.apiKey api;
     ApiService.client_get := fun _ _ => response;
     ApiService.rateLimiter := ApiService.rateLimiter api |}.

(** The requests of [rs] made in turn, each awaited before the next
    one is made. *)
Definition serve (api : ApiService.t) (rs : list request) : ApiService.t :=
  fold_left
    (fun api r =>
       snd (ApiService.makeRequest (answering api (answer r))
              (endpoint r) (params r) (endpointType r) (at_time r)))
    rs api.

(** [v == null] *)
Definition nullish (v : jsval) : bool :=
  match v with JUndefined | JNull => true | _ => false end.

(** ** Listings *)

(** What the per-device callback of [getAllOnusWithDetails] in the
    second revision makes of a device: the record carries the
    classified status, its colour, the status of the upstream as
    [raw_status] and the coordinates as numbers, and agrees with the
    device on every other field. *)
Definition processed (device record : jsval) : Prop :=
  exists status,
    OnuServiceB.determineOnuStatus (get_prop_opt device "status") = Return status /\
    In status statuses /\
    get_prop_opt record "status" = JStr status /\
    get_prop_opt record "status_color" = JStr (Onu.getStatusColor status) /\
    get_prop_opt record "raw_status" = get_prop_opt device "status" /\
    get_prop_opt record "latitude"
      = OnuServiceB.coordinate_value (get_prop_opt device "latitude") /\
    get_prop_opt record "longitude"
      = OnuServiceB.coordinate_value (get_prop_opt device "longitude") /\
    forall k,
      ~ In k ["status"; "status_color"; "raw_status"; "latitude"; "longitude"]%string ->
      get_prop_opt record k = get_prop_opt device k.

(** ** Groups *)

(** The name under which [getOnusByOdb] files a device, and the
    property key that name makes. *)
Definition odb_name_of (fallback : string) (onu : jsval) : jsval :=
  or_else (get_prop_opt onu "odb_name") (JStr fallback).

Definition odb_key (fallback : string) (onu : jsval) : string :=
  to_string (odb_name_of fallback onu).

(** The devices of [items] filed under [key], in the order of
    [items]. *)
Definition filed_under (fallback key : string) (items : list jsval) : list jsval :=
  List.filter (fun onu => String.eqb (odb_key fallback onu) key) items.

Definition group_key (g : OdbGroups.group) : string := to_string (OdbGroups.odb_name g).


(** What holds of [odbGroups] once the devices of [seen] are filed. *)
Record filed (fallback : string) (seen : list jsval)
    (d : list (string * OdbGroups.group)) : Prop := {
  filed_keys : List.NoDup (List.map fst d);
  filed_groups :
    forall k g, In (k, g) d ->
      k = group_key g /\
      Dict.inherited k = false /\
      OdbGroups.onus g = filed_under fallback k seen /\
      exists first rest,
        OdbGroups.onus g = first :: rest /\
        OdbGroups.odb_name g = odb_name_of fallback first;
  filed_items : forall onu, In onu seen -> In (odb_key fallback onu) (List.map fst d);
  filed_members :
    Permutation (List.concat (List.map (fun kg => OdbGroups.onus (snd kg)) d)) seen
}.

(** What [forEach] throws when it reaches a device filed under a name
    that every object inherits. *)
Definition no_group_error : jsval :=
  Error "TypeError: Cannot read properties of undefined (reading 'push')".

(** A located device of the ODB [odb]. *)
Definition device_at (id : string) (odb : jsval) : jsval :=
  JObj [("unique_external_id", JStr id);
        ("odb_name", odb);
        ("latitude", JStr "-7.1");
        ("longitude", JStr "110.8");
        ("status", JStr "Online")].


Definition constructor_devices : list jsval :=
  [device_at "onu1" (JStr "ODB-1"); device_at "onu2" (JStr "constructor")].

(** ** Statistics *)

(** The number of devices of [items] that satisfy [p]. *)
Definition count_of (p : jsval -> bool) (items : list jsval) : Z :=
  Z.of_nat (length (List.filter p items)).








(** ** Order *)







(** ** Invocations one after the other *)

(** [waitForNextCall] invoked once per item of [calls], each
    invocation awaited before the next one is made: an invocation is
    entered at the first component, its timer lags by the second.  The
    completion instants, in order. *)
Fixpoint waits_in_turn (rl : RateLimiter.t) (calls : list (Z * Z)) : list Z :=
  match calls with
  | [] => []
  | (now, late) :: rest =>
      snd (RateLimiter.waitForNextCall rl now late)
      :: waits_in_turn (fst (RateLimiter.waitForNextCall rl now late)) rest
  end.

(** ** Located records *)


(** The [signal] of a device record: the answer to the signal request
    when there is one and its [status] is truthy, [null] otherwise. *)
Definition signal_of (answer : outcome jsval) : jsval :=
  match answer with
  | Return r => if truthy (get_prop_opt r "status") then r else JNull
  | Throw _ => JNull
  end.

End Scenario.

(* ================================================================== *)
(** * Properties *)
(* ================================================================== *)

Import JS Scenario.

(** Closes a conjunction of closed equations by evaluating both sides. *)
Ltac evaluate :=
repeat match goal with |- _ /\ _ => split end;
vm_compute; reflexivity.

Section Builtins.
Local Open Scope Z_scope.

(** [parseFloat] and [Number::toString] on sample inputs: -7.1 is
    [-7993889338582630 * 2^-50]. *)
Example parseFloat_samples :
  parseFloat (JStr "-7.1") = S754_finite true 7993889338582630 (-50) /\
  parseFloat (JStr " 110.8abc") = S754_finite false 7796856854885171 (-46) /\
  parseFloat (JStr "0") = S754_zero false /\
  parseFloat (JStr "0.000") = S754_zero false /\
  parseFloat (JStr "1e-400") = S754_zero false /\
  parseFloat (JStr "abc") = S754_nan /\
  parseFloat (JStr ".") = S754_nan /\
  parseFloat JUndefined = S754_nan /\
  parseFloat JNull = S754_nan /\
  parseFloat (JNum (S754_finite true 7993889338582630 (-50))) =
    S754_finite true 7993889338582630 (-50).
Proof. evaluate. Qed.

Example number_to_string_samples :
  number_to_string (parseFloat (JStr "-7.1")) = "-7.1" /\
  number_to_string (parseFloat (JStr "110.80")) = "110.8" /\
  number_to_string (parseFloat (JStr "1e21")) = "1e+21" /\
  number_to_string (parseFloat (JStr "123456789012345678901")) = "123456789012345680000" /\
  number_to_string (parseFloat (JStr "0.0000001")) = "1e-7" /\
  number_to_string (parseFloat (JStr "0.30000000000000004")) = "0.30000000000000004" /\
  number_to_string (parseFloat (JStr "5e-324")) = "5e-324".
Proof. evaluate. Qed.

Example string_samples :
  toLowerCase "Power FAIL" = "power fail" /\
  trim "  LOS  " = "LOS" /\
  includes "los-detected" "los" = true /\
  includes "closed" "los" = true /\
  includes "garbage" "power" = false /\
  JSON_stringify (JObj [("olt_id", JStr "1"); ("zone", JUndefined);
                        ("tags", JArr [JNull; JBool true])]) =
    Some ("{" +:+ dquote +:+ "olt_id" +:+ dquote +:+ ":" +:+ dquote +:+ "1" +:+ dquote +:+
          "," +:+ dquote +:+ "tags" +:+ dquote +:+ ":[null,true]}").
Proof. evaluate. Qed.
End Builtins.

Section RateLimiterFacts.
Import RateLimiter.
Local Open Scope Z_scope.

Lemma counts_set_counts rl ty l : counts (set_counts rl ty l) ty = l.
Proof. unfold counts, set_counts; simpl. destruct (String.eqb ty "gps"); reflexivity. Qed.

Lemma limit_of_set_counts rl ty ty' l : limit_of (set_counts rl ty l) ty' = limit_of rl ty'.
Proof. reflexivity. Qed.

Lemma recordCall_counts rl ty now :
  restricted ty = true -> counts (recordCall rl ty now) ty = counts rl ty ++ [now].
Proof. intros H. unfold recordCall. rewrite H. apply counts_set_counts. Qed.

Lemma recordCall_limit rl ty ty' now : limit_of (recordCall rl ty now) ty' = limit_of rl ty'.
Proof. unfold recordCall. destruct (restricted ty); reflexivity. Qed.

Lemma recordCalls_counts ts : forall rl ty,
  restricted ty = true -> counts (recordCalls rl ty ts) ty = counts rl ty ++ ts.
Proof.
  induction ts as [|a ts IH]; intros rl ty H; simpl.
  - now rewrite app_nil_r.
  - unfold recordCalls in *. simpl. rewrite IH by assumption.
    rewrite recordCall_counts by assumption. now rewrite <- app_assoc.
Qed.

Lemma recordCalls_limit ts : forall rl ty ty',
  limit_of (recordCalls rl ty ts) ty' = limit_of rl ty'.
Proof.
  induction ts as [|a ts IH]; intros; simpl; [reflexivity|].
  unfold recordCalls in *. simpl. rewrite IH. apply recordCall_limit.
Qed.

Lemma prune_all now l :
  Forall (fun t => now - hour < t) l -> prune now l = l.
Proof.
  induction 1 as [|a l Ha _ IH]; simpl; [reflexivity|].
  unfold prune in *. simpl. rewrite IH.
  destruct (Z.ltb_spec (now - hour) a); [reflexivity | lia].
Qed.

Lemma prune_length now l : (length (prune now l) <= length l)%nat.
Proof. unfold prune. apply filter_length_le. Qed.

Lemma ceil_div_bounds x d :
  0 < d -> d * (ceil_div x d - 1) < x <= d * ceil_div x d.
Proof.
  intros Hd. unfold ceil_div.
  pose proof (Z.mul_div_le (- x) d Hd).
  pose proof (Z.mul_succ_div_gt (- x) d Hd). lia.
Qed.

Lemma sorted_head_least (a : Z) l : Sorted Z.le (a :: l) -> Forall (Z.le a) (a :: l).
Proof.
  intros H. apply Sorted_StronglySorted in H.
  - inversion H; subst. constructor; [lia | assumption].
  - intros x y z; lia.
Qed.

End RateLimiterFacts.

Section QuotaWindow.
Import RateLimiter.
Local Open Scope Z_scope.

(** C1: for a restricted class whose limit is the number [N] of
    instants in [ts], after [recordCall] at each of them, all within
    the 60 minutes before [now], [canCallEndpoint] at [now] does not
    allow the call; the first recorded instant is the oldest one, and
    the refusal carries the number of whole minutes until it leaves
    the window (the least number of minutes that covers the remaining
    time) together with that instant.  From the moment the oldest
    instant is 60 minutes old, [canCallEndpoint] allows the call
    again. *)
Theorem canCallEndpoint_quota_window :
  forall (rl0 : RateLimiter.t) (endpointType : string) (ts : list Z) (now : Z),
    restricted endpointType = true ->
    counts rl0 endpointType = [] ->
    Z.of_nat (length ts) = limit_of rl0 endpointType ->
    Sorted Z.le ts ->
    Forall (fun t => now - hour < t) ts ->
    let rl := recordCalls rl0 endpointType ts in
    let first_check := canCallEndpoint rl endpointType now in
    allowed (fst first_check) = false /\
    forall oldest rest, ts = oldest :: rest ->
      Forall (Z.le oldest) ts /\
      (exists waitMinutes,
          fst first_check = Rejected (Some waitMinutes) (Some (oldest + hour)) /\
          60000 * (waitMinutes - 1) < oldest + hour - now <= 60000 * waitMinutes) /\
      forall later, oldest + hour <= later ->
        fst (canCallEndpoint (snd first_check) endpointType later) = Allowed.
Proof.
  intros rl0 ty ts now Hr H0 Hlen Hsorted Hwin rl first_check.
  assert (Hcounts : counts rl ty = ts).
  { subst rl. rewrite recordCalls_counts by assumption. now rewrite H0. }
  assert (Hlimit : limit_of rl ty = Z.of_nat (length ts)).
  { subst rl. rewrite recordCalls_limit. now rewrite Hlen. }
  assert (Hfirst : first_check =
            (match ts with
             | oldest :: _ =>
                 Rejected (Some (ceil_div (oldest + hour - now) (60 * 1000)))
                          (Some (oldest + hour))
             | [] => Rejected None None
             end, set_counts rl ty ts)).
  { subst first_check. unfold canCallEndpoint. rewrite Hr. simpl negb. cbv iota.
    rewrite Hcounts, (prune_all _ _ Hwin), Hlimit.
    rewrite (proj2 (Z.leb_le _ _)) by lia.
    destruct ts; reflexivity. }
  split.
  - rewrite Hfirst. destruct ts; reflexivity.
  - intros oldest rest ->. split; [|split].
    + now apply sorted_head_least.
    + eexists. rewrite Hfirst. split; [reflexivity|].
      apply (ceil_div_bounds (oldest + hour - now) (60 * 1000)). lia.
    + intros later Hlater. rewrite Hfirst. cbn [snd].
      unfold canCallEndpoint. rewrite Hr. simpl negb. cbv iota.
      rewrite counts_set_counts, limit_of_set_counts, Hlimit.
      assert (Hp : prune later (oldest :: rest) = prune later rest).
      { unfold prune. simpl. destruct (Z.ltb_spec (later - hour) oldest); [lia | reflexivity]. }
      rewrite Hp.
      pose proof (prune_length later rest) as Hle.
      destruct (Z.leb_spec (Z.of_nat (length (oldest :: rest)))
                           (Z.of_nat (length (prune later rest)))) as [Hc|Hc].
      * simpl length in Hc. lia.
      * reflexivity.
Qed.

Lemma canCallEndpoint_quota_window_witness :
  let rl := recordCalls (RateLimiter.new demo_limits)
                        "gps" [1000; 2000; 3000] in
  allowed (fst (canCallEndpoint rl "gps" 4000)) = false /\
  fst (canCallEndpoint rl "gps" 4000) = Rejected (Some 60) (Some 3601000) /\
  fst (canCallEndpoint (snd (canCallEndpoint rl "gps" 4000)) "gps" 3601000) = Allowed.
Proof.
  pose proof (canCallEndpoint_quota_window
                (RateLimiter.new demo_limits)
                "gps" [1000; 2000; 3000] 4000
                eq_refl eq_refl eq_refl) as H.
  assert (Hs : Sorted Z.le [1000; 2000; 3000]) by (repeat constructor; lia).
  assert (Hw : Forall (fun t => 4000 - hour < t) [1000; 2000; 3000])
    by (repeat constructor; unfold hour; lia).
  specialize (H Hs Hw). cbv zeta in H. destruct H as [H1 H2].
  destruct (H2 1000 [2000; 3000] eq_refl) as (_ & _ & H3).
  intros rl. split; [exact H1|]. split; [reflexivity|].
  apply H3. unfold hour. lia.
Defined.
End QuotaWindow.

Section Throttle.
Import RateLimiter.
Local Open Scope Z_scope.

(** Two invocations, the second entered once the first is over, end at
    least [apiDelay] apart (timers that do not fire early). *)
Lemma waitForNextCall_sequential_spacing rl now1 late1 now2 late2 :
  0 <= late2 ->
  snd (waitForNextCall rl now1 late1) <= now2 ->
  apiDelay rl <=
    snd (waitForNextCall (fst (waitForNextCall rl now1 late1)) now2 late2)
    - snd (waitForNextCall rl now1 late1).
Proof.
  intros Hlate Hseq. unfold waitForNextCall at 1 2. cbn [fst snd].
  unfold waitTime at 1. cbn [lastCallTime set_lastCallTime apiDelay].
  set (done1 := snd (waitForNextCall rl now1 late1)) in *.
  replace (match waitTime rl now1 with
           | Some w => now1 + w + late1
           | None => now1 + late1
           end) with done1 by reflexivity.
  destruct (Z.ltb_spec (now2 - done1) (apiDelay rl)); lia.
Qed.

(** C3, on the code: three invocations started back to back, as the
    three requests of [getOnuById] are, with a delay of 8 s.  The first
    finds the gate open; the other two read the same [lastCallTime],
    sleep the same 8 s and complete in the same millisecond. *)
Theorem waitForNextCall_overlapping_unspaced :
  let rl := RateLimiter.new demo_limits in
  exists s,
    run (start rl 100000)
        [(100000, Enter 0%nat); (100000, Enter 1%nat); (100000, Enter 2%nat);
         (108000, Wake 1%nat); (108000, Wake 2%nat)] = Some s /\
    completions s = [(0%nat, 100000); (1%nat, 108000); (2%nat, 108000)] /\
    sleeping s = [] /\
    spaced (apiDelay rl) (List.map snd (completions s)) = false.
Proof. eexists. evaluate. Qed.
End Throttle.

Section MakeRequest.
Import RateLimiter Request.
Local Open Scope Z_scope.

Lemma prune_sublist now l : sublist (prune now l) l.
Proof.
  unfold prune. induction l as [|a l IH]; simpl; [constructor|].
  destruct (now - hour <? a); now constructor.
Qed.

Lemma restricted_not_normal ty : restricted ty = true -> String.eqb ty "normal" = false.
Proof.
  unfold restricted. intros H. apply orb_true_iff in H.
  destruct H as [H|H]; apply String.eqb_eq in H; subst; reflexivity.
Qed.

Lemma canCallEndpoint_counts rl ty now :
  restricted ty = true ->
  counts (snd (canCallEndpoint rl ty now)) ty = prune now (counts rl ty).
Proof.
  intros Hr. unfold canCallEndpoint. rewrite Hr. simpl negb. cbv iota.
  destruct (_ <=? _); [destruct (prune now (counts rl ty)) eqn:E|];
    cbn [snd]; rewrite counts_set_counts; congruence.
Qed.

Lemma waitForNextCall_counts rl ty now late :
  counts (fst (waitForNextCall rl now late)) ty = counts rl ty.
Proof. reflexivity. Qed.

(** What [attempt] leaves in the list, case by case. *)
Lemma attempt_counts api endpoint params ty tm :
  restricted ty = true ->
  let rl := ApiService.rateLimiter api in
  let check := canCallEndpoint rl ty (entered tm) in
  counts (snd (ApiService.attempt api endpoint params ty tm)) ty =
    if ApiService.key_missing api then counts rl ty
    else if allowed (fst check) then
      match ApiService.client_get api endpoint params with
      | Return _ =>
          prune (entered tm) (counts rl ty) ++
          [snd (waitForNextCall (snd check) (entered tm) (timer_late tm)) + latency tm]
      | Throw _ => prune (entered tm) (counts rl ty)
      end
    else prune (entered tm) (counts rl ty).
Proof.
  intros Hr rl check. unfold ApiService.attempt.
  destruct (ApiService.key_missing api); [reflexivity|].
  rewrite (restricted_not_normal _ Hr). simpl negb. cbv iota.
  fold rl. fold check.
  pose proof (canCallEndpoint_counts rl ty (entered tm) Hr) as Hc. fold check in Hc.
  destruct check as [[|w r] rl1]; cbn [fst snd allowed] in *.
  - destruct (waitForNextCall rl1 (entered tm) (timer_late tm)) as [rl2 sent] eqn:Ew.
    assert (Hrl2 : counts rl2 ty = counts rl1 ty).
    { change rl2 with (fst (rl2, sent)). rewrite <- Ew. reflexivity. }
    destruct (ApiService.client_get api endpoint params); cbn [snd].
    + rewrite recordCall_counts by assumption. now rewrite Hrl2, Hc.
    + now rewrite Hrl2.
  - exact Hc.
Qed.

Lemma attemptB_counts api endpoint params ty tm :
  restricted ty = true ->
  let rl := ApiServiceB.rateLimiter api in
  let check := canCallEndpoint rl ty (entered tm) in
  counts (snd (ApiServiceB.attempt api endpoint params ty tm)) ty =
    if allowed (fst check) then
      match ApiServiceB.client_get api endpoint params with
      | Return _ =>
          prune (entered tm) (counts rl ty) ++
          [snd (waitForNextCall (snd check) (entered tm) (timer_late tm)) + latency tm]
      | Throw _ => prune (entered tm) (counts rl ty)
      end
    else prune (entered tm) (counts rl ty).
Proof.
  intros Hr rl check. unfold ApiServiceB.attempt.
  rewrite (restricted_not_normal _ Hr). simpl negb. cbv iota.
  fold rl. fold check.
  pose proof (canCallEndpoint_counts rl ty (entered tm) Hr) as Hc. fold check in Hc.
  destruct check as [[|w r] rl1]; cbn [fst snd allowed] in *.
  - destruct (waitForNextCall rl1 (entered tm) (timer_late tm)) as [rl2 sent] eqn:Ew.
    assert (Hrl2 : counts rl2 ty = counts rl1 ty).
    { change rl2 with (fst (rl2, sent)). rewrite <- Ew. reflexivity. }
    destruct (ApiServiceB.client_get api endpoint params); cbn [snd].
    + rewrite recordCall_counts by assumption. now rewrite Hrl2, Hc.
    + now rewrite Hrl2.
  - exact Hc.
Qed.

Lemma makeRequestB_limiter api endpoint params ty tm :
  ApiServiceB.rateLimiter (snd (ApiServiceB.makeRequest api endpoint params ty tm)) =
  snd (ApiServiceB.attempt api endpoint params ty tm).
Proof.
  unfold ApiServiceB.makeRequest.
  destruct (ApiServiceB.attempt api endpoint params ty tm); reflexivity.
Qed.

Lemma makeRequestB_counts api endpoint params ty tm :
  restricted ty = true ->
  let rl := ApiServiceB.rateLimiter api in
  let check := canCallEndpoint rl ty (entered tm) in
  counts (ApiServiceB.rateLimiter
            (snd (ApiServiceB.makeRequest api endpoint params ty tm))) ty =
    if allowed (fst check) then
      match ApiServiceB.client_get api endpoint params with
      | Return _ =>
          prune (entered tm) (counts rl ty) ++
          [snd (waitForNextCall (snd check) (entered tm) (timer_late tm)) + latency tm]
      | Throw _ => prune (entered tm) (counts rl ty)
      end
    else prune (entered tm) (counts rl ty).
Proof.
  intros Hr. rewrite makeRequestB_limiter. now apply attemptB_counts.
Qed.

Lemma makeRequest_limiter api endpoint params ty tm :
  ApiService.rateLimiter (snd (ApiService.makeRequest api endpoint params ty tm)) =
  snd (ApiService.attempt api endpoint params ty tm).
Proof.
  unfold ApiService.makeRequest.
  destruct (ApiService.attempt api endpoint params ty tm); reflexivity.
Qed.

(** What the [try] block of either revision ends with when the HTTP
    exchange of a request that was let through returns. *)
Lemma attempt_client_returns api endpoint params ty tm response :
  ApiService.key_missing api = false ->
  allowed (fst (canCallEndpoint (ApiService.rateLimiter api) ty (entered tm))) = true ->
  ApiService.client_get api endpoint params = Return response ->
  fst (ApiService.attempt api endpoint params ty tm) = ApiService.validate response.
Proof.
  intros Hkey Hallowed Hclient. unfold ApiService.attempt. rewrite Hkey.
  destruct (negb (ty =? "normal")%string).
  - destruct (canCallEndpoint _ ty _) as [[|w r] rl1]; [|discriminate].
    destruct (waitForNextCall _ _ _) as [rl2 sent]. now rewrite Hclient.
  - destruct (waitForNextCall _ _ _) as [rl2 sent]. now rewrite Hclient.
Qed.

Lemma attemptB_client_returns api endpoint params ty tm response :
  allowed (fst (canCallEndpoint (ApiServiceB.rateLimiter api) ty (entered tm))) = true ->
  ApiServiceB.client_get api endpoint params = Return response ->
  fst (ApiServiceB.attempt api endpoint params ty tm) = ApiServiceB.validate response.
Proof.
  intros Hallowed Hclient. unfold ApiServiceB.attempt.
  destruct (negb (ty =? "normal")%string).
  - destruct (canCallEndpoint _ ty _) as [[|w r] rl1]; [|discriminate].
    destruct (waitForNextCall _ _ _) as [rl2 sent]. now rewrite Hclient.
  - destruct (waitForNextCall _ _ _) as [rl2 sent]. now rewrite Hclient.
Qed.

Lemma makeRequest_succeeded api endpoint params ty tm :
  succeeded (fst (ApiService.makeRequest api endpoint params ty tm)) =
  succeeded (fst (ApiService.attempt api endpoint params ty tm)).
Proof.
  unfold ApiService.makeRequest.
  now destruct (ApiService.attempt api endpoint params ty tm) as [[data|e] rl].
Qed.

Lemma makeRequestB_succeeded api endpoint params ty tm :
  succeeded (fst (ApiServiceB.makeRequest api endpoint params ty tm)) =
  succeeded (fst (ApiServiceB.attempt api endpoint params ty tm)).
Proof.
  unfold ApiServiceB.makeRequest.
  now destruct (ApiServiceB.attempt api endpoint params ty tm) as [[data|e] rl].
Qed.

(** C2, as the code has it: a request of a restricted class adds an
    instant to the list of its class exactly when its HTTP call has
    returned.  A request refused for a missing key or by the quota
    check, and a request whose HTTP call throws, add nothing (the list
    only loses what the quota check pruned); a request that was let
    through and whose HTTP call returns adds exactly one instant.  The
    instant is recorded before the answer is looked at: when the
    answer is then rejected (no body, or an envelope whose [status] is
    [false]) the request throws and its instant stays in the list.
    This holds for both revisions of [makeRequest]. *)
Theorem makeRequest_records_answered_calls :
  forall (endpoint : string) (params : jsval) (endpointType : string) (tm : timing),
    restricted endpointType = true ->
    (forall api : ApiService.t,
       let rl := ApiService.rateLimiter api in
       let rl' := ApiService.rateLimiter
                    (snd (ApiService.makeRequest api endpoint params endpointType tm)) in
       records_answered_calls
         (counts rl endpointType)
         (prune (entered tm) (counts rl endpointType))
         (counts rl' endpointType)
         (ApiService.key_missing api ||
          negb (allowed (fst (canCallEndpoint rl endpointType (entered tm)))))
         (ApiService.client_get api endpoint params)) /\
    (forall api : ApiServiceB.t,
       let rl := ApiServiceB.rateLimiter api in
       let rl' := ApiServiceB.rateLimiter
                    (snd (ApiServiceB.makeRequest api endpoint params endpointType tm)) in
       records_answered_calls
         (counts rl endpointType)
         (prune (entered tm) (counts rl endpointType))
         (counts rl' endpointType)
         (negb (allowed (fst (canCallEndpoint rl endpointType (entered tm)))))
         (ApiServiceB.client_get api endpoint params)) /\
    (forall (api : ApiService.t) (response e : jsval),
       ApiService.key_missing api = false ->
       allowed (fst (canCallEndpoint (ApiService.rateLimiter api) endpointType
                       (entered tm))) = true ->
       ApiService.client_get api endpoint params = Return response ->
       ApiService.validate response = Throw e ->
       succeeded (fst (ApiService.makeRequest api endpoint params endpointType tm))
         = false /\
       exists done,
         counts (ApiService.rateLimiter
                   (snd (ApiService.makeRequest api endpoint params endpointType tm)))
                endpointType
         = prune (entered tm) (counts (ApiService.rateLimiter api) endpointType)
           ++ [done]) /\
    (forall (api : ApiServiceB.t) (response e : jsval),
       allowed (fst (canCallEndpoint (ApiServiceB.rateLimiter api) endpointType
                       (entered tm))) = true ->
       ApiServiceB.client_get api endpoint params = Return response ->
       ApiServiceB.validate response = Throw e ->
       succeeded (fst (ApiServiceB.makeRequest api endpoint params endpointType tm))
         = false /\
       exists done,
         counts (ApiServiceB.rateLimiter
                   (snd (ApiServiceB.makeRequest api endpoint params endpointType tm)))
                endpointType
         = prune (entered tm) (counts (ApiServiceB.rateLimiter api) endpointType)
           ++ [done]).
Proof.
  intros endpoint params ty tm Hr. split; [|split; [|split]].
  - intros api rl rl'.
    assert (H : counts rl' ty = _) by
      (subst rl'; rewrite makeRequest_limiter; apply (attempt_counts _ _ _ _ _ Hr)).
    cbv zeta in H. fold rl in H. rewrite H. clear H.
    pose proof (prune_sublist (entered tm) (counts rl ty)) as Hs.
    unfold records_answered_calls. repeat split.
    + intros Href. destruct (ApiService.key_missing api); [reflexivity|].
      simpl in Href. apply negb_true_iff in Href. now rewrite Href.
    + intros e He. rewrite He.
      destruct (ApiService.key_missing api); [reflexivity|].
      now destruct (allowed _).
    + intros response Hresp Href. rewrite Hresp.
      apply orb_false_iff in Href. destruct Href as [-> Ha].
      apply negb_false_iff in Ha. rewrite Ha. eexists; reflexivity.
  - intros api rl rl'.
    assert (H : counts rl' ty = _) by
      (subst rl'; apply (makeRequestB_counts _ _ _ _ _ Hr)).
    cbv zeta in H. fold rl in H. rewrite H. clear H.
    pose proof (prune_sublist (entered tm) (counts rl ty)) as Hs.
    unfold records_answered_calls. repeat split.
    + intros Href. apply negb_true_iff in Href. now rewrite Href.
    + intros e He. rewrite He. now destruct (allowed _).
    + intros response Hresp Href. rewrite Hresp.
      apply negb_false_iff in Href. rewrite Href. eexists; reflexivity.
  - intros api response e Hkey Hallowed Hclient Hv. split.
    + rewrite makeRequest_succeeded,
        (attempt_client_returns _ _ _ _ tm _ Hkey Hallowed Hclient), Hv.
      reflexivity.
    + rewrite makeRequest_limiter, (attempt_counts _ _ _ _ _ Hr).
      rewrite Hkey, Hallowed, Hclient. eexists; reflexivity.
  - intros api response e Hallowed Hclient Hv. split.
    + rewrite makeRequestB_succeeded,
        (attemptB_client_returns _ _ _ _ tm _ Hallowed Hclient), Hv.
      reflexivity.
    + rewrite (makeRequestB_counts _ _ _ _ _ Hr).
      rewrite Hallowed, Hclient. eexists; reflexivity.
Qed.

Lemma makeRequest_records_answered_calls_witness :
  sublist
    (counts (ApiService.rateLimiter
               (snd (ApiService.getAllOnusGpsCoordinates
                       (service_over failing_client) (JObj []) demo_timing))) "gps")
    [] /\
  succeeded (fst (ApiService.getAllOnusGpsCoordinates
                    (service_over refusing_client) (JObj []) demo_timing)) = false /\
  exists done,
    counts (ApiService.rateLimiter
              (snd (ApiService.getAllOnusGpsCoordinates
                      (service_over refusing_client) (JObj []) demo_timing))) "gps"
    = [done].
Proof.
  destruct (makeRequest_records_answered_calls
              "/onu/get_all_onus_gps_coordinates" (JObj []) "gps" demo_timing eq_refl)
    as (H & _ & Hrejected & _).
  split.
  - destruct (H (service_over failing_client)) as (_ & Hthrow & _).
    exact (Hthrow _ eq_refl).
  - exact (Hrejected (service_over refusing_client) _ _ eq_refl eq_refl eq_refl eq_refl).
Defined.

(** The recording precedes the checks on the answer: a failure
    envelope delivered by a successful HTTP exchange makes the request
    throw, and its instant is in the list all the same. *)
Example makeRequest_failure_envelope_recorded :
  let result := ApiService.getAllOnusGpsCoordinates
                  (service_over refusing_client) (JObj []) demo_timing in
  fst result = Throw (Error "Test error") /\
  counts (ApiService.rateLimiter (snd result)) "gps" = [8200].
Proof. split; reflexivity. Qed.

(** C2, as stated, fails: a request of the class [gps] that the
    upstream answers with the failure envelope
    [{ status: false, error: 'Test error' }] throws, and the list of
    its class, empty before the request, is not a part of the old list
    afterwards: the failed call has taken one of the three calls of
    the hour. *)
Lemma makeRequest_failed_call_consumes_quota :
  succeeded (fst (ApiService.getAllOnusGpsCoordinates
                    (service_over refusing_client) (JObj []) demo_timing)) = false /\
  ~ sublist
      (counts (ApiService.rateLimiter
                 (snd (ApiService.getAllOnusGpsCoordinates
                         (service_over refusing_client) (JObj []) demo_timing))) "gps")
      (counts (ApiService.rateLimiter (service_over refusing_client)) "gps") /\
  fst (getRemainingCalls
         (ApiService.rateLimiter
            (snd (ApiService.getAllOnusGpsCoordinates
                    (service_over refusing_client) (JObj []) demo_timing)))
         "gps" 9000) = Some 2 /\
  fst (getRemainingCalls (ApiService.rateLimiter (service_over refusing_client))
         "gps" 9000) = Some 3.
Proof.
  split; [reflexivity|]. split; [|split; reflexivity].
  change (~ sublist [8200] []). intros H. apply sublist_nil_r in H. discriminate.
Qed.
End MakeRequest.

Section Classification.
Import Onu.

Lemma truthy_raw_string r : truthy (raw r) = true -> exists s, raw r = JStr s.
Proof. destruct r; simpl; intros H; try discriminate. eauto. Qed.

Local Ltac pick_status :=
  repeat match goal with
         | |- context [if ?b then _ else _] => destruct b
         end;
  eexists; (split; [reflexivity | unfold statuses; simpl; tauto]).

Lemma determineOnuStatus_in_statuses (r c : raw_status) :
  exists st, OnuService.determineOnuStatus (raw r) (raw c) = Return st /\ In st statuses.
Proof.
  unfold OnuService.determineOnuStatus.
  destruct (truthy (raw r)) eqn:Hr; simpl negb; cbv iota.
  2:{ eexists; split; [reflexivity | unfold statuses; simpl; tauto]. }
  destruct (truthy_raw_string _ Hr) as [s ->].
  destruct (truthy (raw c)) eqn:Hc.
  - destruct (truthy_raw_string _ Hc) as [s' ->]. pick_status.
  - pick_status.
Qed.

Lemma determineOnuStatusB_in_statuses (r : raw_status) :
  exists st, OnuServiceB.determineOnuStatus (raw r) = Return st /\ In st statuses.
Proof.
  unfold OnuServiceB.determineOnuStatus.
  destruct (truthy (raw r)) eqn:Hr; simpl negb; cbv iota.
  2:{ eexists; split; [reflexivity | unfold statuses; simpl; tauto]. }
  destruct (truthy_raw_string _ Hr) as [s ->]. pick_status.
Qed.

(** C4: status classification, in both revisions, returns for every raw
    status (a string, [null] or nothing) exactly one value, and that
    value is one of Online, LOS, Power Fail and Offline; it never
    throws on such an input.  "Online" is classified Online,
    "los-detected" LOS, "power fail" Power Fail, [null] Offline and
    "garbage" Offline. *)
Theorem determineOnuStatus_total_deterministic :
  (forall r : raw_status,
      (exists st, In st statuses /\
         forall st', OnuService.determineOnuStatus (raw r) JNull = Return st' <-> st' = st) /\
      (exists st, In st statuses /\
         forall st', OnuServiceB.determineOnuStatus (raw r) = Return st' <-> st' = st)) /\
  (OnuService.determineOnuStatus (JStr "Online") JNull = Return "Online" /\
   OnuService.determineOnuStatus (JStr "los-detected") JNull = Return "LOS" /\
   OnuService.determineOnuStatus (JStr "power fail") JNull = Return "Power Fail" /\
   OnuService.determineOnuStatus JNull JNull = Return "Offline" /\
   OnuService.determineOnuStatus (JStr "garbage") JNull = Return "Offline") /\
  (OnuServiceB.determineOnuStatus (JStr "Online") = Return "Online" /\
   OnuServiceB.determineOnuStatus (JStr "los-detected") = Return "LOS" /\
   OnuServiceB.determineOnuStatus (JStr "power fail") = Return "Power Fail" /\
   OnuServiceB.determineOnuStatus JNull = Return "Offline" /\
   OnuServiceB.determineOnuStatus (JStr "garbage") = Return "Offline").
Proof.
  split; [|split; evaluate].
  intros r. split.
  - destruct (determineOnuStatus_in_statuses r RawNull) as (st & Hst & Hin).
    exists st. split; [assumption|]. intros st'. simpl raw in Hst. rewrite Hst.
    split; [now intros [= ->] | now intros ->].
  - destruct (determineOnuStatusB_in_statuses r) as (st & Hst & Hin).
    exists st. split; [assumption|]. intros st'. rewrite Hst.
    split; [now intros [= ->] | now intros ->].
Qed.

(** The fallback of the first revision: whatever the last down cause
    (a string, [null] or nothing), the result is still one of the four
    values. *)
Lemma determineOnuStatus_with_cause_total (r c : raw_status) :
  exists st, In st statuses /\
    OnuService.determineOnuStatus (raw r) (raw c) = Return st.
Proof. destruct (determineOnuStatus_in_statuses r c) as (st & ? & ?). eauto. Qed.

(** Outside that domain the classification is not total: a status that
    is a number other than zero has no [toLowerCase]. *)
Example determineOnuStatus_number_throws :
  succeeded (OnuServiceB.determineOnuStatus (Request.number 1)) = false /\
  succeeded (OnuService.determineOnuStatus (Request.number 1) JNull) = false.
Proof. split; reflexivity. Qed.
End Classification.

Section Transitions.
Import Onu.

Lemma removelast_firstn_length {A} (l : list A) :
  removelast l = firstn (length l - 1) l.
Proof.
  induction l as [|a l IH]; [reflexivity|].
  destruct l as [|b l]; [reflexivity|].
  change (removelast (a :: b :: l)) with (a :: removelast (b :: l)).
  rewrite IH. simpl. now rewrite Nat.sub_0_r.
Qed.

(** Within the bound, pushing keeps the newest 50 of the extended
    log. *)
Lemma push_event_firstn event log :
  length log <= 50 -> push_event event log = firstn 50 (event :: log).
Proof.
  intros Hlen. unfold push_event.
  destruct (Nat.ltb_spec 50 (length (event :: log))) as [Hc|Hc].
  - rewrite removelast_firstn_length.
    simpl length in *. replace (S (length log) - 1) with 50 by lia. reflexivity.
  - symmetry. apply firstn_all2. lia.
Qed.

Lemma push_event_length event log :
  length log <= 50 -> length (push_event event log) <= 50.
Proof.
  intros Hlen. rewrite push_event_firstn by assumption.
  rewrite length_firstn. lia.
Qed.

Lemma strict_eq_string v s : strict_eq v (JStr s) = true <-> v = JStr s.
Proof.
  destruct v; simpl; try (split; [discriminate | congruence]).
  rewrite String.eqb_eq. split; congruence.
Qed.

Lemma trackStatusChange_object h fields newStatus oldStatus timestamp :
  trackStatusChange h (JObj fields) newStatus oldStatus timestamp =
  Return
    (if strict_eq newStatus oldStatus then h
     else
       let event := event_of fields newStatus oldStatus timestamp in
       if strict_eq newStatus (JStr "LOS")
       then {| recentLos := push_event event (recentLos h);
               recentPowerFail := recentPowerFail h |}
       else if strict_eq newStatus (JStr "Power Fail")
       then {| recentLos := recentLos h;
               recentPowerFail := push_event event (recentPowerFail h) |}
       else h).
Proof.
  unfold trackStatusChange.
  destruct (strict_eq newStatus oldStatus); [reflexivity|].
  cbn [get_prop mbind outcome_bind bind].
  destruct (strict_eq newStatus (JStr "LOS")) eqn:E1.
  - apply strict_eq_string in E1. subst. reflexivity.
  - destruct (strict_eq newStatus (JStr "Power Fail")); destruct h; reflexivity.
Qed.

Lemma trackStatusChange_bounded h onu newStatus oldStatus timestamp h' :
  bounded h ->
  trackStatusChange h onu newStatus oldStatus timestamp = Return h' ->
  bounded h'.
Proof.
  intros [Hl Hp] H. unfold trackStatusChange in H.
  destruct (strict_eq newStatus oldStatus); [injection H as <-; now split|].
  destruct onu; try discriminate;
    cbn [get_prop mbind outcome_bind bind] in H; injection H as <-;
    destruct (strict_eq newStatus (JStr "LOS"));
    destruct (strict_eq newStatus (JStr "Power Fail"));
    split; cbn [recentLos recentPowerFail];
    auto using push_event_length.
Qed.

Lemma reachable_bounded h : reachable h -> bounded h.
Proof.
  induction 1 as [|h onu n o ts h' _ IH Htrack].
  - split; simpl; lia.
  - eapply trackStatusChange_bounded; eassumption.
Qed.

(** C6: for a device record and cached prior status [oldStatus],
    [trackStatusChange] with a different new status puts exactly one
    event at the head of the log the new status selects (the LOS log
    for LOS, the Power Fail log for Power Fail) and leaves the other
    log alone; any other new status, and a new status equal to the
    prior one, leave both logs as they were.  Each log keeps the
    newest 50 entries of what it would otherwise hold, so its length
    never exceeds 50 and the oldest entry goes on overflow. *)
Theorem trackStatusChange_logs_transition :
  forall (h : history) (fields : list (string * jsval))
         (newStatus oldStatus : jsval) (timestamp : string),
    reachable h ->
    exists h',
      trackStatusChange h (JObj fields) newStatus oldStatus timestamp = Return h' /\
      reachable h' /\
      length (recentLos h') <= 50 /\ length (recentPowerFail h') <= 50 /\
      (strict_eq newStatus oldStatus = true -> h' = h) /\
      (strict_eq newStatus oldStatus = false ->
         let event := event_of fields newStatus oldStatus timestamp in
         (newStatus = JStr "LOS" ->
            recentLos h' = firstn 50 (event :: recentLos h) /\
            recentPowerFail h' = recentPowerFail h) /\
         (newStatus = JStr "Power Fail" ->
            recentPowerFail h' = firstn 50 (event :: recentPowerFail h) /\
            recentLos h' = recentLos h) /\
         (newStatus <> JStr "LOS" -> newStatus <> JStr "Power Fail" -> h' = h)).
Proof.
  intros h fields newStatus oldStatus timestamp Hreach.
  pose proof (reachable_bounded h Hreach) as [Hl Hp].
  eexists. split; [apply trackStatusChange_object|].
  assert (Hreach' : reachable
            (if strict_eq newStatus oldStatus then h
             else
               let event := event_of fields newStatus oldStatus timestamp in
               if strict_eq newStatus (JStr "LOS")
               then {| recentLos := push_event event (recentLos h);
                       recentPowerFail := recentPowerFail h |}
               else if strict_eq newStatus (JStr "Power Fail")
               then {| recentLos := recentLos h;
                       recentPowerFail := push_event event (recentPowerFail h) |}
               else h)).
  { eapply reachable_track; [exact Hreach | apply trackStatusChange_object]. }
  split; [exact Hreach'|].
  pose proof (reachable_bounded _ Hreach') as [Hl' Hp'].
  split; [exact Hl'|]. split; [exact Hp'|].
  destruct (strict_eq newStatus oldStatus) eqn:Heq.
  - split; [reflexivity | discriminate].
  - split; [discriminate|]. intros _ event. repeat split.
    + subst. cbn [strict_eq String.eqb]. simpl.
      now apply push_event_firstn.
    + subst. reflexivity.
    + subst. cbn. now apply push_event_firstn.
    + subst. reflexivity.
    + intros H1 H2.
      destruct (strict_eq newStatus (JStr "LOS")) eqn:E1;
        [apply strict_eq_string in E1; contradiction|].
      destruct (strict_eq newStatus (JStr "Power Fail")) eqn:E2;
        [apply strict_eq_string in E2; contradiction|].
      reflexivity.
Qed.

Lemma trackStatusChange_logs_transition_witness :
  exists h',
    trackStatusChange {| recentLos := []; recentPowerFail := [] |}
      (JObj [("unique_external_id", JStr "test1"); ("name", JStr "Test ONU")])
      (JStr "LOS") (JStr "Online") "2024-01-01T00:00:00.000Z" = Return h' /\
    length (recentLos h') <= 50.
Proof.
  destruct (trackStatusChange_logs_transition
              {| recentLos := []; recentPowerFail := [] |}
              [("unique_external_id", JStr "test1"); ("name", JStr "Test ONU")]
              (JStr "LOS") (JStr "Online") "2024-01-01T00:00:00.000Z"
              reachable_new) as (h' & Htrack & _ & Hlen & _).
  exists h'. split; [exact Htrack | exact Hlen].
Defined.

(** Sixty changes to LOS in a row leave the 50 newest events in the
    LOS log, newest first: the ten oldest are gone. *)
Example trackStatusChange_sixty_events :
  let h := los_changes 60 {| recentLos := []; recentPowerFail := [] |} in
  length (recentLos h) = 50 /\
  List.map (fun e => get_prop_opt e "timestamp") (recentLos h) =
    List.map (fun n => JStr (pretty (Z.of_nat n))) (rev (seq 11 50)) /\
  recentPowerFail h = [].
Proof. cbv zeta. evaluate. Qed.

(** The guard at the call sites: the per-device callback tracks a
    change exactly when the cache holds a prior status of the device
    and that status differs from the new one. *)
Lemma remember_status_tracks fields status m s :
  let id := default JUndefined (lookup_field "unique_external_id" fields) in
  let oldStatus :=
    fst (CacheService.get (cache s) ("status_" +:+ to_string id) (fetched m)) in
  let h' := statusHistory (snd (remember_status (JObj fields) status m s)) in
  (truthy oldStatus = true -> strict_eq oldStatus (JStr status) = false ->
     trackStatusChange (statusHistory s) (JObj fields) (JStr status) oldStatus (iso m)
       = Return h') /\
  (truthy oldStatus = false \/ strict_eq oldStatus (JStr status) = true ->
     h' = statusHistory s).
Proof.
  cbv zeta. unfold remember_status. cbn [get_prop].
  destruct (CacheService.get _ _ _) as [oldStatus c1]. cbn [fst].
  split.
  - intros -> ->. cbn [andb negb statusHistory with_cache].
    rewrite trackStatusChange_object. reflexivity.
  - intros H.
    assert (Hg : truthy oldStatus && negb (strict_eq oldStatus (JStr status)) = false).
    { destruct H as [-> | ->]; [reflexivity | apply andb_false_r]. }
    rewrite Hg. reflexivity.
Qed.

(** A device seen Online by one query and in LOS by another query ten
    seconds later: the second query logs one event, from Online to
    LOS. *)
Example status_change_between_two_queries :
  let online := [JObj [("unique_external_id", JStr "onu1"); ("status", JStr "Online");
                       ("latitude", JStr "-7.1"); ("longitude", JStr "110.8")]] in
  let los := [JObj [("unique_external_id", JStr "onu1"); ("status", JStr "LOS");
                    ("latitude", JStr "-7.1"); ("longitude", JStr "110.8")]] in
  let s1 := snd (OnuServiceB.getAllOnusWithDetails (details_api online) demo_service
                   (JObj []) demo_moments) in
  let s2 := snd (OnuServiceB.getOnusWithGps (details_api los) s1 (JObj [])
                   {| checked := 11000; fetched := 19000;
                      iso := "1970-01-01T00:00:19.000Z" |}) in
  recentLos (statusHistory s1) = [] /\
  recentLos (statusHistory s2) =
    [event_of [("unique_external_id", JStr "onu1")]
       (JStr "LOS") (JStr "Online") "1970-01-01T00:00:19.000Z"] /\
  recentPowerFail (statusHistory s2) = [].
Proof. cbv zeta. evaluate. Qed.
End Transitions.

Section Cache.
Import CacheService.
Local Open Scope Z_scope.

Lemma set_content cs k value ttl now :
  ttl <> 0 ->
  content (snd (set cs k value (Some ttl) now)) = <[k := stored value ttl now]> (content cs).
Proof.
  intros Httl. unfold set, content, NodeCache.set, stored. cbn.
  destruct (Z.eqb_spec ttl 0); [contradiction|]. cbn.
  destruct (Z.eqb_spec ttl 0); [contradiction|]. reflexivity.
Qed.

Lemma get_result cs k now :
  fst (get cs k now) =
    match content cs !! k with
    | Some e => if NodeCache.live e now && truthy (NodeCache.v e)
                then NodeCache.v e else JNull
    | None => JNull
    end.
Proof.
  unfold get, NodeCache.get, content.
  destruct (NodeCache.data (cache cs) !! k) as [e|]; [|reflexivity].
  destruct (NodeCache.live e now); [|reflexivity].
  destruct (truthy (NodeCache.v e)); reflexivity.
Qed.

Lemma get_content cs k now :
  content (snd (get cs k now)) =
    match content cs !! k with
    | Some e => if NodeCache.live e now then content cs else delete k (content cs)
    | None => content cs
    end.
Proof.
  unfold get, NodeCache.get, content.
  destruct (NodeCache.data (cache cs) !! k) as [e|]; [|reflexivity].
  destruct (NodeCache.live e now); [|reflexivity].
  destruct (truthy (NodeCache.v e)); reflexivity.
Qed.

Lemma get_config cs k now : config (snd (get cs k now)) = config cs.
Proof.
  unfold get, NodeCache.get.
  destruct (_ !! k) as [e|]; [destruct (NodeCache.live e now)|];
    try destruct (truthy _); reflexivity.
Qed.

Lemma get_stdTTL cs k now :
  NodeCache.stdTTL (cache (snd (get cs k now))) = NodeCache.stdTTL (cache cs).
Proof.
  unfold get, NodeCache.get.
  destruct (_ !! k) as [e|]; [destruct (NodeCache.live e now)|];
    try destruct (truthy _); reflexivity.
Qed.

(** What one operation on another key, or a sweep, does to the entry
    of [k]. *)
Lemma apply_lookup_other cs k o :
  touches (snd o) k = false ->
  content (apply cs o) !! k =
    match snd o with
    | OSweep =>
        match content cs !! k with
        | Some e => if NodeCache.live e (fst o) then Some e else None
        | None => None
        end
    | _ => content cs !! k
    end.
Proof.
  destruct o as [now [key|key value ttl|key|]]; cbn [snd fst touches apply]; intros Hk.
  - apply String.eqb_neq in Hk. rewrite get_content.
    destruct (content cs !! key) as [e|]; [|reflexivity].
    destruct (NodeCache.live e now); [reflexivity|]. now apply lookup_delete_ne.
  - apply String.eqb_neq in Hk. unfold set, content, NodeCache.set. cbn.
    now apply lookup_insert_ne.
  - apply String.eqb_neq in Hk. unfold del, content, NodeCache.del. cbn.
    now apply lookup_delete_ne.
  - unfold content, NodeCache.checkData. cbn.
    destruct (NodeCache.data (cache cs) !! k) as [e|] eqn:E.
    + destruct (NodeCache.live e now) eqn:L.
      * apply map_lookup_filter_Some. auto.
      * apply map_lookup_filter_None. right. intros e' He'. cbn.
        rewrite E in He'. injection He' as <-. congruence.
    + apply map_lookup_filter_None. left. exact E.
Qed.

(** While its entry is unexpired, nothing done to other keys removes
    or changes it. *)
Lemma apply_all_keeps ops : forall cs k e limit,
  untouched k ops ->
  Forall (fun o => fst o <= limit) ops ->
  limit <= NodeCache.t e ->
  content cs !! k = Some e ->
  content (apply_all cs ops) !! k = Some e.
Proof.
  induction ops as [|o ops IH]; intros cs k e limit Hu Ht Hl Hk; [exact Hk|].
  inversion Hu as [|? ? Ho Hu']; inversion Ht as [|? ? Hto Ht']; subst.
  unfold apply_all. cbn [fold_left]. apply (IH _ _ _ limit); try assumption.
  rewrite (apply_lookup_other _ _ _ Ho), Hk.
  destruct (snd o); try reflexivity.
  unfold NodeCache.live. destruct (Z.leb_spec (fst o) (NodeCache.t e)); [|lia].
  now rewrite orb_true_r.
Qed.

(** The entry of [k] is still the one stored, or gone. *)
Lemma apply_all_same_or_gone ops : forall cs k e,
  untouched k ops ->
  content cs !! k = Some e \/ content cs !! k = None ->
  content (apply_all cs ops) !! k = Some e \/ content (apply_all cs ops) !! k = None.
Proof.
  induction ops as [|o ops IH]; intros cs k e Hu Hk; [exact Hk|].
  inversion Hu as [|? ? Ho Hu']; subst.
  unfold apply_all. cbn [fold_left]. apply IH; [assumption|].
  rewrite (apply_lookup_other _ _ _ Ho).
  destruct Hk as [-> | ->]; destruct (snd o); auto.
  destruct (NodeCache.live e (fst o)); auto.
Qed.

Lemma cache_eq (a b : t) :
  config a = config b ->
  NodeCache.stdTTL (cache a) = NodeCache.stdTTL (cache b) ->
  content a = content b ->
  a = b.
Proof.
  destruct a as [[sa da] ca], b as [[sb db] cb]. unfold content. cbn.
  intros -> -> ->. reflexivity.
Qed.

Lemma apply_alike k e a b o :
  touches (snd o) k = false -> alike k e a b -> alike k e (apply a o) (apply b o).
Proof.
  intros Ho (Hc & Hs & Hb & Hd).
  assert (Hb' : content (apply b o) !! k = None).
  { rewrite (apply_lookup_other _ _ _ Ho), Hb. now destruct (snd o). }
  destruct o as [now [key|key value ttl|key|]]; cbn [snd fst touches apply] in *.
  - apply String.eqb_neq in Ho. split; [|split; [|split; [exact Hb'|]]].
    + now rewrite !get_config.
    + now rewrite !get_stdTTL.
    + rewrite !get_content.
      destruct Hd as [Hd|Hd]; rewrite Hd.
      * left. reflexivity.
      * rewrite lookup_insert_ne by congruence.
        destruct (content b !! key) as [e'|]; [|now right].
        destruct (NodeCache.live e' now); [now right|].
        right. now rewrite delete_insert_ne by congruence.
  - apply String.eqb_neq in Ho. split; [exact Hc|]. split; [exact Hs|].
    split; [exact Hb'|].
    unfold set, content, NodeCache.set in *. cbn in *. rewrite Hc.
    destruct Hd as [Hd|Hd]; rewrite Hd; [now left|].
    right. now rewrite insert_insert_ne by congruence.
  - apply String.eqb_neq in Ho. split; [exact Hc|]. split; [exact Hs|].
    split; [exact Hb'|].
    unfold del, content, NodeCache.del in *. cbn in *.
    destruct Hd as [Hd|Hd]; rewrite Hd; [now left|].
    right. now rewrite delete_insert_ne by congruence.
  - split; [exact Hc|]. split; [exact Hs|]. split; [exact Hb'|].
    unfold content, NodeCache.checkData in *. cbn in *.
    destruct Hd as [Hd|Hd]; rewrite Hd; [now left|].
    destruct (NodeCache.live e now) eqn:L.
    + right. now apply map_filter_insert_True.
    + left. rewrite map_filter_insert_False by (cbn; congruence).
      now rewrite delete_id.
Qed.

Lemma apply_all_alike k e ops : forall a b,
  untouched k ops -> alike k e a b -> alike k e (apply_all a ops) (apply_all b ops).
Proof.
  induction ops as [|o ops IH]; intros a b Hu H; [exact H|].
  inversion Hu; subst. unfold apply_all. cbn [fold_left].
  apply IH; [assumption|]. now apply apply_alike.
Qed.

Lemma get_alike_expired k e a b now :
  alike k e a b -> NodeCache.live e now = false -> get a k now = get b k now.
Proof.
  intros (Hc & Hs & Hb & Hd) Hlive.
  assert (Hres : fst (get a k now) = fst (get b k now)).
  { rewrite !get_result, Hb. destruct Hd as [-> | ->].
    - now rewrite Hb.
    - rewrite lookup_insert_eq, Hlive. reflexivity. }
  assert (Hst : snd (get a k now) = snd (get b k now)).
  { apply cache_eq.
    - now rewrite !get_config.
    - now rewrite !get_stdTTL.
    - rewrite !get_content, Hb. destruct Hd as [-> | ->].
      + now rewrite Hb.
      + rewrite lookup_insert_eq, Hlive. now rewrite delete_insert_eq, delete_id. }
  destruct (get a k now), (get b k now). cbn in *. congruence.
Qed.

Lemma set_alike cs k value ttl now :
  ttl <> 0 -> content cs !! k = None ->
  alike k (stored value ttl now) (snd (set cs k value (Some ttl) now)) cs.
Proof.
  intros Httl Hk. split; [reflexivity|]. split; [reflexivity|]. split; [exact Hk|].
  right. now apply set_content.
Qed.

End Cache.

Section CacheClaims.
Import CacheService.
Local Open Scope Z_scope.

Lemma stored_expired value ttl now later :
  0 < ttl -> 0 <= now -> now + ttl * 1000 < later ->
  NodeCache.live (stored value ttl now) later = false.
Proof.
  intros. unfold NodeCache.live, stored. cbn.
  destruct (Z.eqb_spec (now + ttl * 1000) 0); [lia|].
  destruct (Z.leb_spec later (now + ttl * 1000)); [lia | reflexivity].
Qed.

Lemma stored_live value ttl now later :
  later <= now + ttl * 1000 -> NodeCache.live (stored value ttl now) later = true.
Proof.
  intros. unfold NodeCache.live, stored. cbn.
  destruct (Z.leb_spec later (now + ttl * 1000)); [|lia]. apply orb_true_r.
Qed.

(** C5, as the code has it: for a truthy value [v] and [ttl > 0],
    [get(k)] returns [v] after [set(k, v, ttl)] for as long as the
    time-to-live has not elapsed (in particular immediately), and
    returns [null] once it has, whatever was done to other keys in
    between and whether or not the store was swept; the expired read
    returns the same result and leaves the same cache as if [k] had
    never been set. *)
Theorem cache_get_after_set_truthy :
  forall (cs : t) (k : string) (v : jsval) (ttl now : Z)
         (ops : list (Z * op)) (later : Z),
    0 < ttl -> 0 <= now -> truthy v = true -> untouched k ops ->
    let cs' := apply_all (snd (set cs k v (Some ttl) now)) ops in
    fst (get (snd (set cs k v (Some ttl) now)) k now) = v /\
    (Forall (fun o => fst o <= later) ops -> later <= now + ttl * 1000 ->
       fst (get cs' k later) = v) /\
    (now + ttl * 1000 < later ->
       fst (get cs' k later) = JNull /\
       (content cs !! k = None ->
          get cs' k later = get (apply_all cs ops) k later)).
Proof.
  intros cs k v ttl now ops later Httl Hnow Hv Hu cs'.
  assert (Hset : content (snd (set cs k v (Some ttl) now)) !! k = Some (stored v ttl now)).
  { rewrite set_content by lia. apply lookup_insert_eq. }
  split; [|split].
  - rewrite get_result, Hset, stored_live by lia. cbn. now rewrite Hv.
  - intros Hops Hlater. rewrite get_result.
    subst cs'. rewrite (apply_all_keeps ops _ k (stored v ttl now) later); auto.
    rewrite stored_live by assumption. cbn. now rewrite Hv.
  - intros Hlater. split.
    + rewrite get_result. subst cs'.
      destruct (apply_all_same_or_gone ops _ k (stored v ttl now) Hu (or_introl Hset))
        as [-> | ->]; [|reflexivity].
      now rewrite stored_expired.
    + intros Hfresh. subst cs'.
      apply (get_alike_expired k (stored v ttl now)).
      * apply apply_all_alike; [assumption|]. apply set_alike; [lia | assumption].
      * now apply stored_expired.
Qed.

Lemma cache_get_after_set_truthy_witness :
  fst (get (snd (set demo_cache "status_onu1" (JStr "Online") (Some 60) 1000))
           "status_onu1" 1000) = JStr "Online".
Proof.
  refine (proj1 (cache_get_after_set_truthy demo_cache "status_onu1" (JStr "Online")
                   60 1000 [] 1000 _ _ _ _)).
  - lia.
  - lia.
  - reflexivity.
  - constructor.
Defined.

(** C5, as stated, fails: the number 0 stored with a time-to-live of
    60 s is not what [get] returns in the same millisecond. *)
Lemma cache_get_after_set_zero :
  fst (get (snd (set demo_cache "k" (JNum (S754_zero false)) (Some 60) 1000)) "k" 1000)
  <> JNum (S754_zero false).
Proof. rewrite get_result, set_content by lia. rewrite lookup_insert_eq. discriminate. Qed.

(** C10: for [ttl > 0] and a falsy value [v], while the entry of [k]
    is in the store and unexpired, [get(k)] returns [null], which is
    also what it returns for a key that is not in the store; [false],
    0, the empty string and [null] are such values, and for the first
    three the result differs from what was stored. *)
Theorem cache_get_falsy_is_miss :
  forall (cs : t) (k : string) (v : jsval) (ttl now later : Z),
    0 < ttl -> truthy v = false -> now <= later <= now + ttl * 1000 ->
    let cs' := snd (set cs k v (Some ttl) now) in
    (content cs' !! k = Some (stored v ttl now) /\
     NodeCache.live (stored v ttl now) later = true) /\
    fst (get cs' k later) = JNull /\
    (forall cs0, content cs0 !! k = None -> fst (get cs0 k later) = fst (get cs' k later)) /\
    (v <> JNull -> fst (get cs' k later) <> v) /\
    Forall (fun x => truthy x = false)
           [JBool false; JNum (S754_zero false); JStr EmptyString; JNull].
Proof.
  intros cs k v ttl now later Httl Hv Hlater cs'.
  assert (Hset : content cs' !! k = Some (stored v ttl now)).
  { subst cs'. rewrite set_content by lia. apply lookup_insert_eq. }
  assert (Hget : fst (get cs' k later) = JNull).
  { rewrite get_result, Hset. cbn [stored NodeCache.v]. rewrite Hv.
    now rewrite andb_false_r. }
  split; [split; [exact Hset | apply stored_live; lia]|].
  split; [exact Hget|]. split; [|split].
  - intros cs0 H0. now rewrite Hget, get_result, H0.
  - intros Hnn. rewrite Hget. congruence.
  - repeat constructor.
Qed.

Lemma cache_get_falsy_is_miss_witness :
  fst (get (snd (set demo_cache "k" (JBool false) (Some 60) 1000)) "k" 1000) = JNull.
Proof.
  refine (proj1 (proj2 (cache_get_falsy_is_miss demo_cache "k" (JBool false)
                          60 1000 1000 _ _ _))).
  - lia.
  - reflexivity.
  - lia.
Defined.
End CacheClaims.

Section Fingerprint.
Import Onu Routes.

Lemma filters_of_same keys q1 q2 :
  (forall k, In k keys -> get_prop_opt q1 k = get_prop_opt q2 k) ->
  filters_of keys q1 = filters_of keys q2.
Proof.
  intros H. unfold filters_of. f_equal. f_equal.
  apply map_ext_in. intros k Hk. now rewrite (H k Hk).
Qed.

(** C9, as the code has it: the fingerprint is the JSON text of the
    filter object, which lists the keys in the order the object holds
    them.  The route handlers build the filter object key by key in a
    fixed order from the query, so two queries that carry the same
    option/value pairs, in any order, get the same fingerprint, under
    every cache prefix and for both filter shapes. *)
Theorem route_filters_fingerprint_stable :
  forall (prefix : string) (q1 q2 : jsval),
    same_pairs q1 q2 ->
    fingerprint prefix (onus_filters q1) = fingerprint prefix (onus_filters q2) /\
    fingerprint prefix (gps_filters q1) = fingerprint prefix (gps_filters q2) /\
    (forall api s m,
        OnuService.getAllOnusWithDetails api s (onus_filters q1) m =
        OnuService.getAllOnusWithDetails api s (onus_filters q2) m /\
        OnuServiceB.getAllOnusWithDetails api s (onus_filters q1) m =
        OnuServiceB.getAllOnusWithDetails api s (onus_filters q2) m).
Proof.
  intros prefix q1 q2 H.
  assert (H5 : onus_filters q1 = onus_filters q2)
    by (apply filters_of_same; intros k _; apply H).
  assert (H4 : gps_filters q1 = gps_filters q2)
    by (apply filters_of_same; intros k _; apply H).
  rewrite H5, H4. repeat split.
Qed.

Lemma same_pairs_query_a_b : same_pairs query_a query_b.
Proof.
  intros k. unfold query_a, query_b. cbn.
  destruct (String.eqb_spec k "olt_id") as [->|]; [reflexivity|].
  destruct (String.eqb_spec k "zone"); reflexivity.
Qed.

Lemma route_filters_fingerprint_stable_witness :
  fingerprint "all_onus_" (onus_filters query_a) =
  fingerprint "all_onus_" (onus_filters query_b).
Proof.
  exact (proj1 (route_filters_fingerprint_stable "all_onus_" query_a query_b
                  same_pairs_query_a_b)).
Defined.

(** C9, as stated, fails: two filter objects with the same two pairs in
    opposite key order have different fingerprints, so the second one
    misses the cache entry of the first. *)
Lemma fingerprint_depends_on_key_order :
  same_pairs query_a query_b /\
  fingerprint "all_onus_" query_a <> fingerprint "all_onus_" query_b.
Proof. split; [exact same_pairs_query_a_b | discriminate]. Qed.

Example fingerprint_query_a :
  fingerprint "all_onus_" query_a =
  "all_onus_{" +:+ dquote +:+ "olt_id" +:+ dquote +:+ ":" +:+ dquote +:+ "1" +:+ dquote +:+
  "," +:+ dquote +:+ "zone" +:+ dquote +:+ ":" +:+ dquote +:+ "A" +:+ dquote +:+ "}".
Proof. reflexivity. Qed.
End Fingerprint.

Section Location.
Import Onu.

(** C7, on the code of [src/services/onuService.js]: [getOnusWithGps]
    of this revision maps every device of the GPS endpoint to a record
    and filters nothing.  Of four devices with the coordinates (0,0),
    (abc,12), (-7.1, missing) and (-7.1,110.8), all four are listed,
    the first with latitude and longitude 0 and the next two with a
    NaN coordinate; the other revision lists the fourth only. *)
Theorem getOnusWithGps_lists_unlocated_devices :
  let listing :=
    fst (OnuService.getOnusWithGps (gps_api four_devices) demo_service
           (JObj []) demo_moments) in
  ids_of listing = [JStr "onu1"; JStr "onu2"; JStr "onu3"; JStr "onu4"] /\
  (exists rest,
      listing =
        Return (JArr (JObj [("unique_external_id", JStr "onu1");
                            ("latitude", JNum (S754_zero false));
                            ("longitude", JNum (S754_zero false));
                            ("status", JStr "Offline");
                            ("status_color", JStr "#6c757d");
                            ("raw_status", JUndefined)] :: rest))) /\
  ids_of (fst (OnuServiceB.getOnusWithGps (details_api four_devices) demo_service
                 (JObj []) demo_moments)) = [JStr "onu4"].
Proof. cbv zeta. split; [|split; [eexists|]]; vm_compute; reflexivity. Qed.

Lemma num_eq_zero x : num_eq x (S754_zero false) = is_zero x.
Proof. destruct x as [s|s| |s m e]; try destruct s; reflexivity. Qed.

Lemma has_gps_object fields :
  OnuServiceB.has_gps (JObj fields) = Return (located (JObj fields)).
Proof.
  unfold OnuServiceB.has_gps, located, usable, OnuServiceB.coordinate.
  cbn [get_prop get_prop_opt mbind outcome_bind bind].
  set (lat := default JUndefined (lookup_field "latitude" fields)).
  set (lng := default JUndefined (lookup_field "longitude" fields)).
  f_equal.
  destruct (truthy lat), (truthy lng); cbn [andb]; try reflexivity.
  - rewrite !num_eq_zero. cbn [truthy].
    destruct (is_nan (parseFloat lat)), (is_zero (parseFloat lat)),
             (is_nan (parseFloat lng)), (is_zero (parseFloat lng)); reflexivity.
  - now rewrite andb_false_r.
Qed.

Lemma filter_has_gps devices :
  Forall well_formed_device devices ->
  filter_outcome OnuServiceB.has_gps devices = Return (List.filter located devices).
Proof.
  induction 1 as [|onu devices (fields & r & -> & _) _ IH]; [reflexivity|].
  cbn [filter_outcome List.filter]. rewrite has_gps_object, IH.
  cbn [mbind outcome_bind bind]. now destruct (located (JObj fields)).
Qed.

Lemma lookup_set_field_ne k k' v fs :
  k <> k' -> lookup_field k (set_field k' v fs) = lookup_field k fs.
Proof.
  intros Hne. induction fs as [|[k0 v0] fs IH]; cbn.
  - destruct (String.eqb_spec k k'); [contradiction | reflexivity].
  - destruct (String.eqb_spec k' k0) as [->|]; cbn.
    + destruct (String.eqb_spec k k0); [contradiction | reflexivity].
    + now rewrite IH.
Qed.

Lemma determineOnuStatusB_raw r :
  exists st, OnuServiceB.determineOnuStatus (raw r) = Return st.
Proof.
  unfold OnuServiceB.determineOnuStatus.
  destruct r as [s| |]; cbn [raw truthy negb]; [|eauto..].
  destruct s; cbn [negb]; [eauto|].
  repeat match goal with |- context [if ?b then _ else _] => destruct b end; eauto.
Qed.

Lemma remember_status_object fields status m s :
  exists s', remember_status (JObj fields) status m s = (Return tt, s').
Proof.
  unfold remember_status. cbn [get_prop].
  destruct (CacheService.get _ _ _) as [oldStatus c1].
  destruct (truthy oldStatus && negb (strict_eq oldStatus (JStr status))).
  - rewrite trackStatusChange_object. eauto.
  - eauto.
Qed.

(** The record made of a well-formed device keeps its identity. *)
Lemma locate_onu_object m onu s :
  well_formed_device onu ->
  exists record s',
    OnuServiceB.locate_onu m onu s = (Return record, s') /\
    get_prop_opt record "unique_external_id" = get_prop_opt onu "unique_external_id".
Proof.
  intros (fields & r & -> & Hr). unfold OnuServiceB.locate_onu.
  cbn [get_prop mbind outcome_bind bind]. cbn [get_prop_opt] in Hr. rewrite Hr.
  destruct (determineOnuStatusB_raw r) as [st ->].
  cbn [mbind outcome_bind bind].
  destruct (remember_status_object fields st m s) as [s' ->].
  eexists _, s'. split; [reflexivity|].
  cbn [get_prop_opt spread set_fields fold_left fst snd].
  now rewrite !lookup_set_field_ne by discriminate.
Qed.

Lemma map_locate_onu m devices : forall s,
  Forall well_formed_device devices ->
  exists records s',
    map_state (OnuServiceB.locate_onu m) devices s = (Return records, s') /\
    List.map (fun r => get_prop_opt r "unique_external_id") records =
    List.map (fun d => get_prop_opt d "unique_external_id") devices.
Proof.
  induction devices as [|onu devices IH]; intros s Hwf.
  - exists [], s. split; reflexivity.
  - inversion Hwf as [|? ? Honu Hrest]; subst.
    destruct (locate_onu_object m onu s Honu) as (record & s1 & Hloc & Hid).
    destruct (IH s1 Hrest) as (records & s2 & Hmap & Hids).
    exists (record :: records), s2. cbn [map_state]. rewrite Hloc, Hmap.
    split; [reflexivity|]. cbn [List.map]. now rewrite Hid, Hids.
Qed.

Lemma filter_well_formed (f : jsval -> bool) devices :
  Forall well_formed_device devices -> Forall well_formed_device (List.filter f devices).
Proof.
  induction 1 as [|onu devices H _ IH]; cbn; [constructor|].
  destruct (f onu); [constructor|]; assumption.
Qed.

(** In the second revision, on a cache miss and a well-formed answer of
    the details endpoint, the listing holds exactly the devices whose
    two coordinates are present, numeric and not zero, in the order of
    the answer. *)
Theorem getOnusWithGpsB_lists_located_devices :
  forall (api : api_t) (s : t) (filters : jsval) (m : moments) (devices : list jsval),
    fst (CacheService.get (cache s) (fingerprint "onus_gps_" filters) (checked m)) = JNull ->
    getAllOnusDetails api filters = Return (ok_response "onus" (JArr devices)) ->
    Forall well_formed_device devices ->
    ids_of (fst (OnuServiceB.getOnusWithGps api s filters m)) =
    List.map (fun d => get_prop_opt d "unique_external_id") (List.filter located devices) /\
    succeeded (fst (OnuServiceB.getOnusWithGps api s filters m)) = true.
Proof.
  intros api s filters m devices Hmiss Hfetch Hwf.
  unfold OnuServiceB.getOnusWithGps.
  destruct (CacheService.get _ _ _) as [cached c]. cbn [fst] in Hmiss. subst cached.
  cbn [truthy]. rewrite Hfetch.
  cbn [mbind outcome_bind bind ok_response get_prop lookup_field String.eqb
       Ascii.eqb Bool.eqb default from_option id truthy negb orb as_array].
  rewrite (filter_has_gps _ Hwf).
  destruct (map_locate_onu m (List.filter located devices) (with_cache s c)
              (filter_well_formed _ _ Hwf)) as (records & s' & -> & Hids).
  cbn [fst ids_of succeeded]. now split.
Qed.

(** What the second revision excludes and includes, coordinate by
    coordinate. *)
Lemma located_cases (onu : jsval) :
  let lat := get_prop_opt onu "latitude" in
  let lng := get_prop_opt onu "longitude" in
  (truthy lat = false \/ truthy lng = false -> located onu = false) /\
  (is_nan (parseFloat lat) = true \/ is_nan (parseFloat lng) = true ->
     located onu = false) /\
  (is_zero (parseFloat lat) = true \/ is_zero (parseFloat lng) = true ->
     located onu = false) /\
  located (device "a" (JStr "0") (JStr "0")) = false /\
  located (device "b" (JStr "abc") (JStr "12")) = false /\
  located (device "c" (JStr "-7.1") JUndefined) = false /\
  located (device "d" (JStr "-7.1") (JStr "110.8")) = true.
Proof.
  cbv zeta. split; [|split; [|split]].
  - unfold located, usable.
    intros [-> | ->]; [reflexivity | now rewrite andb_false_r].
  - unfold located, usable.
    intros [-> | ->]; rewrite ?andb_false_r; reflexivity.
  - unfold located, usable.
    intros [-> | ->]; rewrite ?andb_false_r; reflexivity.
  - evaluate.
Qed.
End Location.

Section Lookup.
Import Onu.

(** C8, on the code of [src/services/onuService.js]: the detail request
    and the status request of device [onu1] succeed and the signal
    request fails (the upstream answers it with a failure envelope, so
    [makeRequest] throws); [getOnuById] of this revision awaits the
    three requests together and fails as a whole.  The other revision,
    on the same upstream, returns the record with a [null] signal. *)
Theorem getOnuById_fails_with_signal :
  let api := device_api signal_down_service demo_timing in
  succeeded (getOnuDetails api (JStr "onu1")) = true /\
  succeeded (getOnuStatus api (JStr "onu1")) = true /\
  getOnuSignal api (JStr "onu1") = Throw (Error "ONU signal not available") /\
  fst (OnuService.getOnuById api demo_service (JStr "onu1") demo_moments) =
    Throw (Error "ONU signal not available") /\
  fst (OnuServiceB.getOnuById api demo_service (JStr "onu1") demo_moments) =
    Return (JObj [("unique_external_id", JStr "onu1");
                  ("name", JStr "Test");
                  ("status", JStr "Online");
                  ("status_color", JStr "#28a745");
                  ("raw_status", JStr "Online");
                  ("signal", JNull)]).
Proof. cbv zeta. evaluate. Qed.

Lemma lookup_set_field_eq k v fs : lookup_field k (set_field k v fs) = Some v.
Proof.
  induction fs as [|[k0 v0] fs IH]; cbn.
  - now rewrite String.eqb_refl.
  - destruct (String.eqb_spec k k0) as [->|Hne]; cbn.
    + now rewrite String.eqb_refl.
    + destruct (String.eqb_spec k k0); [contradiction | exact IH].
Qed.

(** In the second revision, on a cache miss, the lookup of a device
    whose detail request returns a well-formed record succeeds whatever
    the signal request does; when the signal request fails, the record
    returned has a [null] signal. *)
Theorem getOnuByIdB_tolerates_signal_failure :
  forall (api : api_t) (s : t) (externalId : jsval) (m : moments) (onu : jsval),
    fst (CacheService.get (cache s) ("onu_detail_" +:+ to_string externalId) (checked m))
      = JNull ->
    getOnuDetails api externalId = Return (ok_response "onu_details" onu) ->
    well_formed_device onu ->
    (forall signalResponse, getOnuSignal api externalId = Return signalResponse ->
       exists fields, signalResponse = JObj fields) ->
    exists result,
      fst (OnuServiceB.getOnuById api s externalId m) = Return (JObj result) /\
      (forall e, getOnuSignal api externalId = Throw e ->
         lookup_field "signal" result = Some JNull).
Proof.
  intros api s externalId m onu Hmiss Hfetch (fields & r & -> & Hr) Hsig.
  unfold OnuServiceB.getOnuById.
  destruct (CacheService.get _ _ _) as [cached c]. cbn [fst] in Hmiss. subst cached.
  cbn [truthy]. rewrite Hfetch. cbn [get_prop_opt] in Hr.
  destruct (determineOnuStatusB_raw r) as [st Hst].
  destruct (getOnuSignal api externalId) as [signalResponse|e] eqn:Esig.
  - destruct (Hsig _ eq_refl) as [sfields ->].
    cbn [OnuServiceB.catch_status_false OnuServiceB.all2 mbind outcome_bind bind
         ok_response get_prop lookup_field String.eqb Ascii.eqb Bool.eqb
         default from_option id truthy negb].
    rewrite Hr, Hst. cbn [mbind outcome_bind bind fst].
    eexists. split; [reflexivity | discriminate].
  - cbn [OnuServiceB.catch_status_false OnuServiceB.all2 mbind outcome_bind bind
         ok_response get_prop lookup_field String.eqb Ascii.eqb Bool.eqb
         default from_option id truthy negb].
    rewrite Hr, Hst. cbn [mbind outcome_bind bind fst].
    eexists. split; [reflexivity|]. intros _ _.
    cbn [set_fields fold_left fst snd spread]. apply lookup_set_field_eq.
Qed.
End Lookup.

(** Proves a property of every item of a closed list by evaluating it
  item by item. *)
Ltac each_item :=
repeat (apply List.Forall_cons; [vm_compute; reflexivity|]); apply List.Forall_nil.

Section Quota.
Import RateLimiter Request.
Local Open Scope Z_scope.

(** X1: what [getRemainingCalls] reports agrees with the decision of
    [canCallEndpoint] at the same instant: a call of a restricted
    class is allowed exactly when the number of remaining calls is
    positive; that number never exceeds the limit, and both methods
    leave the same pruned lists behind. *)
Theorem getRemainingCalls_agrees_with_canCallEndpoint :
  forall (rl : RateLimiter.t) (endpointType : string) (now : Z),
    restricted endpointType = true ->
    exists remaining,
      fst (getRemainingCalls rl endpointType now) = Some remaining /\
      remaining <= limit_of rl endpointType /\
      (allowed (fst (canCallEndpoint rl endpointType now)) = true <-> 0 < remaining) /\
      snd (getRemainingCalls rl endpointType now) = snd (canCallEndpoint rl endpointType now).
Proof.
  intros rl ty now Hr. unfold getRemainingCalls, canCallEndpoint. rewrite Hr.
  cbn [negb fst snd]. eexists. split; [reflexivity|].
  set (kept := prune now (counts rl ty)).
  split; [lia|].
  destruct (Z.leb_spec (limit_of rl ty) (Z.of_nat (length kept))) as [Hc|Hc].
  - destruct kept; cbn [fst snd allowed]; (split; [split; [discriminate | lia] | reflexivity]).
  - cbn [fst snd allowed]. split; [split; [lia | reflexivity] | reflexivity].
Qed.

Lemma getRemainingCalls_agrees_with_canCallEndpoint_witness :
  exists remaining,
    fst (getRemainingCalls (recordCalls (RateLimiter.new demo_limits) "gps" [1000; 2000])
           "gps" 3000) = Some remaining /\
    remaining <= 3.
Proof.
  destruct (getRemainingCalls_agrees_with_canCallEndpoint
              (recordCalls (RateLimiter.new demo_limits) "gps" [1000; 2000])
              "gps" 3000 eq_refl) as (remaining & H1 & H2 & _).
  exists remaining. split; [exact H1 | exact H2].
Defined.

Lemma prune_app now l1 l2 : prune now (l1 ++ l2) = prune now l1 ++ prune now l2.
Proof. unfold prune. apply List.filter_app. Qed.

(** X2: a recorded call of a restricted class costs exactly one of the
    remaining calls of that class, for exactly 60 minutes: a report
    asked for less than an hour after the recorded instant is one
    lower than it would have been, a report asked for an hour after it
    or later is the same. *)
Theorem recordCall_costs_one_call_for_an_hour :
  forall (rl : RateLimiter.t) (endpointType : string) (now later : Z),
    restricted endpointType = true ->
    exists remaining,
      fst (getRemainingCalls rl endpointType later) = Some remaining /\
      (later - hour < now ->
         fst (getRemainingCalls (recordCall rl endpointType now) endpointType later)
           = Some (remaining - 1)) /\
      (now + hour <= later ->
         fst (getRemainingCalls (recordCall rl endpointType now) endpointType later)
           = Some remaining).
Proof.
  intros rl ty now later Hr. unfold getRemainingCalls. rewrite Hr.
  cbn [negb fst]. eexists. split; [reflexivity|].
  rewrite recordCall_counts, recordCall_limit, prune_app, length_app by assumption.
  change (prune later [now]) with (if later - hour <? now then [now] else []).
  split; intros H.
  - destruct (Z.ltb_spec (later - hour) now); [|lia]. cbn [length]. f_equal. clear. lia.
  - destruct (Z.ltb_spec (later - hour) now); [lia|]. cbn [length]. f_equal. clear. lia.
Qed.

Lemma recordCall_costs_one_call_for_an_hour_witness :
  exists remaining,
    fst (getRemainingCalls (RateLimiter.new demo_limits) "details" 5000) = Some remaining /\
    fst (getRemainingCalls (recordCall (RateLimiter.new demo_limits) "details" 4000)
           "details" 5000) = Some (remaining - 1).
Proof.
  destruct (recordCall_costs_one_call_for_an_hour
              (RateLimiter.new demo_limits) "details" 4000 5000 eq_refl)
    as (remaining & H1 & H2 & _).
  exists remaining. split; [exact H1|]. apply H2. unfold hour. lia.
Defined.

(** X3: the two restricted classes do not touch each other, and a class
    that is not restricted touches nothing: recording, checking and
    reporting under one name leave the list of every other class as it
    was. *)
Theorem quota_classes_are_independent :
  forall (rl : RateLimiter.t) (endpointType : string) (now : Z),
    (endpointType <> "gps" ->
       gps (callCounts (recordCall rl endpointType now)) = gps (callCounts rl) /\
       gps (callCounts (snd (canCallEndpoint rl endpointType now))) = gps (callCounts rl) /\
       gps (callCounts (snd (getRemainingCalls rl endpointType now))) = gps (callCounts rl)) /\
    (endpointType <> "details" ->
       details (callCounts (recordCall rl endpointType now)) = details (callCounts rl) /\
       details (callCounts (snd (canCallEndpoint rl endpointType now)))
         = details (callCounts rl) /\
       details (callCounts (snd (getRemainingCalls rl endpointType now)))
         = details (callCounts rl)) /\
    (restricted endpointType = false ->
       recordCall rl endpointType now = rl /\
       canCallEndpoint rl endpointType now = (Allowed, rl) /\
       getRemainingCalls rl endpointType now = (None, rl)).
Proof.
  intros rl ty now. unfold recordCall, canCallEndpoint, getRemainingCalls, restricted.
  split; [|split].
  - intros Hne. apply String.eqb_neq in Hne. rewrite Hne. cbn [orb].
    destruct (String.eqb ty "details") eqn:Hd; cbn [negb snd]; [|auto].
    unfold set_counts. rewrite Hne.
    destruct (_ <=? _); [destruct (prune now _)|]; auto.
  - intros Hne. apply String.eqb_neq in Hne. rewrite Hne. rewrite orb_false_r.
    destruct (String.eqb ty "gps") eqn:Hg; cbn [negb snd]; [|auto].
    apply String.eqb_eq in Hg. subst ty.
    destruct (_ <=? _); [destruct (prune now _)|]; auto.
  - intros ->. auto.
Qed.

Lemma quota_classes_are_independent_witness :
  details (callCounts (recordCall (RateLimiter.new demo_limits) "gps" 1000)) = [] /\
  recordCall (RateLimiter.new demo_limits) "normal" 1000 = RateLimiter.new demo_limits.
Proof.
  destruct (quota_classes_are_independent (RateLimiter.new demo_limits) "gps" 1000)
    as (_ & Hd & _).
  destruct (quota_classes_are_independent (RateLimiter.new demo_limits) "normal" 1000)
    as (_ & _ & Hn).
  split.
  - destruct Hd as [Hd _]; [discriminate | exact Hd].
  - destruct Hn as [Hn _]; [reflexivity | exact Hn].
Defined.
End Quota.

Section Requests.
Import RateLimiter Request.
Local Open Scope Z_scope.

Local Ltac split_ifs :=
  repeat match goal with
         | |- context [if ?b then _ else _] => destruct b
         | |- context [match ?l with [] => _ | _ :: _ => _ end] => destruct l
         end.

(** No request changes the limits of the rate limiter. *)
Lemma attempt_limits api endpoint params ty tm ty' :
  limit_of (snd (ApiService.attempt api endpoint params ty tm)) ty' =
  limit_of (ApiService.rateLimiter api) ty'.
Proof.
  unfold ApiService.attempt, canCallEndpoint, recordCall, waitForNextCall.
  destruct (ApiService.key_missing api); [reflexivity|].
  destruct (negb (ty =? "normal")%string); [destruct (negb (restricted ty))|];
    cbn [fst snd]; split_ifs; cbn [fst snd];
    destruct (ApiService.client_get api endpoint params); reflexivity.
Qed.

Lemma restricted_cases ty : restricted ty = true -> ty = "gps"%string \/ ty = "details"%string.
Proof.
  unfold restricted. intros H. apply orb_true_iff in H.
  destruct H as [H|H]; apply String.eqb_eq in H; auto.
Qed.

Lemma counts_set_counts_other rl ty ty' l :
  restricted ty = true -> restricted ty' = true -> ty' <> ty ->
  counts (set_counts rl ty' l) ty = counts rl ty.
Proof.
  intros H H' Hne.
  destruct (restricted_cases _ H) as [-> | ->],
           (restricted_cases _ H') as [-> | ->];
    solve [contradiction | reflexivity].
Qed.

Lemma canCallEndpoint_counts_other rl ty ty' now :
  restricted ty = true -> ty' <> ty ->
  counts (snd (canCallEndpoint rl ty' now)) ty = counts rl ty.
Proof.
  intros H Hne. unfold canCallEndpoint.
  destruct (restricted ty') eqn:H'; cbn [negb]; [|reflexivity].
  split_ifs; cbn [snd]; now apply counts_set_counts_other.
Qed.

Lemma recordCall_counts_other rl ty ty' now :
  restricted ty = true -> ty' <> ty ->
  counts (recordCall rl ty' now) ty = counts rl ty.
Proof.
  intros H Hne. unfold recordCall.
  destruct (restricted ty') eqn:H'; [|reflexivity].
  now apply counts_set_counts_other.
Qed.

(** A request of one class leaves the list of the other class alone. *)
Lemma attempt_counts_other api endpoint params ty ty' tm :
  restricted ty = true -> ty' <> ty ->
  counts (snd (ApiService.attempt api endpoint params ty' tm)) ty =
  counts (ApiService.rateLimiter api) ty.
Proof.
  intros H Hne. unfold ApiService.attempt.
  destruct (ApiService.key_missing api); [reflexivity|].
  destruct (negb (ty' =? "normal")%string).
  - pose proof (canCallEndpoint_counts_other (ApiService.rateLimiter api) ty ty'
                  (entered tm) H Hne) as Hc.
    destruct (canCallEndpoint _ ty' _) as [[|w r] rl1]; cbn [snd] in *; [|exact Hc].
    unfold waitForNextCall.
    destruct (ApiService.client_get api endpoint params); cbn [snd].
    + rewrite recordCall_counts_other by assumption. exact Hc.
    + exact Hc.
  - unfold waitForNextCall.
    destruct (ApiService.client_get api endpoint params); reflexivity.
Qed.

Lemma canCallEndpoint_allowed rl ty now :
  restricted ty = true ->
  allowed (fst (canCallEndpoint rl ty now)) = true ->
  Z.of_nat (length (prune now (counts rl ty))) < limit_of rl ty.
Proof.
  intros Hr. unfold canCallEndpoint. rewrite Hr. cbn [negb].
  destruct (Z.leb_spec (limit_of rl ty) (Z.of_nat (length (prune now (counts rl ty)))));
    [|intros _; assumption].
  destruct (prune now (counts rl ty)); discriminate.
Qed.

(** One request keeps the list of every restricted class within the
    limit of the class. *)
Lemma attempt_within_quota api endpoint params ty' tm ty :
  restricted ty = true ->
  Z.of_nat (length (counts (ApiService.rateLimiter api) ty))
    <= Z.max 0 (limit_of (ApiService.rateLimiter api) ty) ->
  Z.of_nat (length (counts (snd (ApiService.attempt api endpoint params ty' tm)) ty))
    <= Z.max 0 (limit_of (ApiService.rateLimiter api) ty).
Proof.
  intros Hr Hin.
  destruct (String.eqb_spec ty' ty) as [->|Hne].
  - rewrite (attempt_counts _ _ _ _ _ Hr).
    pose proof (prune_length (entered tm) (counts (ApiService.rateLimiter api) ty)).
    destruct (ApiService.key_missing api); [assumption|].
    destruct (allowed _) eqn:Ha; [|lia].
    apply canCallEndpoint_allowed in Ha; [|assumption].
    destruct (ApiService.client_get api endpoint params); [|lia].
    rewrite length_app. cbn [length]. lia.
  - now rewrite attempt_counts_other.
Qed.

Lemma serve_within_quota rs : forall api ty,
  restricted ty = true ->
  Z.of_nat (length (counts (ApiService.rateLimiter api) ty))
    <= Z.max 0 (limit_of (ApiService.rateLimiter api) ty) ->
  limit_of (ApiService.rateLimiter (serve api rs)) ty
    = limit_of (ApiService.rateLimiter api) ty /\
  Z.of_nat (length (counts (ApiService.rateLimiter (serve api rs)) ty))
    <= Z.max 0 (limit_of (ApiService.rateLimiter api) ty).
Proof.
  induction rs as [|r rs IH]; intros api ty Hr Hin; [now split|].
  unfold serve. cbn [fold_left].
  set (api1 := snd (ApiService.makeRequest _ _ _ _ _)).
  assert (Hl : limit_of (ApiService.rateLimiter api1) ty
               = limit_of (ApiService.rateLimiter api) ty).
  { subst api1. rewrite makeRequest_limiter.
    exact (attempt_limits (answering api (answer r)) _ _ _ _ ty). }
  assert (Hc : Z.of_nat (length (counts (ApiService.rateLimiter api1) ty))
               <= Z.max 0 (limit_of (ApiService.rateLimiter api1) ty)).
  { rewrite Hl. subst api1. rewrite makeRequest_limiter.
    now apply (attempt_within_quota (answering api (answer r))). }
  destruct (IH api1 ty Hr Hc) as [IH1 IH2]. fold (serve api1 rs).
  rewrite Hl in IH1, IH2. split; assumption.
Qed.

(** X5: requests made in turn through [makeRequest], of whatever classes,
    at whatever instants and with whatever answers of the upstream,
    never leave more instants in the list of a restricted class than
    the limit of the class; so the number of remaining calls reported
    afterwards lies between 0 and the limit. *)
Theorem requests_in_turn_stay_within_quota :
  forall (api : ApiService.t) (rs : list request) (endpointType : string) (now : Z),
    restricted endpointType = true ->
    counts (ApiService.rateLimiter api) endpointType = [] ->
    0 <= limit_of (ApiService.rateLimiter api) endpointType ->
    let rl := ApiService.rateLimiter (serve api rs) in
    limit_of rl endpointType = limit_of (ApiService.rateLimiter api) endpointType /\
    Z.of_nat (length (counts rl endpointType)) <= limit_of rl endpointType /\
    exists remaining,
      fst (getRemainingCalls rl endpointType now) = Some remaining /\
      0 <= remaining <= limit_of rl endpointType.
Proof.
  intros api rs ty now Hr Hempty Hlimit rl.
  destruct (serve_within_quota rs api ty Hr) as [Hl Hc].
  { rewrite Hempty. cbn [length]. lia. }
  fold rl in Hl, Hc. split; [exact Hl|]. split; [lia|].
  unfold getRemainingCalls. rewrite Hr. cbn [negb fst].
  eexists. split; [reflexivity|].
  pose proof (prune_length now (counts rl ty)). lia.
Qed.

Lemma requests_in_turn_stay_within_quota_witness :
  exists remaining,
    fst (getRemainingCalls
           (ApiService.rateLimiter
              (serve (service_over failing_client)
                 [{| endpoint := "/onu/get_all_onus_gps_coordinates";
                     params := JObj [];
                     endpointType := "gps";
                     answer := Return (JObj [("data", ok_response "onus" (JArr []))]);
                     at_time := demo_timing |}]))
           "gps" 20000) = Some remaining /\
    0 <= remaining <= 3.
Proof.
  destruct (requests_in_turn_stay_within_quota
              (service_over failing_client)
              [{| endpoint := "/onu/get_all_onus_gps_coordinates";
                  params := JObj [];
                  endpointType := "gps";
                  answer := Return (JObj [("data", ok_response "onus" (JArr []))]);
                  at_time := demo_timing |}]
              "gps" 20000 eq_refl eq_refl)
    as (_ & _ & remaining & H1 & H2).
  - vm_compute. discriminate.
  - exists remaining. split; [exact H1 | exact H2].
Defined.

(** ** What [makeRequest] returns and throws *)

Lemma validate_returns response data :
  ApiService.validate response = Return data ->
  get_prop response "data" = Return data /\
  truthy data = true /\
  exists status, get_prop data "status" = Return status /\
                 strict_eq status (JBool false) = false.
Proof.
  unfold ApiService.validate.
  destruct (get_prop response "data") as [d|] eqn:Hd; cbn [mbind outcome_bind bind];
    [|discriminate].
  destruct (truthy d) eqn:Ht; cbn [negb]; [|discriminate].
  destruct (get_prop d "status") as [st|] eqn:Hst; cbn [mbind outcome_bind bind];
    [|discriminate].
  destruct (strict_eq st (JBool false)) eqn:Hs.
  - destruct (get_prop d "error") as [err|]; cbn [mbind outcome_bind bind];
      [|discriminate].
    destruct (or_else err (JStr "API returned error status")); try discriminate.
    destruct (includes _ _); discriminate.
  - intros [= <-]. split; [reflexivity|]. split; [exact Ht|]. exists st. now split.
Qed.

Lemma validateB_returns response data :
  ApiServiceB.validate response = Return data ->
  get_prop response "data" = Return data /\
  truthy data = true /\
  exists status, get_prop data "status" = Return status /\
                 strict_eq status (JBool false) = false.
Proof.
  unfold ApiServiceB.validate.
  destruct (get_prop response "data") as [d|] eqn:Hd; cbn [mbind outcome_bind bind];
    [|discriminate].
  destruct (truthy d) eqn:Ht; cbn [negb]; [|discriminate].
  destruct (get_prop d "status") as [st|] eqn:Hst; cbn [mbind outcome_bind bind];
    [|discriminate].
  destruct (strict_eq st (JBool false)) eqn:Hs.
  - destruct (get_prop d "error") as [err|]; cbn [mbind outcome_bind bind]; discriminate.
  - intros [= <-]. split; [reflexivity|]. split; [exact Ht|]. exists st. now split.
Qed.

(** X6: whatever [makeRequest] returns, in either revision, is the [data]
    of an HTTP response that the upstream did deliver: it is truthy and
    its [status] is not [false].  In the first revision this also
    means that the key is configured. *)
Theorem makeRequest_returns_validated_data :
  forall (endpoint : string) (params : jsval) (endpointType : string) (tm : timing)
         (data : jsval),
    (forall api : ApiService.t,
        fst (ApiService.makeRequest api endpoint params endpointType tm) = Return data ->
        ApiService.key_missing api = false /\
        exists response status,
          ApiService.client_get api endpoint params = Return response /\
          get_prop response "data" = Return data /\
          truthy data = true /\
          get_prop data "status" = Return status /\
          strict_eq status (JBool false) = false) /\
    (forall api : ApiServiceB.t,
        fst (ApiServiceB.makeRequest api endpoint params endpointType tm) = Return data ->
        exists response status,
          ApiServiceB.client_get api endpoint params = Return response /\
          get_prop response "data" = Return data /\
          truthy data = true /\
          get_prop data "status" = Return status /\
          strict_eq status (JBool false) = false).
Proof.
  intros endpoint params ty tm data. split; intros api.
  - unfold ApiService.makeRequest, ApiService.attempt.
    destruct (ApiService.key_missing api); [discriminate|].
    destruct (if negb (ty =? "normal")%string then _ else _) as [[|w r] rl1];
      [|discriminate].
    destruct (waitForNextCall _ _ _) as [rl2 sent].
    destruct (ApiService.client_get api endpoint params) as [response|e];
      [|discriminate].
    cbn [fst]. destruct (ApiService.validate response) as [d|] eqn:Hv; [|discriminate].
    intros [= ->]. split; [reflexivity|].
    destruct (validate_returns _ _ Hv) as (H1 & H2 & st & H3 & H4).
    exists response, st. auto.
  - unfold ApiServiceB.makeRequest, ApiServiceB.attempt.
    destruct (if negb (ty =? "normal")%string then _ else _) as [[|w r] rl1];
      [|discriminate].
    destruct (waitForNextCall _ _ _) as [rl2 sent].
    destruct (ApiServiceB.client_get api endpoint params) as [response|e];
      [|discriminate].
    cbn [fst]. destruct (ApiServiceB.validate response) as [d|] eqn:Hv; [|discriminate].
    intros [= ->].
    destruct (validateB_returns _ _ Hv) as (H1 & H2 & st & H3 & H4).
    exists response, st. auto.
Qed.

Lemma makeRequest_returns_validated_data_witness :
  exists response,
    ApiService.client_get signal_down_service "/onu/get_onu_status/onu1" (JObj [])
      = Return response /\
    get_prop response "data" = Return (ok_response "onu_status" (JStr "Online")).
Proof.
  destruct (makeRequest_returns_validated_data
              "/onu/get_onu_status/onu1" (JObj []) "normal" demo_timing
              (ok_response "onu_status" (JStr "Online"))) as [H _].
  destruct (H signal_down_service eq_refl) as (_ & response & status & H1 & H2 & _).
  exists response. split; [exact H1 | exact H2].
Defined.

Lemma makeRequest_normal_counts api endpoint params tm :
  callCounts (ApiService.rateLimiter
                (snd (ApiService.makeRequest api endpoint params "normal" tm)))
  = callCounts (ApiService.rateLimiter api).
Proof.
  rewrite makeRequest_limiter. unfold ApiService.attempt.
  destruct (ApiService.key_missing api); [reflexivity|].
  cbn [String.eqb Ascii.eqb Bool.eqb negb andb]. unfold waitForNextCall.
  destruct (ApiService.client_get api endpoint params); reflexivity.
Qed.

(** X7: the requests of the unrestricted class spend no quota: the ten
    methods that do not name a class, and [testConnection], leave the
    lists of recorded instants of both restricted classes exactly as
    they were, whatever the upstream answers. *)
Theorem unrestricted_requests_spend_no_quota :
  forall (api : ApiService.t) (tm : timing) (id params : jsval),
    let unchanged (result : outcome jsval * ApiService.t) :=
      callCounts (ApiService.rateLimiter (snd result))
      = callCounts (ApiService.rateLimiter api) in
    unchanged (ApiService.getOdbs api params tm) /\
    unchanged (ApiService.getOdbById api id tm) /\
    unchanged (ApiService.getOltsList api tm) /\
    unchanged (ApiService.getOnuStatuses api params tm) /\
    unchanged (ApiService.getOnuStatus api id tm) /\
    unchanged (ApiService.getOnuDetails api id tm) /\
    unchanged (ApiService.getOnuSignal api id tm) /\
    unchanged (ApiService.getOltPonPortsDetails api id tm) /\
    unchanged (ApiService.getOnuAdministrativeStatus api id tm) /\
    unchanged (ApiService.getOnusDetailsBySn api id tm) /\
    unchanged (ApiService.testConnection api tm).
Proof.
  intros api tm id params unchanged. subst unchanged. cbv beta.
  repeat match goal with |- _ /\ _ => split end;
    try apply makeRequest_normal_counts.
  unfold ApiService.testConnection.
  pose proof (makeRequest_normal_counts api "/system/get_olts" (JObj []) tm) as H.
  unfold ApiService.getOltsList.
  destruct (ApiService.makeRequest api "/system/get_olts" (JObj []) "normal" tm).
  exact H.
Qed.

Lemma get_prop_throws v k e : get_prop v k = Throw e -> nullish e = false.
Proof. destruct v; cbn [get_prop]; intros [= <-]; reflexivity. Qed.

Lemma rethrow_not_nullish api endpoint e :
  nullish e = false -> nullish (ApiService.rethrow api endpoint e) = false.
Proof.
  intros H. unfold ApiService.rethrow.
  destruct (get_prop e "response") as [response|typeError] eqn:Hg;
    [|now apply get_prop_throws in Hg].
  destruct (strict_eq _ (number 403)); [reflexivity|].
  destruct (strict_eq _ (number 401)); [reflexivity | exact H].
Qed.

Lemma validate_throws response e :
  ApiService.validate response = Throw e -> nullish e = false.
Proof.
  unfold ApiService.validate.
  destruct (get_prop response "data") as [d|e0] eqn:Hd; cbn [mbind outcome_bind bind];
    [|intros [= <-]; now apply get_prop_throws in Hd].
  destruct (truthy d); cbn [negb]; [|intros [= <-]; reflexivity].
  destruct (get_prop d "status") as [st|e0] eqn:Hst; cbn [mbind outcome_bind bind];
    [|intros [= <-]; now apply get_prop_throws in Hst].
  destruct (strict_eq st (JBool false)); [|discriminate].
  destruct (get_prop d "error") as [err|e0] eqn:He; cbn [mbind outcome_bind bind];
    [|intros [= <-]; now apply get_prop_throws in He].
  destruct (or_else err _); try (intros [= <-]; reflexivity).
  destruct (includes _ _); intros [= <-]; reflexivity.
Qed.

(** Every value thrown by [makeRequest] is an error object or what
    the HTTP client threw. *)
Lemma makeRequest_throws api endpoint params ty tm e :
  (forall e', ApiService.client_get api endpoint params = Throw e' -> nullish e' = false) ->
  fst (ApiService.makeRequest api endpoint params ty tm) = Throw e ->
  nullish e = false.
Proof.
  intros Hclient. unfold ApiService.makeRequest.
  destruct (ApiService.attempt api endpoint params ty tm) as [[d|e'] rl] eqn:Ha;
    cbn [fst]; [discriminate|].
  intros [= <-]. apply rethrow_not_nullish.
  unfold ApiService.attempt in Ha.
  destruct (ApiService.key_missing api); [now injection Ha as <- _|].
  destruct (if negb (ty =? "normal")%string then _ else _) as [[|w r] rl1];
    [|now injection Ha as <- _].
  destruct (waitForNextCall _ _ _) as [rl2 sent].
  destruct (ApiService.client_get api endpoint params) as [response|e0] eqn:Hc.
  - injection Ha as Hv _. now apply validate_throws in Hv.
  - injection Ha as <- _. now apply Hclient.
Qed.

(** X8: [testConnection] never throws (the HTTP client, like axios,
    throwing error objects and never [null] or [undefined]): it
    returns a report whose [success] tells whether [getOltsList]
    returned, with the fixed message on success and the message of the
    error otherwise; the rate limiter is left as [getOltsList] leaves it. *)
Theorem testConnection_always_reports :
  forall (api : ApiService.t) (tm : timing),
    (forall e, ApiService.client_get api "/system/get_olts" (JObj []) = Throw e ->
               nullish e = false) ->
    exists message,
      fst (ApiService.testConnection api tm) =
        Return (JObj [("success", JBool (succeeded (fst (ApiService.getOltsList api tm))));
                      ("message", message)]) /\
      (succeeded (fst (ApiService.getOltsList api tm)) = true ->
         message = JStr "Connected successfully") /\
      (forall e, fst (ApiService.getOltsList api tm) = Throw e ->
                 message = get_prop_opt e "message") /\
      snd (ApiService.testConnection api tm) = snd (ApiService.getOltsList api tm).
Proof.
  intros api tm Hclient. unfold ApiService.testConnection.
  pose proof (makeRequest_throws api "/system/get_olts" (JObj []) "normal" tm) as Ht.
  unfold ApiService.getOltsList in *.
  destruct (ApiService.makeRequest api "/system/get_olts" (JObj []) "normal" tm)
    as [[data|e] api'].
  - eexists. cbn [fst snd succeeded]. split; [reflexivity|].
    split; [reflexivity|]. split; [discriminate | reflexivity].
  - specialize (Ht e Hclient eq_refl).
    exists (get_prop_opt e "message"). cbn [fst snd succeeded].
    split; [|split; [discriminate | split; [now intros e0 [= <-] | reflexivity]]].
    destruct e; try discriminate; reflexivity.
Qed.

Lemma testConnection_always_reports_witness :
  exists message,
    fst (ApiService.testConnection (service_over failing_client) demo_timing) =
      Return (JObj [("success",
                     JBool (succeeded
                              (fst (ApiService.getOltsList (service_over failing_client)
                                      demo_timing))));
                    ("message", message)]).
Proof.
  destruct (testConnection_always_reports (service_over failing_client) demo_timing)
    as (message & H & _).
  - intros e [= <-]. reflexivity.
  - exists message. exact H.
Defined.

Lemma SFeqb_finite x s m e :
  SFeqb x (S754_finite s m e) = true -> x = S754_finite s m e.
Proof.
  unfold SFeqb, SFcompare.
  destruct x as [s'|s'| |s' m' e']; try destruct s'; try discriminate;
    destruct s; try discriminate;
    destruct (Z.compare_spec e' e) as [->|?|?]; try discriminate;
    fold (Pos.compare m' m);
    destruct (Pos.compare_spec m' m) as [->|?|?]; try discriminate; reflexivity.
Qed.

Lemma get_prop_present v k :
  nullish v = false -> get_prop v k = Return (get_prop_opt v k).
Proof. destruct v; try discriminate; reflexivity. Qed.

Lemma get_prop_nullish v k :
  nullish v = true ->
  get_prop v k = Throw (Error "TypeError: Cannot read properties of undefined or null").
Proof. destruct v; try discriminate; reflexivity. Qed.

(** What the [try] block of either revision ends with when the HTTP
    exchange of a request that was let through throws. *)
Lemma attempt_client_throws api endpoint params ty tm e :
  ApiService.key_missing api = false ->
  allowed (fst (canCallEndpoint (ApiService.rateLimiter api) ty (entered tm))) = true ->
  ApiService.client_get api endpoint params = Throw e ->
  fst (ApiService.attempt api endpoint params ty tm) = Throw e.
Proof.
  intros Hkey Hallowed Hclient. unfold ApiService.attempt. rewrite Hkey.
  destruct (negb (ty =? "normal")%string).
  - destruct (canCallEndpoint _ ty _) as [[|w r] rl1]; [|discriminate].
    destruct (waitForNextCall _ _ _) as [rl2 sent]. now rewrite Hclient.
  - destruct (waitForNextCall _ _ _) as [rl2 sent]. now rewrite Hclient.
Qed.

Lemma attemptB_client_throws api endpoint params ty tm e :
  allowed (fst (canCallEndpoint (ApiServiceB.rateLimiter api) ty (entered tm))) = true ->
  ApiServiceB.client_get api endpoint params = Throw e ->
  fst (ApiServiceB.attempt api endpoint params ty tm) = Throw e.
Proof.
  intros Hallowed Hclient. unfold ApiServiceB.attempt.
  destruct (negb (ty =? "normal")%string).
  - destruct (canCallEndpoint _ ty _) as [[|w r] rl1]; [|discriminate].
    destruct (waitForNextCall _ _ _) as [rl2 sent]. now rewrite Hclient.
  - destruct (waitForNextCall _ _ _) as [rl2 sent]. now rewrite Hclient.
Qed.

(** X9: what the caller gets when the HTTP exchange of a request that was
    let through fails with the thrown value [e].  If [e] is [null] or
    [undefined], the [catch] block of either revision fails on its
    first read of a property of [e], and the caller gets that
    TypeError instead of [e].  Otherwise the caller gets [e] itself,
    unless the HTTP status carried by [e] is 403 or 401: for these two
    the first revision throws a new error, whose message for 401
    quotes the first ten characters of the configured key; the second
    revision throws [e] whatever the status. *)
Theorem makeRequest_passes_upstream_errors_on :
  forall (endpoint : string) (params : jsval) (endpointType : string) (tm : timing)
         (e : jsval),
    (forall api : ApiService.t,
        ApiService.key_missing api = false ->
        allowed (fst (canCallEndpoint (ApiService.rateLimiter api) endpointType
                        (entered tm))) = true ->
        ApiService.client_get api endpoint params = Throw e ->
        (nullish e = true ->
         exists message,
           fst (ApiService.makeRequest api endpoint params endpointType tm)
             = Throw (Error message) /\
           String.prefix "TypeError" message = true) /\
        (nullish e = false ->
         strict_eq (get_prop_opt (get_prop_opt e "response") "status") (number 403)
           = false ->
         strict_eq (get_prop_opt (get_prop_opt e "response") "status") (number 401)
           = false ->
         fst (ApiService.makeRequest api endpoint params endpointType tm) = Throw e) /\
        (nullish e = false ->
         strict_eq (get_prop_opt (get_prop_opt e "response") "status") (number 403)
           = true ->
         exists message,
           fst (ApiService.makeRequest api endpoint params endpointType tm)
             = Throw (Error message) /\
           String.prefix "403 Forbidden: Access denied." message = true) /\
        (nullish e = false ->
         strict_eq (get_prop_opt (get_prop_opt e "response") "status") (number 401)
           = true ->
         forall key, ApiService.apiKey api = Some key ->
           fst (ApiService.makeRequest api endpoint params endpointType tm)
             = Throw (Error ("401 Unauthorized: Invalid API Key. Current key starts with: "
                             +:+ substring0 10 key +:+ "...")))) /\
    (forall api : ApiServiceB.t,
        allowed (fst (canCallEndpoint (ApiServiceB.rateLimiter api) endpointType
                        (entered tm))) = true ->
        ApiServiceB.client_get api endpoint params = Throw e ->
        (nullish e = true ->
         exists message,
           fst (ApiServiceB.makeRequest api endpoint params endpointType tm)
             = Throw (Error message) /\
           String.prefix "TypeError" message = true) /\
        (nullish e = false ->
         fst (ApiServiceB.makeRequest api endpoint params endpointType tm) = Throw e)).
Proof.
  intros endpoint params ty tm e. split; intros api.
  - intros Hkey Hallowed Hclient.
    assert (Hm : fst (ApiService.makeRequest api endpoint params ty tm)
                 = Throw (ApiService.rethrow api endpoint e)).
    { pose proof (attempt_client_throws _ _ _ _ tm _ Hkey Hallowed Hclient) as Ha.
      unfold ApiService.makeRequest.
      destruct (ApiService.attempt api endpoint params ty tm) as [result rl].
      cbn [fst] in *. now rewrite Ha. }
    rewrite Hm. unfold ApiService.rethrow.
    split; [|split; [|split]].
    + intros Hnull. rewrite (get_prop_nullish _ _ Hnull).
      eexists. split; reflexivity.
    + intros Hobj. rewrite (get_prop_present _ _ Hobj). now intros -> ->.
    + intros Hobj. rewrite (get_prop_present _ _ Hobj). intros ->.
      eexists. split; reflexivity.
    + intros Hobj. rewrite (get_prop_present _ _ Hobj). intros H401 key Hk.
      destruct (strict_eq _ (number 403)) eqn:H403.
      * exfalso.
        destruct (get_prop_opt (get_prop_opt e "response") "status"); try discriminate.
        apply SFeqb_finite in H403. apply SFeqb_finite in H401.
        rewrite H403 in H401. discriminate.
      * rewrite H401, Hk. reflexivity.
  - intros Hallowed Hclient.
    assert (Hm : fst (ApiServiceB.makeRequest api endpoint params ty tm)
                 = Throw (ApiServiceB.rethrow e)).
    { pose proof (attemptB_client_throws _ _ _ _ tm _ Hallowed Hclient) as Ha.
      unfold ApiServiceB.makeRequest.
      destruct (ApiServiceB.attempt api endpoint params ty tm) as [result rl].
      cbn [fst] in *. now rewrite Ha. }
    rewrite Hm. unfold ApiServiceB.rethrow. split.
    + intros Hnull. rewrite (get_prop_nullish _ _ Hnull).
      eexists. split; reflexivity.
    + intros Hobj. now rewrite (get_prop_present _ _ Hobj).
Qed.

Lemma makeRequest_passes_upstream_errors_on_witness :
  fst (ApiService.makeRequest (service_over failing_client) "/system/get_olts" (JObj [])
         "normal" demo_timing)
    = Throw (Error "timeout of 30000ms exceeded") /\
  exists message,
    fst (ApiService.makeRequest (service_over null_client) "/system/get_olts" (JObj [])
           "normal" demo_timing)
      = Throw (Error message) /\
    String.prefix "TypeError" message = true.
Proof.
  split.
  - destruct (makeRequest_passes_upstream_errors_on
                "/system/get_olts" (JObj []) "normal" demo_timing
                (Error "timeout of 30000ms exceeded")) as [H _].
    destruct (H (service_over failing_client) eq_refl eq_refl eq_refl) as (_ & H1 & _).
    apply H1; reflexivity.
  - destruct (makeRequest_passes_upstream_errors_on
                "/system/get_olts" (JObj []) "normal" demo_timing JNull) as [H _].
    destruct (H (service_over null_client) eq_refl eq_refl eq_refl) as (H0 & _).
    exact (H0 eq_refl).
Defined.

(** A client that rejects with [null]: the caller of either revision
    gets the TypeError of the [catch] block, not [null]. *)
Example makeRequest_null_rejection :
  fst (ApiService.makeRequest (service_over null_client) "/system/get_olts" (JObj [])
         "normal" demo_timing)
    = Throw (Error "TypeError: Cannot read properties of undefined or null") /\
  fst (ApiServiceB.makeRequest (service_b_over null_client) "/system/get_olts" (JObj [])
         "normal" demo_timing)
    = Throw (Error "TypeError: Cannot read properties of undefined or null").
Proof. split; reflexivity. Qed.
End Requests.

Section CacheRemoval.
Import CacheService.
Local Open Scope Z_scope.

(** X10: after [del(k)], and after [flush()], [get(k)] returns [null]
    whatever was stored and however long it had to live; [del(k)]
    changes the result of no read of another key. *)
Theorem cache_get_after_del_or_flush :
  forall (cs : t) (k : string) (now : Z),
    fst (get (snd (del cs k)) k now) = JNull /\
    fst (get (snd (flush cs)) k now) = JNull /\
    (forall k', k' <> k -> fst (get (snd (del cs k)) k' now) = fst (get cs k' now)).
Proof.
  intros cs k now. rewrite !get_result.
  unfold del, flush, content, NodeCache.del, NodeCache.flushAll. cbn.
  rewrite lookup_delete_eq, lookup_empty. split; [reflexivity|]. split; [reflexivity|].
  intros k' Hne. rewrite !get_result. unfold content. cbn.
  now rewrite lookup_delete_ne by congruence.
Qed.

Lemma cache_get_after_del_or_flush_witness :
  fst (get (snd (del demo_cache "status_onu1")) "status_onu1" 1000) = JNull /\
  fst (get (snd (del demo_cache "status_onu1")) "status_onu2" 1000)
  = fst (get demo_cache "status_onu2" 1000).
Proof.
  destruct (cache_get_after_del_or_flush demo_cache "status_onu1" 1000) as (H1 & _ & H3).
  split; [exact H1|]. apply H3. discriminate.
Defined.

(** X11: the last write wins and starts the time-to-live anew: after two
    writes to [k], a read within the time-to-live of the second write
    returns the second value (if truthy), also when the time-to-live
    of the first write has run out by then.  A write without [ttl], or
    with [ttl] 0, is a write with the status time-to-live of the
    configuration. *)
Theorem cache_last_write_wins :
  forall (cs : t) (k : string) (v1 v2 : jsval) (ttl1 : option Z) (ttl2 t1 t2 later : Z),
    ttl2 <> 0 -> truthy v2 = true -> later <= t2 + ttl2 * 1000 ->
    fst (get (snd (set (snd (set cs k v1 ttl1 t1)) k v2 (Some ttl2) t2)) k later) = v2 /\
    set cs k v2 None t2 = set cs k v2 (Some (onuStatus (config cs))) t2 /\
    set cs k v2 (Some 0) t2 = set cs k v2 (Some (onuStatus (config cs))) t2.
Proof.
  intros cs k v1 v2 ttl1 ttl2 t1 t2 later Httl Hv Hlater.
  split; [|split; unfold set; cbn [Z.eqb]; destruct (onuStatus (config cs) =? 0);
              reflexivity].
  rewrite get_result, set_content by assumption.
  rewrite lookup_insert_eq, stored_live by assumption. cbn. now rewrite Hv.
Qed.

Lemma cache_last_write_wins_witness :
  fst (get (snd (set (snd (set demo_cache "status_onu1" (JStr "Online") (Some 60) 1000))
                   "status_onu1" (JStr "LOS") (Some 60) 50000))
         "status_onu1" 100000) = JStr "LOS".
Proof.
  refine (proj1 (cache_last_write_wins demo_cache "status_onu1" (JStr "Online") (JStr "LOS")
                   (Some 60) 60 1000 50000 100000 _ _ _)).
  - lia.
  - reflexivity.
  - lia.
Defined.
End CacheRemoval.

Section CaseAndSpace.
Import Onu.

Lemma is_whitespace_lower_char c : is_whitespace (lower_char c) = is_whitespace c.
Proof. destruct c as [[] [] [] [] [] [] [] []]; reflexivity. Qed.

Lemma trimStart_toLowerCase s : trimStart (toLowerCase s) = toLowerCase (trimStart s).
Proof.
  induction s as [|c s IH]; [reflexivity|].
  cbn [toLowerCase trimStart]. rewrite is_whitespace_lower_char.
  destruct (is_whitespace c); [exact IH | reflexivity].
Qed.

Lemma trimEnd_toLowerCase s : trimEnd (toLowerCase s) = toLowerCase (trimEnd s).
Proof.
  induction s as [|c s IH]; [reflexivity|].
  cbn [toLowerCase trimEnd]. rewrite IH, is_whitespace_lower_char.
  destruct (trimEnd s); cbn [toLowerCase]; [destruct (is_whitespace c)|]; reflexivity.
Qed.

Lemma trim_toLowerCase s : trim (toLowerCase s) = toLowerCase (trim s).
Proof. unfold trim. now rewrite trimStart_toLowerCase, trimEnd_toLowerCase. Qed.

Lemma toLowerCase_empty s : toLowerCase s = EmptyString -> s = EmptyString.
Proof. destruct s; [reflexivity | discriminate]. Qed.

(** What the second revision does with the lower-case, trimmed text. *)
Lemma determineOnuStatusB_text s :
  OnuServiceB.determineOnuStatus (JStr s) =
  Return (let status := trim (toLowerCase s) in
          if String.eqb status "online" then "Online"
          else if String.eqb status "los" || includes status "los" then "LOS"
          else if String.eqb status "power fail" || includes status "power"
          then "Power Fail"
          else "Offline")%string.
Proof.
  unfold OnuServiceB.determineOnuStatus. destruct s as [|c s]; [reflexivity|].
  cbn [truthy negb]. cbv zeta.
  repeat match goal with |- context [if ?b then _ else _] => destruct b end; reflexivity.
Qed.

(** X12: the classification does not look at the case of the letters: two
    statuses that differ only in the case of their letters are
    classified alike by both revisions, whatever the last down
    cause. *)
Theorem determineOnuStatus_ignores_case :
  forall (s s' : string) (lastDownCause : jsval),
    toLowerCase s = toLowerCase s' ->
    OnuService.determineOnuStatus (JStr s) lastDownCause =
    OnuService.determineOnuStatus (JStr s') lastDownCause /\
    OnuServiceB.determineOnuStatus (JStr s) = OnuServiceB.determineOnuStatus (JStr s').
Proof.
  intros s s' c H. split.
  - unfold OnuService.determineOnuStatus. rewrite H.
    destruct s, s'; try discriminate; reflexivity.
  - rewrite !determineOnuStatusB_text. now rewrite H.
Qed.

Lemma determineOnuStatus_ignores_case_witness :
  OnuService.determineOnuStatus (JStr "LOS Detected") JNull =
  OnuService.determineOnuStatus (JStr "los DETECTED") JNull.
Proof.
  exact (proj1 (determineOnuStatus_ignores_case "LOS Detected" "los DETECTED" JNull
                  eq_refl)).
Defined.

(** X13: the two revisions of the classification compared.  Called
    with the status alone, as every call in both revisions of the
    service is, the second revision classifies a status as the first
    one classifies the same status without its leading and trailing
    white space, and a value that is not a string as the first one
    does.  The first revision takes a second argument, the last down
    cause, which the second revision does not have: it is looked at
    only when the status is a non-empty string that none of the four
    tests recognises, that is, when the verdict without a cause is
    Offline and the status is not "offline" in some case; the verdict
    is then LOS or Power Fail if the cause holds one of the key words,
    and Offline as before if it does not.  So the revisions can
    disagree on a status with white space around it (" online " is
    Online for the second revision and Offline for the first) and
    where the first revision is given a cause ("unknown" with the
    cause "los detected" is LOS for the first revision, Offline for
    the second). *)
Theorem determineOnuStatus_revisions_compared :
  (forall s : string,
      OnuServiceB.determineOnuStatus (JStr s) =
      OnuService.determineOnuStatus (JStr (trim s)) JNull) /\
  (forall v : jsval,
      (forall s, v <> JStr s) ->
      OnuServiceB.determineOnuStatus v = OnuService.determineOnuStatus v JNull) /\
  (forall v lastDownCause : jsval,
      OnuService.determineOnuStatus v JNull <> Return "Offline"%string ->
      OnuService.determineOnuStatus v lastDownCause =
      OnuService.determineOnuStatus v JNull) /\
  (forall (s : string) (lastDownCause : jsval),
      (s = EmptyString \/ toLowerCase s = "offline"%string) ->
      OnuService.determineOnuStatus (JStr s) lastDownCause = Return "Offline"%string) /\
  (forall s cause : string,
      OnuService.determineOnuStatus (JStr s) JNull = Return "Offline"%string ->
      s <> EmptyString ->
      toLowerCase s <> "offline"%string ->
      OnuService.determineOnuStatus (JStr s) (JStr cause) =
      Return (let cause := toLowerCase cause in
              if includes cause "los" || includes cause "signal" then "LOS"
              else if includes cause "power" || includes cause "dying-gasp"
              then "Power Fail"
              else "Offline")%string) /\
  OnuServiceB.determineOnuStatus (JStr " online ") = Return "Online"%string /\
  OnuService.determineOnuStatus (JStr " online ") JNull = Return "Offline"%string /\
  OnuServiceB.determineOnuStatus (JStr "unknown") = Return "Offline"%string.
Proof.
  split; [|split; [|split; [|split; [|split; [|repeat split]]]]].
  - intros s. rewrite determineOnuStatusB_text. cbv zeta. rewrite trim_toLowerCase.
    unfold OnuService.determineOnuStatus.
    destruct (trim s) as [|c r] eqn:Ht; [reflexivity|].
    cbn [truthy negb].
    repeat match goal with |- context [if ?b then _ else _] => destruct b end;
      reflexivity.
  - intros v Hv. destruct v; try reflexivity. now destruct (Hv s).
  - intros v cause H. unfold OnuService.determineOnuStatus in *.
    destruct (negb (truthy v)); [reflexivity|].
    destruct v; try reflexivity. cbv zeta in *.
    destruct (toLowerCase s =? "online")%string; [reflexivity|].
    destruct ((toLowerCase s =? "los")%string || includes (toLowerCase s) "los");
      [reflexivity|].
    destruct ((toLowerCase s =? "power fail")%string || includes (toLowerCase s) "power");
      [reflexivity|].
    destruct (toLowerCase s =? "offline")%string; [reflexivity|].
    now destruct H.
  - intros s cause [-> | H]; [reflexivity|].
    unfold OnuService.determineOnuStatus. rewrite H.
    destruct s; [discriminate | reflexivity].
  - intros s cause H Hs Hoff. unfold OnuService.determineOnuStatus in *.
    destruct s as [|c s]; [now destruct Hs|]. cbn [truthy negb] in *. cbv zeta in *.
    destruct (toLowerCase (String c s) =? "online")%string; [discriminate|].
    destruct ((toLowerCase (String c s) =? "los")%string
              || includes (toLowerCase (String c s)) "los"); [discriminate|].
    destruct ((toLowerCase (String c s) =? "power fail")%string
              || includes (toLowerCase (String c s)) "power"); [discriminate|].
    destruct (String.eqb_spec (toLowerCase (String c s)) "offline");
      [contradiction|].
    destruct cause as [|c' cause]; [reflexivity|]. cbn [truthy].
    repeat match goal with |- context [if ?b then _ else _] => destruct b end;
      reflexivity.
Qed.

Lemma determineOnuStatus_revisions_compared_witness :
  OnuService.determineOnuStatus (JStr "unknown") (JStr "los detected")
  = Return "LOS"%string.
Proof.
  destruct determineOnuStatus_revisions_compared as (_ & _ & _ & _ & H & _).
  apply (H "unknown" "los detected")%string;
    [reflexivity | discriminate | vm_compute; discriminate].
Defined.

(** The no-break space is white space like the space: the second
    revision trims it, the first does not. *)
Example determineOnuStatus_no_break_space :
  let nbsp := String (ascii_of_nat 160) EmptyString in
  OnuServiceB.determineOnuStatus (JStr ("Online" +:+ nbsp)) = Return "Online"%string /\
  OnuService.determineOnuStatus (JStr ("Online" +:+ nbsp)) JNull
    = Return "Offline"%string.
Proof. split; reflexivity. Qed.

(** Case and white space beyond ASCII, among the code units of the
    embedding: U+00C9 has the lower-case letter U+00E9; the
    multiplication sign U+00D7 and the sharp s U+00DF have none; the
    no-break space is trimmed from both ends. *)
Example latin1_case_and_space :
  let unit n := String (ascii_of_nat n) EmptyString in
  toLowerCase (unit 201) = unit 233 /\
  toLowerCase (unit 215) = unit 215 /\
  toLowerCase (unit 223) = unit 223 /\
  trim (unit 160 +:+ "LOS" +:+ unit 160 +:+ unit 9) = "LOS"%string /\
  trimStart (unit 133 +:+ "LOS") = unit 133 +:+ "LOS".
Proof. cbv zeta. evaluate. Qed.
End CaseAndSpace.

Section HistoryReport.
Import Onu.

Lemma firstn_20_50 {A} (l : list A) : firstn 20 (firstn 50 l) = firstn 20 l.
Proof. rewrite firstn_firstn. reflexivity. Qed.

(** X14: a change that [trackStatusChange] logs is what the next
    [getStatusHistory] lists first: after the change of a device to
    LOS (to Power Fail), the report holds the 20 newest events of the
    LOS log (the Power Fail log) with the new event in front.  No
    report lists more than 20 events of either kind. *)
Theorem getStatusHistory_lists_newest_first :
  forall (s : t) (fields : list (string * jsval)) (newStatus oldStatus : jsval)
         (timestamp : string),
    reachable (statusHistory s) ->
    strict_eq newStatus oldStatus = false ->
    exists h' los power,
      trackStatusChange (statusHistory s) (JObj fields) newStatus oldStatus timestamp
        = Return h' /\
      getStatusHistory (with_history s h') =
        JObj [("recent_los", JArr los); ("recent_power_fail", JArr power)] /\
      length los <= 20 /\ length power <= 20 /\
      let event := event_of fields newStatus oldStatus timestamp in
      (newStatus = JStr "LOS" ->
         los = firstn 20 (event :: recentLos (statusHistory s))) /\
      (newStatus = JStr "Power Fail" ->
         power = firstn 20 (event :: recentPowerFail (statusHistory s))).
Proof.
  intros s fields newStatus oldStatus timestamp Hreach Hne.
  pose proof (reachable_bounded _ Hreach) as [Hl Hp].
  rewrite trackStatusChange_object, Hne.
  eexists _, _, _. split; [reflexivity|]. split; [reflexivity|].
  split; [rewrite length_firstn; lia|]. split; [rewrite length_firstn; lia|].
  cbv zeta. split; intros ->; cbn [strict_eq String.eqb Ascii.eqb Bool.eqb andb
                                   statusHistory with_history recentLos recentPowerFail].
  - rewrite push_event_firstn by assumption. apply firstn_20_50.
  - rewrite push_event_firstn by assumption. apply firstn_20_50.
Qed.

Lemma getStatusHistory_lists_newest_first_witness :
  exists h' los power,
    trackStatusChange (statusHistory demo_service)
      (JObj [("unique_external_id", JStr "test1")]) (JStr "LOS") (JStr "Online")
      "2024-01-01T00:00:00.000Z" = Return h' /\
    getStatusHistory (with_history demo_service h') =
      JObj [("recent_los", JArr los); ("recent_power_fail", JArr power)] /\
    length los <= 20.
Proof.
  destruct (getStatusHistory_lists_newest_first demo_service
              [("unique_external_id", JStr "test1")] (JStr "LOS") (JStr "Online")
              "2024-01-01T00:00:00.000Z" reachable_new eq_refl)
    as (h' & los & power & H1 & H2 & H3 & _).
  exists h', los, power. split; [exact H1|]. split; [exact H2 | exact H3].
Defined.
End HistoryReport.

Section CachedAnswers.
Import Onu.
Local Open Scope Z_scope.

Lemma get_hit cs key now :
  fst (CacheService.get cs key now) <> JNull ->
  truthy (fst (CacheService.get cs key now)) = true /\
  snd (CacheService.get cs key now) = cs.
Proof.
  unfold CacheService.get, NodeCache.get.
  destruct (NodeCache.data (CacheService.cache cs) !! key) as [e|];
    [destruct (NodeCache.live e now)|]; cbn [truthy fst snd];
    try (intros H; now contradiction H).
  destruct (truthy (NodeCache.v e)) eqn:Ht; cbn [fst snd];
    try (intros H; now contradiction H).
  intros _. split; [exact Ht|]. destruct cs as [[ttl d] cfg]. reflexivity.
Qed.

Lemma with_cache_same s : with_cache s (cache s) = s.
Proof. destruct s. reflexivity. Qed.

Local Ltac answer_from_cache :=
  match goal with
  | H : fst (CacheService.get ?cs ?key ?now) = ?cached, Hn : ?cached <> JNull |- _ =>
      let Ht := fresh in let Hs := fresh in
      rewrite <- H in Hn; destruct (get_hit cs key now Hn) as [Ht Hs];
      destruct (CacheService.get cs key now) as [v c];
      cbn [fst snd] in *; subst; rewrite Ht, with_cache_same; reflexivity
  end.

(** X15: a listing or device record that the cache still holds is the
    answer, and the upstream is not asked: [getAllOnusWithDetails],
    [getOnusWithGps] and [getOnuById] of both revisions return the
    cached value whatever the upstream would have said (also when it
    is down), log nothing and leave the service as it was. *)
Theorem cached_answers_need_no_upstream :
  forall (api : api_t) (s : t) (filters externalId : jsval) (m : moments) (cached : jsval),
    cached <> JNull ->
    (fst (CacheService.get (cache s) (fingerprint "all_onus_" filters) (checked m))
       = cached ->
     OnuService.getAllOnusWithDetails api s filters m = (Return cached, s) /\
     OnuServiceB.getAllOnusWithDetails api s filters m = (Return cached, s)) /\
    (fst (CacheService.get (cache s) (fingerprint "onus_gps_" filters) (checked m))
       = cached ->
     OnuService.getOnusWithGps api s filters m = (Return cached, s) /\
     OnuServiceB.getOnusWithGps api s filters m = (Return cached, s)) /\
    (fst (CacheService.get (cache s) ("onu_detail_" +:+ to_string externalId) (checked m))
       = cached ->
     OnuService.getOnuById api s externalId m = (Return cached, s) /\
     OnuServiceB.getOnuById api s externalId m = (Return cached, s)).
Proof.
  intros api s filters externalId m cached Hn.
  split; [|split]; intros H; split.
  - unfold OnuService.getAllOnusWithDetails. answer_from_cache.
  - unfold OnuServiceB.getAllOnusWithDetails. answer_from_cache.
  - unfold OnuService.getOnusWithGps. answer_from_cache.
  - unfold OnuServiceB.getOnusWithGps. answer_from_cache.
  - unfold OnuService.getOnuById. answer_from_cache.
  - unfold OnuServiceB.getOnuById. answer_from_cache.
Qed.

Lemma cached_answers_need_no_upstream_witness :
  let s := with_cache demo_service
             (snd (CacheService.set demo_cache "onu_detail_onu1"
                     (JObj [("unique_external_id", JStr "onu1")]) (Some 60) 500)) in
  OnuService.getOnuById (device_api signal_down_service demo_timing) s (JStr "onu1")
    demo_moments
  = (Return (JObj [("unique_external_id", JStr "onu1")]), s).
Proof.
  intros s.
  destruct (cached_answers_need_no_upstream
              (device_api signal_down_service demo_timing) s (JObj []) (JStr "onu1")
              demo_moments (JObj [("unique_external_id", JStr "onu1")]))
    as (_ & _ & H).
  - discriminate.
  - destruct H as [H _]; [vm_compute; reflexivity | exact H].
Defined.

(** ** From a miss to a hit *)

Lemma remember_status_config onu status m s :
  config (snd (remember_status onu status m s)) = config s.
Proof.
  unfold remember_status.
  destruct (get_prop onu "unique_external_id"); [|reflexivity].
  destruct (CacheService.get _ _ _) as [oldStatus c1].
  destruct (if truthy oldStatus && negb (strict_eq oldStatus (JStr status)) then _ else _);
    reflexivity.
Qed.

Lemma map_state_config {A B} (f : A -> t -> outcome B * t) l :
  (forall a s, config (snd (f a s)) = config s) ->
  forall s, config (snd (map_state f l s)) = config s.
Proof.
  intros Hf. induction l as [|a l IH]; intros s; [reflexivity|].
  cbn [map_state]. specialize (Hf a s).
  destruct (f a s) as [[b|e] s1]; cbn [snd] in *; [|exact Hf].
  specialize (IH s1). destruct (map_state f l s1) as [[bs|e] s2]; cbn [snd] in *; congruence.
Qed.

Lemma process_onuB_config m onu s :
  config (snd (OnuServiceB.process_onu m onu s)) = config s.
Proof.
  unfold OnuServiceB.process_onu.
  destruct (_ ← get_prop onu "status"; _) as [[rawStatus status]|]; [|reflexivity].
  pose proof (remember_status_config onu status m s) as H.
  destruct (remember_status onu status m s) as [[|] s']; exact H.
Qed.

Lemma process_onu_config statusMap m onu s :
  config (snd (OnuService.process_onu statusMap m onu s)) = config s.
Proof.
  unfold OnuService.process_onu.
  destruct (_ ← get_prop onu "unique_external_id"; _) as [[rawStatus status]|];
    [|reflexivity].
  pose proof (remember_status_config onu status m s) as H.
  destruct (remember_status onu status m s) as [[|] s']; exact H.
Qed.

Lemma locate_onu_config m onu s :
  config (snd (OnuServiceB.locate_onu m onu s)) = config s.
Proof.
  unfold OnuServiceB.locate_onu.
  destruct (_ ← get_prop onu "status"; _) as [[rawStatus status]|]; [|reflexivity].
  pose proof (remember_status_config onu status m s) as H.
  destruct (remember_status onu status m s) as [[|] s']; exact H.
Qed.

(** A value stored for [ttl] seconds is what the next lookup within
    that time finds, and the lookup changes nothing. *)
Lemma get_after_set cs key value ttl now later :
  ttl <> 0 -> truthy value = true -> later <= now + ttl * 1000 ->
  let cs' := snd (CacheService.set cs key value (Some ttl) now) in
  CacheService.get cs' key later = (value, cs').
Proof.
  intros Httl Hv Hlater cs'.
  assert (Hr : fst (CacheService.get cs' key later) = value).
  { rewrite get_result. subst cs'. rewrite set_content by assumption.
    rewrite lookup_insert_eq, stored_live by assumption. cbn. now rewrite Hv. }
  assert (Hn : fst (CacheService.get cs' key later) <> JNull).
  { rewrite Hr. intros ->. discriminate. }
  destruct (get_hit cs' key later Hn) as [_ Hs].
  destruct (CacheService.get cs' key later). cbn [fst snd] in *. congruence.
Qed.

Local Ltac second_call Hcfg :=
  cbn [fst snd cache with_cache config];
  rewrite ?Hcfg, get_after_set by (assumption || reflexivity);
  cbn [truthy]; now rewrite with_cache_same.

(** X16: a listing fetched on a miss is the answer to every call with the
    same filters during the following [onuDetails] seconds
    ([gps] seconds for [getOnusWithGps]), whatever the upstream would
    say by then: the second call returns the listing of the first and
    leaves the service as the first call left it.  This holds for the
    listings of both revisions. *)
Theorem fetched_listing_is_served_until_it_expires :
  forall (api api' : api_t) (s : t) (filters : jsval) (m m' : moments) (listing : jsval),
    (fst (CacheService.get (cache s) (fingerprint "all_onus_" filters) (checked m)) = JNull ->
     CacheService.onuDetails (config s) <> 0 ->
     checked m' <= fetched m + CacheService.onuDetails (config s) * 1000 ->
     (fst (OnuService.getAllOnusWithDetails api s filters m) = Return listing ->
      let s1 := snd (OnuService.getAllOnusWithDetails api s filters m) in
      OnuService.getAllOnusWithDetails api' s1 filters m' = (Return listing, s1)) /\
     (fst (OnuServiceB.getAllOnusWithDetails api s filters m) = Return listing ->
      let s1 := snd (OnuServiceB.getAllOnusWithDetails api s filters m) in
      OnuServiceB.getAllOnusWithDetails api' s1 filters m' = (Return listing, s1))) /\
    (fst (CacheService.get (cache s) (fingerprint "onus_gps_" filters) (checked m)) = JNull ->
     CacheService.gps (config s) <> 0 ->
     checked m' <= fetched m + CacheService.gps (config s) * 1000 ->
     (fst (OnuService.getOnusWithGps api s filters m) = Return listing ->
      let s1 := snd (OnuService.getOnusWithGps api s filters m) in
      OnuService.getOnusWithGps api' s1 filters m' = (Return listing, s1)) /\
     (fst (OnuServiceB.getOnusWithGps api s filters m) = Return listing ->
      let s1 := snd (OnuServiceB.getOnusWithGps api s filters m) in
      OnuServiceB.getOnusWithGps api' s1 filters m' = (Return listing, s1))).
Proof.
  intros api api' s filters m m' listing.
  split; intros Hmiss Httl Hlater; split.
  - unfold OnuService.getAllOnusWithDetails at 1 2.
    destruct (CacheService.get _ _ (checked m)) as [cached c]. cbn [fst] in Hmiss.
    subst cached. cbn [truthy].
    destruct (_ ← getAllOnusDetails api filters; _) as [[statusMap onus]|];
      [|discriminate].
    pose proof (map_state_config (OnuService.process_onu statusMap m) onus
                  (process_onu_config statusMap m) (with_cache s c)) as Hcfg.
    destruct (map_state _ onus _) as [[processed|] s']; [|discriminate].
    cbn [fst snd config with_cache] in *. intros [= <-].
    unfold OnuService.getAllOnusWithDetails. second_call Hcfg.
  - unfold OnuServiceB.getAllOnusWithDetails at 1 2.
    destruct (CacheService.get _ _ (checked m)) as [cached c]. cbn [fst] in Hmiss.
    subst cached. cbn [truthy].
    destruct (_ ← getAllOnusDetails api filters; _) as [onus|]; [|discriminate].
    pose proof (map_state_config (OnuServiceB.process_onu m) onus
                  (process_onuB_config m) (with_cache s c)) as Hcfg.
    destruct (map_state _ onus _) as [[processed|] s']; [|discriminate].
    cbn [fst snd config with_cache] in *. intros [= <-].
    unfold OnuServiceB.getAllOnusWithDetails. second_call Hcfg.
  - unfold OnuService.getOnusWithGps at 1 2.
    destruct (CacheService.get _ _ (checked m)) as [cached c]. cbn [fst] in Hmiss.
    subst cached. cbn [truthy].
    destruct (_ ← getAllOnusGpsCoordinates api filters; _) as [result|]; [|discriminate].
    cbn [fst snd]. intros [= <-].
    unfold OnuService.getOnusWithGps.
    cbn [fst snd cache with_cache config].
    rewrite get_after_set by (assumption || reflexivity).
    cbn [truthy]. now rewrite with_cache_same.
  - unfold OnuServiceB.getOnusWithGps at 1 2.
    destruct (CacheService.get _ _ (checked m)) as [cached c]. cbn [fst] in Hmiss.
    subst cached. cbn [truthy].
    destruct (_ ← getAllOnusDetails api filters; _) as [onus|]; [|discriminate].
    pose proof (map_state_config (OnuServiceB.locate_onu m) onus
                  (locate_onu_config m) (with_cache s c)) as Hcfg.
    destruct (map_state _ onus _) as [[processed|] s']; [|discriminate].
    cbn [fst snd config with_cache] in *. intros [= <-].
    unfold OnuServiceB.getOnusWithGps. second_call Hcfg.
Qed.

Lemma fetched_listing_is_served_until_it_expires_witness :
  let first := OnuServiceB.getAllOnusWithDetails (details_api four_devices) demo_service
                 (JObj []) demo_moments in
  let later := {| checked := 600000; fetched := 601000;
                  iso := "1970-01-01T00:10:01.000Z" |} in
  fst (OnuServiceB.getAllOnusWithDetails (gps_api []) (snd first) (JObj []) later)
  = fst first.
Proof.
  intros first later.
  pose (listing := match fst first with Return l => l | Throw _ => JNull end).
  destruct (fetched_listing_is_served_until_it_expires
              (details_api four_devices) (gps_api []) demo_service (JObj [])
              demo_moments later listing) as [H _].
  destruct H as [_ H].
  - vm_compute. reflexivity.
  - vm_compute. discriminate.
  - vm_compute. discriminate.
  - cbv zeta in H. fold first in H. rewrite H; [|vm_compute; reflexivity].
    vm_compute. reflexivity.
Defined.
End CachedAnswers.

Section UpstreamFailure.
Import Onu.
Local Open Scope Z_scope.

(** A lookup that missed keeps missing: whatever the store held under
    the key is expired, falsy or absent, and stays so. *)
Lemma get_miss_stays cs key now later :
  fst (CacheService.get cs key now) = JNull ->
  fst (CacheService.get (snd (CacheService.get cs key now)) key later) = JNull.
Proof.
  rewrite !get_result, get_content.
  destruct (content cs !! key) as [e|] eqn:He.
  - destruct (NodeCache.live e now) eqn:Hl.
    + rewrite He. cbn [andb].
      destruct (truthy (NodeCache.v e)) eqn:Ht.
      * intros H. rewrite H in Ht. discriminate.
      * intros _. now rewrite andb_false_r.
    + intros _. now rewrite lookup_delete_eq.
  - intros _. now rewrite He.
Qed.

Local Ltac failed_fetch Hmiss Hfail later :=
  match goal with
  | |- context [CacheService.get ?cs ?key ?now] =>
      pose proof (get_miss_stays cs key now later Hmiss) as Hstay;
      destruct (CacheService.get cs key now) as [cached c];
      cbn [fst snd] in Hmiss, Hstay; subst cached; cbn [truthy]; rewrite Hfail;
      cbn [mbind outcome_bind bind fst snd statusHistory cache with_cache];
      repeat split; assumption
  end.

(** X17: when the first request to the upstream fails, the listing methods
    throw the error of the upstream as it is, log no status change and
    cache nothing: a later call with the same filters misses the cache
    again and asks the upstream anew.  The first request is the one to
    the details endpoint, except in [getOnusWithGps] of the first
    revision, where it is the one to the GPS endpoint. *)
Theorem upstream_failure_is_not_cached :
  forall (api : api_t) (s : t) (filters : jsval) (m : moments) (e : jsval) (later : Z),
    let failed (key : string) (result : outcome jsval * t) :=
      fst result = Throw e /\
      statusHistory (snd result) = statusHistory s /\
      fst (CacheService.get (cache (snd result)) key later) = JNull in
    (getAllOnusDetails api filters = Throw e ->
     (fst (CacheService.get (cache s) (fingerprint "all_onus_" filters) (checked m)) = JNull ->
      failed (fingerprint "all_onus_" filters)
             (OnuService.getAllOnusWithDetails api s filters m) /\
      failed (fingerprint "all_onus_" filters)
             (OnuServiceB.getAllOnusWithDetails api s filters m)) /\
     (fst (CacheService.get (cache s) (fingerprint "onus_gps_" filters) (checked m)) = JNull ->
      failed (fingerprint "onus_gps_" filters)
             (OnuServiceB.getOnusWithGps api s filters m))) /\
    (getAllOnusGpsCoordinates api filters = Throw e ->
     fst (CacheService.get (cache s) (fingerprint "onus_gps_" filters) (checked m)) = JNull ->
     failed (fingerprint "onus_gps_" filters)
            (OnuService.getOnusWithGps api s filters m)).
Proof.
  intros api s filters m e later failed. subst failed. cbv beta.
  split; [intros Hfail; split; intros Hmiss; [split|] | intros Hfail Hmiss].
  - unfold OnuService.getAllOnusWithDetails. failed_fetch Hmiss Hfail later.
  - unfold OnuServiceB.getAllOnusWithDetails. failed_fetch Hmiss Hfail later.
  - unfold OnuServiceB.getOnusWithGps. failed_fetch Hmiss Hfail later.
  - unfold OnuService.getOnusWithGps. failed_fetch Hmiss Hfail later.
Qed.

Lemma upstream_failure_is_not_cached_witness :
  let down :=
    {| getAllOnusDetails := fun _ => Throw (Error "timeout of 30000ms exceeded");
       getOnuStatuses := fun _ => unreachable;
       getAllOnusGpsCoordinates := fun _ => unreachable;
       getOnuDetails := fun _ => unreachable;
       getOnuStatus := fun _ => unreachable;
       getOnuSignal := fun _ => unreachable |} in
  fst (OnuServiceB.getAllOnusWithDetails down demo_service (JObj []) demo_moments)
  = Throw (Error "timeout of 30000ms exceeded").
Proof.
  intros down.
  destruct (upstream_failure_is_not_cached down demo_service (JObj []) demo_moments
              (Error "timeout of 30000ms exceeded") 20000) as [H _].
  destruct (H eq_refl) as [H1 _].
  destruct H1 as [_ (H2 & _)]; [vm_compute; reflexivity | exact H2].
Defined.
End UpstreamFailure.

Section FreshListing.
Import Onu.

Lemma get_prop_opt_set_field_eq k v fs :
  get_prop_opt (JObj (set_field k v fs)) k = v.
Proof. cbn [get_prop_opt]. now rewrite lookup_set_field_eq. Qed.

Lemma get_prop_opt_set_field_ne k k' v fs :
  k <> k' -> get_prop_opt (JObj (set_field k' v fs)) k = get_prop_opt (JObj fs) k.
Proof. intros H. cbn [get_prop_opt]. now rewrite lookup_set_field_ne. Qed.






End FreshListing.

Section Dictionaries.
Context {A : Type}.
Implicit Types (d : list (string * A)) (k : string) (v : A).

Lemma In_key k v d : In (k, v) d -> In k (List.map fst d).
Proof. intros H. apply (in_map fst) in H. exact H. Qed.

Lemma lookup_In k v d : Dict.lookup k d = Some v -> In (k, v) d.
Proof.
  induction d as [|[k0 v0] d IH]; cbn [Dict.lookup]; [discriminate|].
  destruct (String.eqb_spec k k0) as [->|Hne].
  - intros [= ->]. now left.
  - intros H. right. now apply IH.
Qed.

Lemma lookup_None k d : Dict.lookup k d = None -> ~ In k (List.map fst d).
Proof.
  induction d as [|[k0 v0] d IH]; cbn [Dict.lookup List.map fst In]; [tauto|].
  destruct (String.eqb_spec k k0) as [->|Hne]; [discriminate|].
  intros H [H0|H0]; [congruence | now apply IH].
Qed.

Lemma replace_keys k v d : List.map fst (Dict.replace k v d) = List.map fst d.
Proof.
  induction d as [|[k0 v0] d IH]; [reflexivity|]. cbn [Dict.replace].
  destruct (String.eqb_spec k k0) as [->|Hne]; cbn [List.map fst]; [reflexivity|].
  now rewrite IH.
Qed.

Lemma replace_In k v d k' v' :
  List.NoDup (List.map fst d) ->
  In (k', v') (Dict.replace k v d) ->
  (k' = k /\ v' = v) \/ (k' <> k /\ In (k', v') d).
Proof.
  induction d as [|[k0 v0] d IH]; cbn [Dict.replace]; [tauto|].
  cbn [List.map fst]. intros Hnd. inversion Hnd as [|? ? Hnotin Hnd']; subst.
  destruct (String.eqb_spec k k0) as [->|Hne]; cbn [In].
  - intros [[= <- <-]|H]; [now left|]. right. split; [|now right].
    intros ->. apply Hnotin. now apply In_key in H.
  - intros [[= <- <-]|H].
    + right. split; [congruence | now left].
    + destruct (IH Hnd' H) as [?|[? ?]]; [now left | right; split; auto].
Qed.

Lemma create_Permutation k v d : Permutation (Dict.create k v d) ((k, v) :: d).
Proof.
  induction d as [|[k0 v0] d IH]; cbn [Dict.create]; [reflexivity|].
  destruct (Dict.precedes k k0); [reflexivity|].
  rewrite IH. apply perm_swap.
Qed.

(** The members of all entries after a replacement that extends the
    entry of [k]. *)
Lemma replace_members (f : A -> list jsval) k v v' d x :
  Dict.lookup k d = Some v -> f v' = f v ++ [x] ->
  Permutation (List.concat (List.map (fun kv => f (snd kv)) (Dict.replace k v' d)))
              (List.concat (List.map (fun kv => f (snd kv)) d) ++ [x]).
Proof.
  intros Hl Hf. induction d as [|[k0 v0] d IH]; [discriminate|].
  cbn [Dict.lookup Dict.replace] in *.
  destruct (String.eqb_spec k k0) as [->|Hne]; cbn [List.map List.concat snd].
  - injection Hl as ->. rewrite Hf, <- !app_assoc.
    apply Permutation_app_head. apply Permutation_app_comm.
  - rewrite (IH Hl), app_assoc. reflexivity.
Qed.

Lemma create_members (f : A -> list jsval) k v d :
  Permutation (List.concat (List.map (fun kv => f (snd kv)) (Dict.create k v d)))
              (List.concat (List.map (fun kv => f (snd kv)) d) ++ f v).
Proof.
  induction d as [|[k0 v0] d IH]; cbn [Dict.create].
  - cbn. now rewrite app_nil_r.
  - destruct (Dict.precedes k k0); cbn [List.map List.concat snd].
    + apply Permutation_app_comm.
    + rewrite IH, app_assoc. reflexivity.
Qed.
End Dictionaries.

Section Grouping.
Import Onu OdbGroups.

Variable fallback : string.

Lemma get_prop_not_nullish v k : nullish v = false -> get_prop v k = Return (get_prop_opt v k).
Proof. destruct v; try discriminate; reflexivity. Qed.

Lemma filed_under_app key l1 l2 :
  filed_under fallback key (l1 ++ l2) = filed_under fallback key l1 ++ filed_under fallback key l2.
Proof. apply List.filter_app. Qed.

Lemma filed_under_none key items :
  (forall onu, In onu items -> odb_key fallback onu <> key) ->
  filed_under fallback key items = [].
Proof.
  induction items as [|onu items IH]; [reflexivity|]. intros H.
  unfold filed_under in *. cbn [List.filter].
  destruct (String.eqb_spec (odb_key fallback onu) key) as [He|_].
  - exfalso. apply (H onu); [now left | exact He].
  - apply IH. intros o Ho. apply H. now right.
Qed.

Lemma filed_nothing : filed fallback [] [].
Proof. split; cbn; [constructor | tauto | tauto | reflexivity]. Qed.

Lemma add_onu_filed seen d onu :
  filed fallback seen d -> nullish onu = false -> Dict.inherited (odb_key fallback onu) = false ->
  exists d', add_onu fallback d onu = Return d' /\ filed fallback (seen ++ [onu]) d'.
Proof.
  intros [Hk Hg Hi Hm] Hn Hinh. unfold add_onu.
  rewrite (get_prop_not_nullish _ _ Hn). cbn [mbind outcome_bind bind].
  fold (odb_name_of fallback onu). fold (odb_key fallback onu).
  set (key := odb_key fallback onu) in *.
  assert (Hself : filed_under fallback key [onu] = [onu]).
  { unfold filed_under. cbn [List.filter]. fold key. now rewrite String.eqb_refl. }
  destruct (Dict.lookup key d) as [g|] eqn:Hl.
  - eexists. split; [reflexivity|].
    pose proof (lookup_In _ _ _ Hl) as Hin.
    destruct (Hg _ _ Hin) as (Hkg & Hkinh & Hog & first & rest & Hfirst & Hname).
    split.
    + now rewrite replace_keys.
    + intros k' g' H'. apply replace_In in H'; [|assumption].
      destruct H' as [[-> ->]|[Hne H']].
      * cbn [onus odb_name group_key]. split; [exact Hkg|]. split; [exact Hkinh|].
        split; [now rewrite filed_under_app, Hself, Hog|].
        exists first, (rest ++ [onu]). rewrite Hfirst. now split.
      * destruct (Hg _ _ H') as (H1 & H2 & H3 & H4). repeat split; try assumption.
        rewrite filed_under_app, H3.
        rewrite (filed_under_none k' [onu]); [now rewrite app_nil_r|].
        intros o [<-|[]]. fold key. congruence.
    + rewrite replace_keys. intros o Ho. apply in_app_or in Ho.
      destruct Ho as [Ho|[<-|[]]]; [now apply Hi|].
      fold key. now apply In_key in Hin.
    + rewrite (replace_members onus key g
                 {| odb_name := odb_name g; onus := onus g ++ [onu] |} d onu Hl eq_refl).
      now apply Permutation_app_tail.
  - rewrite Hinh. eexists. split; [reflexivity|].
    pose proof (lookup_None _ _ Hl) as Hnotin.
    pose proof (create_Permutation key
                  {| odb_name := odb_name_of fallback onu; onus := [onu] |} d) as Hp.
    split.
    + rewrite (Permutation_map fst Hp). cbn [List.map fst]. now constructor.
    + intros k' g' H'. apply (Permutation_in _ Hp) in H'.
      destruct H' as [[= <- <-]|H'].
      * cbn [onus odb_name group_key]. split; [reflexivity|]. split; [exact Hinh|].
        split; [|now exists onu, []].
        rewrite filed_under_app, Hself.
        rewrite (filed_under_none key seen); [reflexivity|].
        intros o Ho He. apply Hnotin. rewrite <- He. now apply Hi.
      * destruct (Hg _ _ H') as (H1 & H2 & H3 & H4). repeat split; try assumption.
        rewrite filed_under_app, H3.
        rewrite (filed_under_none k' [onu]); [now rewrite app_nil_r|].
        intros o [<-|[]]. fold key. intros ->. apply Hnotin.
        now apply In_key in H'.
    + intros o Ho. rewrite (Permutation_map fst Hp). cbn [List.map fst].
      apply in_app_or in Ho. destruct Ho as [Ho|[<-|[]]]; [right; now apply Hi | now left].
    + rewrite create_members. cbn [onus]. now apply Permutation_app_tail.
Qed.



(** A device filed under an inherited name ends the grouping. *)
Lemma fold_add_onu_thrown items e :
  fold_left (fun acc onu => odbGroups ← acc; add_onu fallback odbGroups onu)
    items (Throw e) = Throw e.
Proof. induction items as [|onu items IH]; [reflexivity | exact IH]. Qed.

Lemma fold_add_onu_inherited items : forall seen d onu,
  filed fallback seen d ->
  Forall (fun onu => nullish onu = false) items ->
  In onu items -> Dict.inherited (odb_key fallback onu) = true ->
  fold_left (fun acc onu => odbGroups ← acc; add_onu fallback odbGroups onu)
    items (Return d) = Throw no_group_error.
Proof.
  induction items as [|o items IH]; intros seen d onu Hf Hn Hin Hinh; [destruct Hin|].
  inversion Hn as [|? ? Ho Hn']; subst. cbn [fold_left mbind outcome_bind bind].
  destruct (Dict.inherited (odb_key fallback o)) eqn:Ho'.
  - assert (Ht : add_onu fallback d o = Throw no_group_error).
    { unfold add_onu. rewrite (get_prop_not_nullish _ _ Ho).
      cbn [mbind outcome_bind bind].
      fold (odb_name_of fallback o). fold (odb_key fallback o).
      destruct (Dict.lookup (odb_key fallback o) d) as [g|] eqn:Hl.
      - apply lookup_In in Hl. destruct (filed_groups _ _ _ Hf _ _ Hl) as (_ & Hno & _).
        congruence.
      - now rewrite Ho'. }
    rewrite Ht. apply fold_add_onu_thrown.
  - destruct (add_onu_filed seen d o Hf Ho Ho') as (d1 & -> & Hf1).
    destruct Hin as [->|Hin]; [congruence|].
    now apply (IH (seen ++ [o]) d1 onu).
Qed.
End Grouping.

Section OdbGroupsOfListing.
Import Onu.


(** X22: one device of an ODB called "constructor", "toString",
    "__proto__" or by another name that every object inherits makes
    [getOnusByOdb] fail for the whole listing, in both revisions: the
    lookup of the group finds the inherited member, no group is
    created, and the push to the [onus] of that member throws. *)
Theorem getOnusByOdb_fails_on_inherited_names :
  forall (api : api_t) (s : t) (filters : jsval) (m : moments) (items : list jsval)
         (onu : jsval),
    Forall (fun onu => nullish onu = false) items ->
    In onu items ->
    (fst (OnuService.getOnusWithGps api s filters m) = Return (JArr items) ->
     Dict.inherited (odb_key "Unknown" onu) = true ->
     fst (OnuService.getOnusByOdb api s filters m) = Throw no_group_error) /\
    (fst (OnuServiceB.getOnusWithGps api s filters m) = Return (JArr items) ->
     Dict.inherited (odb_key "Unknown ODB" onu) = true ->
     fst (OnuServiceB.getOnusByOdb api s filters m) = Throw no_group_error).
Proof.
  intros api s filters m items onu Hn Hin. split; intros Hlist Hinh.
  - unfold OnuService.getOnusByOdb.
    destruct (OnuService.getOnusWithGps api s filters m) as [r s']. cbn [fst snd] in *.
    subst r. cbn [as_array mbind outcome_bind bind]. unfold OdbGroups.group_onus.
    now rewrite (fold_add_onu_inherited "Unknown" items [] [] onu (filed_nothing _)).
  - unfold OnuServiceB.getOnusByOdb.
    destruct (OnuServiceB.getOnusWithGps api s filters m) as [r s']. cbn [fst snd] in *.
    subst r. cbn [as_array mbind outcome_bind bind]. unfold OdbGroups.group_onus.
    now rewrite (fold_add_onu_inherited "Unknown ODB" items [] [] onu (filed_nothing _)).
Qed.


Lemma getOnusByOdb_fails_on_inherited_names_witness :
  fst (OnuServiceB.getOnusByOdb (details_api constructor_devices) demo_service (JObj [])
         demo_moments)
  = Throw no_group_error.
Proof.
  let items := eval vm_compute in
    (match fst (OnuServiceB.getOnusWithGps (details_api constructor_devices)
                  demo_service (JObj []) demo_moments) with
     | Return (JArr l) => l
     | _ => []
     end) in
  pose proof (getOnusByOdb_fails_on_inherited_names (details_api constructor_devices)
                demo_service (JObj []) demo_moments items (nth 1 items JNull)) as H.
  destruct H as [_ H]; [each_item | vm_compute; right; left; reflexivity|].
  apply H; vm_compute; reflexivity.
Defined.
End OdbGroupsOfListing.

Section Counting.
Local Open Scope Z_scope.


Lemma count_of_nonneg p l : 0 <= count_of p l.
Proof. unfold count_of. lia. Qed.







(** ** Breakdowns *)



Variable field : string.




End Counting.

Section StatisticsOfListing.
Import Onu.
Local Open Scope Z_scope.









End StatisticsOfListing.

Section ArrayIndices.
Local Open Scope Z_scope.












End ArrayIndices.

Section OrderOfGroups.
Import Onu OdbGroups.
Local Open Scope Z_scope.









Variable fallback : string.




End OrderOfGroups.

Section OrderOfListing.
Import Onu.
Local Open Scope Z_scope.


End OrderOfListing.

Section RouteFilters.
Import Routes.

Lemma filters_of_fields keys query :
  exists fields,
    filters_of keys query = JObj fields /\
    sublist (List.map fst fields) keys /\
    (forall k v, In (k, v) fields -> In k keys /\ v = get_prop_opt query k /\ v <> JUndefined) /\
    (forall k, In k keys -> get_prop_opt query k <> JUndefined ->
               In (k, get_prop_opt query k) fields).
Proof.
  unfold filters_of. eexists. split; [reflexivity|].
  induction keys as [|k0 keys (IH1 & IH2 & IH3)]; cbn [List.map List.filter].
  - split; [constructor|]. split; [intros k v []|intros k []].
  - cbn [snd].
    destruct (strict_eq (get_prop_opt query k0) JUndefined) eqn:He; cbn [negb].
    + split; [now constructor|]. split.
      * intros k v H. destruct (IH2 k v H) as (? & ? & ?). repeat split; auto. now right.
      * intros k [<-|Hk] Hd; [|now apply IH3].
        destruct (get_prop_opt query k0); try discriminate. now contradiction Hd.
    + cbn [List.map fst]. split; [now constructor|]. split.
      * intros k v [[= <- <-]|H].
        -- repeat split; [now left|]. intros Hu. rewrite Hu in He. discriminate.
        -- destruct (IH2 k v H) as (? & ? & ?). repeat split; auto. now right.
      * intros k [<-|Hk] Hd; [now left | right; now apply IH3].
Qed.

(** X26: the filter object a route passes on holds the recognised options
    of the query and nothing else: its keys are recognised names in
    the fixed order of the handler, each value is the value of the
    query and is never [undefined], and every recognised option of
    the query is in it.  An option that the handler does not name
    reaches neither the cache key nor the upstream. *)
Theorem route_filters_hold_recognised_options_only :
  forall query : jsval,
    (exists fields,
        onus_filters query = JObj fields /\
        sublist (List.map fst fields) ["olt_id"; "board"; "port"; "zone"; "odb"]%string /\
        (forall k v, In (k, v) fields ->
           In k ["olt_id"; "board"; "port"; "zone"; "odb"]%string /\
           v = get_prop_opt query k /\ v <> JUndefined) /\
        (forall k, In k ["olt_id"; "board"; "port"; "zone"; "odb"]%string ->
           get_prop_opt query k <> JUndefined -> In (k, get_prop_opt query k) fields)) /\
    (exists fields,
        gps_filters query = JObj fields /\
        sublist (List.map fst fields) ["olt_id"; "board"; "port"; "zone"]%string /\
        (forall k v, In (k, v) fields ->
           In k ["olt_id"; "board"; "port"; "zone"]%string /\
           v = get_prop_opt query k /\ v <> JUndefined) /\
        (forall k, In k ["olt_id"; "board"; "port"; "zone"]%string ->
           get_prop_opt query k <> JUndefined -> In (k, get_prop_opt query k) fields)).
Proof. intros query. split; apply filters_of_fields. Qed.

Lemma route_filters_hold_recognised_options_only_witness :
  exists fields,
    gps_filters query_a = JObj fields /\ In ("zone"%string, JStr "A") fields.
Proof.
  destruct (route_filters_hold_recognised_options_only query_a)
    as (_ & fields & H1 & _ & _ & H4).
  exists fields. split; [exact H1|].
  apply (H4 "zone"%string).
  - cbn [In]. tauto.
  - vm_compute. discriminate.
Defined.
End RouteFilters.

Section Spacing.
Import RateLimiter.
Local Open Scope Z_scope.

Lemma waitForNextCall_done rl now late :
  0 <= late ->
  lastCallTime rl + apiDelay rl <= snd (waitForNextCall rl now late) /\
  now <= snd (waitForNextCall rl now late) /\
  lastCallTime (fst (waitForNextCall rl now late)) = snd (waitForNextCall rl now late) /\
  apiDelay (fst (waitForNextCall rl now late)) = apiDelay rl.
Proof.
  intros Hlate. unfold waitForNextCall, waitTime. cbn [fst snd lastCallTime apiDelay
                                                        set_lastCallTime].
  destruct (Z.ltb_spec (now - lastCallTime rl) (apiDelay rl)); repeat split; lia.
Qed.

Lemma waits_in_turn_spaced calls : forall rl,
  Forall (fun call => 0 <= snd call) calls ->
  spaced (apiDelay rl) (lastCallTime rl :: waits_in_turn rl calls) = true.
Proof.
  induction calls as [|[now late] calls IH]; intros rl Hlate; [reflexivity|].
  inversion Hlate as [|? ? Hl Hrest]; subst. cbn [snd] in Hl.
  destruct (waitForNextCall_done rl now late Hl) as (H1 & _ & H2 & H3).
  cbn [waits_in_turn]. specialize (IH (fst (waitForNextCall rl now late)) Hrest).
  rewrite H2, H3 in IH. cbn [spaced] in *. rewrite IH, andb_true_r.
  apply Z.leb_le. lia.
Qed.

(** X4: invocations of [waitForNextCall] that are made one after the
    other, each awaited before the next is made, complete at least
    [apiDelay] apart, and the first of them at least [apiDelay] after
    the last call on record; no invocation completes before it was
    entered.  (Timers do not fire early.) *)
Theorem waitForNextCall_in_turn_spaces_the_calls :
  forall (rl : RateLimiter.t) (calls : list (Z * Z)),
    Forall (fun call => 0 <= snd call) calls ->
    spaced (apiDelay rl) (lastCallTime rl :: waits_in_turn rl calls) = true /\
    Forall2 (fun call done => fst call <= done) calls (waits_in_turn rl calls).
Proof.
  intros rl calls Hlate. split; [now apply waits_in_turn_spaced|].
  revert rl. induction Hlate as [|[now late] calls Hl _ IH]; intros rl; [constructor|].
  cbn [waits_in_turn]. constructor; [|apply IH].
  now destruct (waitForNextCall_done rl now late Hl) as (_ & H & _).
Qed.

Lemma waitForNextCall_in_turn_spaces_the_calls_witness :
  waits_in_turn (RateLimiter.new demo_limits) [(100000, 0); (100500, 3); (120000, 0)]
    = [100000; 108003; 120000] /\
  spaced 8000 (0 :: waits_in_turn (RateLimiter.new demo_limits)
                      [(100000, 0); (100500, 3); (120000, 0)]) = true.
Proof.
  split; [reflexivity|].
  refine (proj1 (waitForNextCall_in_turn_spaces_the_calls (RateLimiter.new demo_limits)
                   [(100000, 0); (100500, 3); (120000, 0)] _)).
  repeat constructor; cbn [snd]; lia.
Defined.
End Spacing.

Section LocatedRecords.
Import Onu.






End LocatedRecords.

Section OptionalSignal.
Import Onu.

(** X20: on a miss, [getOnuById] of the second revision returns the
    record of a device whose detail request succeeds whatever becomes
    of the signal request.  The [signal] of the record is the answer
    to the signal request when that request returned an answer with a
    truthy [status], and [null] when it failed or said otherwise; the
    record carries the classified status, its colour and the status
    text of the upstream, and every other field of the device
    unchanged. *)
Theorem getOnuById_signal_is_optional :
  forall (api : api_t) (s : t) (externalId : jsval) (m : moments) (onu : jsval),
    fst (CacheService.get (cache s) ("onu_detail_" +:+ to_string externalId) (checked m))
      = JNull ->
    getOnuDetails api externalId = Return (ok_response "onu_details" onu) ->
    well_formed_device onu ->
    (forall r, getOnuSignal api externalId = Return r -> nullish r = false) ->
    exists status result,
      OnuServiceB.determineOnuStatus (get_prop_opt onu "status") = Return status /\
      fst (OnuServiceB.getOnuById api s externalId m) = Return result /\
      get_prop_opt result "signal" = signal_of (getOnuSignal api externalId) /\
      get_prop_opt result "status" = JStr status /\
      get_prop_opt result "status_color" = JStr (getStatusColor status) /\
      get_prop_opt result "raw_status" = get_prop_opt onu "status" /\
      forall k, ~ In k ["status"; "status_color"; "raw_status"; "signal"]%string ->
                get_prop_opt result k = get_prop_opt onu k.
Proof.
  intros api s externalId m onu Hmiss Hfetch (fields & r & -> & Hr) Hsig.
  unfold OnuServiceB.getOnuById.
  destruct (CacheService.get _ _ _) as [cached c]. cbn [fst] in Hmiss. subst cached.
  cbn [truthy]. rewrite Hfetch. pose proof Hr as Hr'. cbn [get_prop_opt] in Hr.
  destruct (determineOnuStatusB_raw r) as [st Hst].
  exists st.
  assert (Hcatch : exists answer,
             OnuServiceB.catch_status_false (getOnuSignal api externalId) = Return answer /\
             nullish answer = false /\
             (if truthy (get_prop_opt answer "status") then answer else JNull)
             = signal_of (getOnuSignal api externalId)).
  { destruct (getOnuSignal api externalId) as [answer|e] eqn:Esig.
    - exists answer. split; [reflexivity|]. split; [now apply Hsig | reflexivity].
    - eexists. split; [reflexivity|]. split; reflexivity. }
  destruct Hcatch as (answer & -> & Hn & Hsignal).
  cbn [OnuServiceB.all2 mbind outcome_bind bind ok_response get_prop lookup_field
       String.eqb Ascii.eqb Bool.eqb default from_option id truthy negb].
  rewrite Hr, Hst, (get_prop_not_nullish _ _ Hn).
  cbn [mbind outcome_bind bind fst]. eexists. split; [now rewrite Hr'|].
  split; [reflexivity|]. cbn [spread set_fields fold_left fst snd].
  split; [now rewrite get_prop_opt_set_field_eq|].
  split; [now rewrite !get_prop_opt_set_field_ne, get_prop_opt_set_field_eq by discriminate|].
  split; [now rewrite !get_prop_opt_set_field_ne, get_prop_opt_set_field_eq by discriminate|].
  split; [rewrite !get_prop_opt_set_field_ne, get_prop_opt_set_field_eq by discriminate;
          now rewrite Hr'|].
  intros k Hk. cbn [In] in Hk.
  rewrite !get_prop_opt_set_field_ne; [reflexivity|..]; intros ->; tauto.
Qed.

Lemma getOnuById_signal_is_optional_witness :
  exists status result,
    OnuServiceB.determineOnuStatus (JStr "Online") = Return status /\
    fst (OnuServiceB.getOnuById (device_api signal_down_service demo_timing) demo_service
           (JStr "onu1") demo_moments) = Return result /\
    get_prop_opt result "signal" = JNull.
Proof.
  destruct (getOnuById_signal_is_optional
              (device_api signal_down_service demo_timing) demo_service (JStr "onu1")
              demo_moments
              (JObj [("unique_external_id", JStr "onu1");
                     ("name", JStr "Test");
                     ("status", JStr "Online")]))
    as (status & result & H1 & H2 & H3 & _).
  - vm_compute. reflexivity.
  - vm_compute. reflexivity.
  - eexists _, (RawString "Online"). split; reflexivity.
  - intros signalResponse H. vm_compute in H. discriminate.
  - exists status, result. split; [exact H1|]. split; [exact H2|].
    rewrite H3. vm_compute. reflexivity.
Defined.
End OptionalSignal.

Section InheritedIdentities.
Import Onu PlainObject.

(** An entry stored under a key other than [__proto__] is what the
    next read of the key finds. *)
Lemma get_put (o : PlainObject.t) (key value : jsval) :
  to_string key <> "__proto__"%string ->
  get (put o key value) key = Value value.
Proof.
  intros Hk. unfold put, get.
  destruct (String.eqb_spec (to_string key) "__proto__") as [|_]; [contradiction|].
  cbn [andb own]. generalize (own o). intros fs.
  assert (H : lookup_field (to_string key) (set_field (to_string key) value fs)
              = Some value).
  { induction fs as [|[k v] fs IH]; cbn [set_field lookup_field].
    - now rewrite String.eqb_refl.
    - destruct (String.eqb_spec (to_string key) k) as [->|Hne]; cbn [lookup_field].
      + now rewrite String.eqb_refl.
      + destruct (String.eqb_spec (to_string key) k); [contradiction | exact IH]. }
  now rewrite H.
Qed.

(** What an object literal holds before anything is stored in it:
    nothing under an ordinary key, a built-in member under the names
    of [Object.prototype]. *)
Lemma get_empty (key : jsval) :
  get empty key =
  if Dict.inherited (to_string key) then Builtin else Value JUndefined.
Proof.
  unfold get, from_object_prototype. cbn [own empty lookup_field proto].
  destruct (String.eqb_spec (to_string key) "__proto__") as [->|_]; reflexivity.
Qed.

(** A device whose identity is a name that every object inherits, and
    that the status endpoint does not list, makes both listings of
    the first revision fail: the status found under that identity is
    the inherited member.  Listed by the status endpoint, the device
    is classified like any other. *)
Example listing_with_inherited_identity :
  fst (OnuService.getOnusWithGps
         (gps_api [device "constructor" (JStr "-7.1") (JStr "110.8")])
         demo_service (JObj []) demo_moments)
    = Throw (Error "TypeError: statusString.toLowerCase is not a function") /\
  fst (OnuService.getOnusWithGps
         (gps_api [device "__proto__" (JStr "-7.1") (JStr "110.8")])
         demo_service (JObj []) demo_moments)
    = Throw (Error "TypeError: statusString.toLowerCase is not a function") /\
  OnuService.status_of
    (put empty (JStr "constructor") (JStr "LOS")) (JStr "constructor")
    = Return (JStr "LOS", "LOS"%string).
Proof. evaluate. Qed.

(** Storing under [__proto__] replaces the prototype: nothing is
    found under that name afterwards but the stored record itself, and
    the fields of the record are found under their names. *)
Example put_under_proto :
  let record := JObj [("unique_external_id", JStr "__proto__"); ("name", JStr "A")] in
  let detailsMap := put empty (JStr "__proto__") record in
  own detailsMap = [] /\
  get detailsMap (JStr "__proto__") = Value record /\
  get detailsMap (JStr "name") = Value (JStr "A") /\
  get detailsMap (JStr "onu1") = Value JUndefined /\
  get (put empty (JStr "__proto__") (JStr "Online")) (JStr "__proto__") = Builtin /\
  get (put empty (JStr "__proto__") JNull) (JStr "constructor") = Value JUndefined.
Proof. cbv zeta. evaluate. Qed.
End InheritedIdentities.

